(** * gopaddock: scoring, race match, finish-probability simulation and
      gait-feature extraction guards

    A shallow embedding of
    - [services/scoring_config.py] and [services/scoring_v2.py],
    - [services/race_match_v2.py],
    - [services/race_prob_model.py],
    - the guard logic of [services/gait_features_v2.py].

    Number model.  Python [float] values are embedded as real numbers
    ([R]); the arithmetic is exact, so rounding error, infinities and NaN
    are outside the model.  Python [int] counters are [Z] or [nat].
    Comparisons of floats become the decision procedures of the reals
    ([Rlt_dec] and friends), in the order the source writes them.

    Where NaN decides what the code does, [score_v2] and
    [compute_match_M] have a second embedding, in module [Nan], over
    floats that are a real number or NaN; the two embeddings agree on
    real-valued inputs. *)

From Stdlib Require Import Reals Lra Lia ZArith List Ascii String Sorted.
From stdpp Require Import base option list gmap strings.

Open Scope R_scope.

(** ** Float comparisons *)

Definition Rltb (x y : R) : bool := if Rlt_dec x y then true else false.
Definition Rgtb (x y : R) : bool := if Rgt_dec x y then true else false.
Definition Rleb (x y : R) : bool := if Rle_dec x y then true else false.
Definition Rgeb (x y : R) : bool := if Rge_dec x y then true else false.

(** ** services/scoring_config.py *)

Module Config.
Definition P0 : R := 1.6.
Definition P1 : R := 2.4.
Definition S0 : R := 3.5.
Definition S1 : R := 6.0.
Definition W0 : R := 0.25.
Definition W1 : R := 0.60.
Definition A0 : R := 0.06.
Definition A1 : R := 0.18.

Definition PR0 : R := 2.1.
Definition PR1 : R := 2.7.
Definition SR0 : R := 3.8.
Definition SR1 : R := 5.5.
Definition WR0 : R := 0.30.
Definition WR1 : R := 0.70.
Definition AR0 : R := 0.08.
Definition AR1 : R := 0.22.

Definition V0 : R := 0.25.
Definition V1 : R := 0.70.

Definition HB0 : R := 1.35.
Definition HIND_ASYM0 : R := 0.14.
Definition FORE_ASYM0 : R := 0.14.

Definition DELTA_MAX : R := 18.0.

Definition CAL_A0 : R := -0.15.
Definition CAL_A1 : R := 1.00.
Definition CAL_A2 : R := 0.80.
End Config.

(** ** services/scoring_v2.py *)

(** [lo if x < lo else hi if x > hi else x] *)
Definition clamp (x lo hi : R) : R :=
  if Rltb x lo then lo else if Rgtb x hi then hi else x.

Definition sat (x a b : R) : R :=
  if Rleb b a then 0 else clamp ((x - a) / (b - a)) 0 1.

Definition rev (u : R) : R := 1 - u.

Definition sigmoid (x : R) : R :=
  if Rgeb x 0 then
    let z := exp (- x) in 1 / (1 + z)
  else
    let z := exp x in z / (1 + z).

Module PaddockAIState.
Record t : Type := mk {
  T : R; X : R; SW : R; BR : R; CO : R; F : R; AiConf : R
}.
(** The dataclass defaults. *)
Definition default : t := mk 50 50 50 50 50 50 0.3.
End PaddockAIState.

(** The dictionary [score_v2] returns, one field per leaf; the field name
    is the path of keys. *)
Record ScoreResult : Type := mkScoreResult {
  item_P : R; item_S : R; item_W : R; item_A : R; item_V : R;
  gait_G : R; gait_G_adj : R; gait_GaitTotal : R;
  risk_R_gait : R; risk_R_adj : R; risk_stress_risk : R;
  risk_paddock_state : R;
  match_M : R;
  total_Total : R; total_CI : R * R; total_C_vid : R;
  prob_PlacePct : R; prob_ContendPct : R;
  flag_headbob_suspect : bool;
  flag_hind_asym_suspect : bool;
  flag_fore_asym_suspect : bool
}.

(** [d.get(key, default)] on a dictionary of floats. *)
Definition dict_get (d : gmap string R) (key : string) (dflt : R) : R :=
  default dflt (d !! key).

(** Truth value of a possibly absent dictionary: [None] and [{}] are
    false. *)
Definition dict_truthy (d : option (gmap string R)) : bool :=
  match d with
  | None => false
  | Some m => negb (bool_decide (dom m = ∅))
  end.

(** [score_v2]; the keyword arguments in the order of the signature, an
    absent optional argument is [None]. *)
Definition score_v2
    (q pitch_hz stride_index wobble asym : R)
    (speed_proxy : option R)
    (roi_asym : option (gmap string R))
    (headbob_ratio : option R)
    (ai_state : PaddockAIState.t)
    (ped_score ped_stamina ped_surfacefit : R)
    (race_match_override : option R) : ScoreResult :=
  (* Confidence *)
  let C_vid := 0.65 + 0.35 * clamp (q / 100) 0 1 in
  (* Item scores *)
  let P := 100 * rev (sat pitch_hz Config.P0 Config.P1) in
  let S := 100 * sat stride_index Config.S0 Config.S1 in
  let W := 100 * rev (sat wobble Config.W0 Config.W1) in
  let A := 100 * rev (sat asym Config.A0 Config.A1) in
  let V := match speed_proxy with
           | None => 50
           | Some v => 100 * sat v Config.V0 Config.V1
           end in
  let G := 0.18 * P + 0.30 * S + 0.22 * W + 0.18 * A + 0.12 * V in
  (* Risk parts *)
  let rp := 100 * sat pitch_hz Config.PR0 Config.PR1 in
  let rw := 100 * sat wobble Config.WR0 Config.WR1 in
  let ra := 100 * sat asym Config.AR0 Config.AR1 in
  let rs := 100 * rev (sat stride_index Config.SR0 Config.SR1) in
  (* Clinical flags *)
  let headbob_suspect :=
    match headbob_ratio with
    | None => false
    | Some hb => Rgtb hb Config.HB0
    end in
  let hind_asym_suspect :=
    if dict_truthy roi_asym
    then Rgtb (dict_get (default ∅ roi_asym) "hind" 0) Config.HIND_ASYM0
    else false in
  let fore_asym_suspect :=
    if dict_truthy roi_asym
    then Rgtb (dict_get (default ∅ roi_asym) "head" 0) Config.FORE_ASYM0
    else false in
  let R_gait0 := 0.28 * rp + 0.28 * ra + 0.22 * rw + 0.12 * rs in
  let R_gait1 := if headbob_suspect then R_gait0 + 10 else R_gait0 in
  let R_gait2 := if hind_asym_suspect then R_gait1 + 10 else R_gait1 in
  let R_gait := clamp R_gait2 0 100 in
  (* AI state integration *)
  let t := clamp (PaddockAIState.T ai_state / 100) 0 1 in
  let x := clamp (PaddockAIState.X ai_state / 100) 0 1 in
  let sw := clamp (PaddockAIState.SW ai_state / 100) 0 1 in
  let br := clamp (PaddockAIState.BR ai_state / 100) 0 1 in
  let co := clamp (PaddockAIState.CO ai_state / 100) 0 1 in
  let f := clamp (PaddockAIState.F ai_state / 100) 0 1 in
  let K_ai := 0.50 + 0.50 * clamp (PaddockAIState.AiConf ai_state) 0 1 in
  let PaddockState :=
    100 * clamp (0.30 * t + 0.25 * f + 0.30 * co + 0.15 * (1 - x)) 0 1 in
  let PaddockState_ := (1 - K_ai) * 50 + K_ai * PaddockState in
  let Stress := clamp (0.45 * x + 0.35 * sw + 0.20 * br) 0 1 in
  let StressRisk_ := 100 * K_ai * Stress in
  let G_adj := clamp (G + 0.15 * (PaddockState_ - 50)) 0 100 in
  let R_adj := clamp (R_gait + 0.30 * StressRisk_) 0 100 in
  (* Combine gait total *)
  let GaitTotal_raw := clamp (G_adj - 0.35 * R_adj) 0 100 in
  let GaitTotal := GaitTotal_raw * C_vid in
  (* Match *)
  let M := match race_match_override with
           | None =>
               let Dm := 0.5 * S + 0.5 * ped_stamina in
               let Sm := ped_surfacefit in
               let Cm := W in
               clamp (0.45 * Dm + 0.35 * Sm + 0.20 * Cm) 0 100
           | Some ov => clamp ov 0 100
           end in
  (* Total *)
  let Total_raw := 0.65 * GaitTotal + 0.20 * ped_score + 0.15 * M in
  let Total := clamp (Total_raw - 0.10 * R_adj) 0 100 in
  (* CI widens with low quality *)
  let U := 1 - clamp (q / 100) 0 1 in
  let Delta := Config.DELTA_MAX * U in
  let CI := (clamp (Total - Delta) 0 100, clamp (Total + Delta) 0 100) in
  (* Calibrated probabilities *)
  let z := Config.CAL_A0 + Config.CAL_A1 * ((Total - 60) / 8)
           + Config.CAL_A2 * ((M - 60) / 10) in
  let Place := 100 * sigmoid z * 0.55 in
  let Contend := 100 * sigmoid (z - 0.7) * 0.25 in
  {| item_P := P; item_S := S; item_W := W; item_A := A; item_V := V;
     gait_G := G; gait_G_adj := G_adj; gait_GaitTotal := GaitTotal;
     risk_R_gait := R_gait; risk_R_adj := R_adj;
     risk_stress_risk := StressRisk_;
     risk_paddock_state := PaddockState_;
     match_M := M;
     total_Total := Total; total_CI := CI; total_C_vid := C_vid;
     prob_PlacePct := Place; prob_ContendPct := Contend;
     flag_headbob_suspect := headbob_suspect;
     flag_hind_asym_suspect := hind_asym_suspect;
     flag_fore_asym_suspect := fore_asym_suspect |}.

(** Lines 126-127: the half-width [Delta] of the confidence interval. *)
Definition ci_half_width (q : R) : R :=
  Config.DELTA_MAX * (1 - clamp (q / 100) 0 1).

(** Line 102: the stress blend of the excitement, sweating and breathing
    axes, each scaled to 0..1. *)
Definition stress_blend (ai_state : PaddockAIState.t) : R :=
  clamp (0.45 * clamp (PaddockAIState.X ai_state / 100) 0 1
         + 0.35 * clamp (PaddockAIState.SW ai_state / 100) 0 1
         + 0.20 * clamp (PaddockAIState.BR ai_state / 100) 0 1) 0 1.

(** A value on the 0..100 scale. *)
Definition in_0_100 (x : R) : Prop := 0 <= x <= 100.

(** ** services/race_match_v2.py *)

(** *** Python string methods used by the module

    A string is the UTF-8 encoding of a Python [str].  [strip] removes,
    at both ends, the characters for which [str.isspace] holds, the
    ASCII ones and the others (U+0085, U+00A0, U+1680, U+2000-U+200A,
    U+2028, U+2029, U+202F, U+205F, U+3000) alike.  [lower] changes the
    ASCII capitals only; the Japanese tags the source tests for are
    unchanged by it, as in Python. *)

Definition lower_ascii (c : ascii) : ascii :=
  let n := nat_of_ascii c in
  if ((65 <=? n) && (n <=? 90))%nat then ascii_of_nat (n + 32) else c.

Fixpoint lower (s : string) : string :=
  match s with
  | EmptyString => EmptyString
  | String c s' => String (lower_ascii c) (lower s')
  end.

(** White space of one byte: U+0020, U+0009-U+000D, U+001C-U+001F. *)
Definition is_space (c : ascii) : bool :=
  let n := nat_of_ascii c in
  ((n =? 32) || ((9 <=? n) && (n <=? 13)) || ((28 <=? n) && (n <=? 31)))%nat.

(** White space of two bytes: U+0085 (C2 85) and U+00A0 (C2 A0). *)
Definition is_space2 (c1 c2 : ascii) : bool :=
  let a := nat_of_ascii c1 in
  let b := nat_of_ascii c2 in
  ((a =? 194) && ((b =? 133) || (b =? 160)))%nat.

(** White space of three bytes: U+1680 (E1 9A 80), U+2000-U+200A
    (E2 80 80 - E2 80 8A), U+2028, U+2029, U+202F (E2 80 A8, A9, AF),
    U+205F (E2 81 9F) and U+3000 (E3 80 80). *)
Definition is_space3 (c1 c2 c3 : ascii) : bool :=
  let a := nat_of_ascii c1 in
  let b := nat_of_ascii c2 in
  let c := nat_of_ascii c3 in
  (((a =? 225) && (b =? 154) && (c =? 128))
   || ((a =? 226) && (b =? 128)
       && (((128 <=? c) && (c <=? 138)) || (c =? 168) || (c =? 169)
           || (c =? 175)))
   || ((a =? 226) && (b =? 129) && (c =? 159))
   || ((a =? 227) && (b =? 128) && (c =? 128)))%nat.

(** Removal of the white space at the front of a sequence of bytes.  With
    [back] the sequence is a reversed string, and the bytes of a
    character come last byte first. *)
Fixpoint lstrip_bytes (back : bool) (l : list ascii) : list ascii :=
  match l with
  | [] => []
  | c1 :: l1 =>
      if is_space c1 then lstrip_bytes back l1
      else
        match l1 with
        | [] => l
        | c2 :: l2 =>
            if (if back then is_space2 c2 c1 else is_space2 c1 c2)
            then lstrip_bytes back l2
            else
              match l2 with
              | [] => l
              | c3 :: l3 =>
                  if (if back then is_space3 c3 c2 c1
                      else is_space3 c1 c2 c3)
                  then lstrip_bytes back l3
                  else l
              end
        end
  end.

Definition lstrip (s : string) : string :=
  string_of_list_ascii (lstrip_bytes false (list_ascii_of_string s)).

Definition rstrip (s : string) : string :=
  string_of_list_ascii
    (List.rev (lstrip_bytes true (List.rev (list_ascii_of_string s)))).

Definition strip (s : string) : string := rstrip (lstrip s).

(** [s in (a, b, ...)] *)
Definition str_in (s : string) (l : list string) : bool :=
  bool_decide (s ∈ l).

(** [a or b] where [a] is a string or [None]: the empty string and [None]
    are false. *)
Definition str_or (a b : option string) : option string :=
  match a with
  | Some EmptyString | None => b
  | Some _ => a
  end.

(** [a or "literal"] *)
Definition str_or_lit (a : option string) (b : string) : string :=
  match a with
  | Some EmptyString | None => b
  | Some s => s
  end.

(** [round(x, 2)] on exact reals: the nearest multiple of 1/100, a tie
    going to the even one. *)
Definition round_half_even (y : R) : Z :=
  let n := Int_part y in
  let f := y - IZR n in
  if Rltb f 0.5 then n
  else if Rgtb f 0.5 then (n + 1)%Z
  else if Z.even n then n else (n + 1)%Z.

Definition round2 (x : R) : R := IZR (round_half_even (x * 100)) / 100.

(** The [race] dictionary: the keys the function reads.  [distance_m] is
    numeric when present. *)
Module Race.
Record t : Type := mk {
  surface : option string;
  distance_m : option R;
  turn : option string
}.
(** [{}] *)
Definition empty : t := mk None None None.
End Race.

(** The [track_profile] dictionary: the keys the function reads.  The
    empty dictionary is the record with every key absent. *)
Module TrackProfile.
Record t : Type := mk {
  surface : option string;
  turn : option string;
  corner : option string;
  going : option string
}.
Definition empty : t := mk None None None None.
End TrackProfile.

(** The [pedigree] dictionary: [scores] is [Some] when the key holds a
    dictionary (of floats). *)
Module Pedigree.
Record t : Type := mk { scores : option (gmap string R) }.
End Pedigree.

Module MatchResult.
(** ["match_0_100"] and the entries of ["components"]. *)
Record t : Type := mk {
  match_0_100 : R;
  dist_pref : R;
  surf_pref : R;
  corner_adj : R;
  going_adj : R;
  turn_adj : R;
  surface : string;
  distance_m : R;
  turn : string;
  corner : string;
  going : string
}.
End MatchResult.

Definition _clamp (x lo hi : R) : R :=
  if Rltb x lo then lo else if Rgtb x hi then hi else x.

(** [_get]: a missing key gives the default (there is no NaN among the
    reals, and every value is a float already). *)
Definition _get (d : gmap string R) (key : string) (dflt : R) : R :=
  default dflt (d !! key).

Definition _infer_surface_from_track
    (track_profile : option TrackProfile.t) : option string :=
  match track_profile with
  | None => None
  | Some tp =>
      let s := lower (strip (str_or_lit (TrackProfile.surface tp) "")) in
      if str_in s ["turf"; "grass"; "芝"] then Some "turf"
      else if str_in s ["dirt"; "sand"; "ダート"; "砂"] then Some "dirt"
      else None
  end.

Definition _infer_turn_from_track
    (track_profile : option TrackProfile.t) : option string :=
  match track_profile with
  | None => None
  | Some tp =>
      let t := lower (strip (str_or_lit (TrackProfile.turn tp) "")) in
      if str_in t ["left"; "右回り"; "right"] then
        (if String.eqb t "left" then Some "left"
         else if String.eqb t "right" then Some "right" else None)
      else if str_in t ["right"] then Some "right"
      else if str_in t ["left"] then Some "left"
      else if str_in t ["右"; "右回り"] then Some "right"
      else if str_in t ["左"; "左回り"] then Some "left"
      else None
  end.

(** Lines 94-102: the distance preference proxy. *)
Definition dist_pref_of (dist_m ped_speed ped_stamina speed : R) : R :=
  if Rleb dist_m 0 then 50
  else if Rleb dist_m 1400 then 0.65 * ped_speed + 0.35 * speed
  else if Rleb dist_m 1800 then 0.45 * ped_speed + 0.55 * ped_stamina
  else 0.25 * ped_speed + 0.75 * ped_stamina.

(** Lines 104-110: the surface suitability proxy. *)
Definition surf_pref_of
    (surface : string) (ped_speed ped_durable fatigue stability symmetry : R)
    : R :=
  if String.eqb surface "turf" then
    0.45 * ped_speed + 0.25 * stability + 0.30 * symmetry
  else if String.eqb surface "dirt" then
    0.35 * ped_durable + 0.25 * fatigue + 0.20 * stability + 0.20 * symmetry
  else 0.5 * ped_durable + 0.5 * stability.

(** Lines 112-122: corner demands. *)
Definition corner_adj_of (corner : string) (stride stability symmetry : R)
    : R :=
  if str_in corner ["tight"; "small"; "小回り"] then
    0 + 0.18 * (stability - 50) + 0.10 * (symmetry - 50)
      + 0.06 * _clamp (70 - stride) (-50) 50
  else if str_in corner ["wide"; "large"; "大回り"] then
    0 + 0.12 * (stride - 50) + 0.06 * (stability - 50)
  else 0.

(** Lines 124-130: going. *)
Definition going_adj_of (going : string) (fatigue ped_durable symmetry : R)
    : R :=
  if str_in going ["heavy"; "soft"; "mud"; "sloppy"; "不良"; "重"] then
    0 + 0.14 * (fatigue - 50) + 0.10 * (ped_durable - 50)
      + 0.06 * (symmetry - 50)
  else 0.

(** Lines 132-136: turn direction. *)
Definition turn_adj_of (turn : string) (symmetry : R) : R :=
  if str_in turn ["left"; "right"] && Rltb symmetry 45 then
    0 - (45 - symmetry) * 0.12
  else 0.

Definition compute_match_M
    (gait_item_scores : gmap string R)
    (pedigree : option Pedigree.t)
    (race : option Race.t)
    (track_profile : option TrackProfile.t) : MatchResult.t :=
  let race := default Race.empty race in
  let surface :=
    lower (str_or_lit
             (str_or (Race.surface race)
                     (_infer_surface_from_track track_profile))
             "unknown") in
  let dist_m := default 0 (Race.distance_m race) in
  let turn :=
    lower (str_or_lit
             (str_or (Race.turn race) (_infer_turn_from_track track_profile))
             "unknown") in
  let tp := default TrackProfile.empty track_profile in
  let corner := lower (str_or_lit (TrackProfile.corner tp) "unknown") in
  let going := lower (str_or_lit (TrackProfile.going tp) "unknown") in
  (* Core gait signals (0..100) *)
  let stride := _get gait_item_scores "S" 50 in
  let pitch := _get gait_item_scores "P" 50 in
  let stability := _get gait_item_scores "W" 50 in
  let symmetry := _get gait_item_scores "A" 50 in
  let fatigue := _get gait_item_scores "F" 50 in
  let speed := _get gait_item_scores "V" 50 in
  let ps : gmap string R :=
    match pedigree with
    | Some p => default ∅ (Pedigree.scores p)
    | None => ∅
    end in
  let ped_speed := default 50 (ps !! "speed") in
  let ped_stamina := default 50 (ps !! "stamina") in
  let ped_durable := default 50 (ps !! "durability") in
  let dist_pref := dist_pref_of dist_m ped_speed ped_stamina speed in
  let surf_pref :=
    surf_pref_of surface ped_speed ped_durable fatigue stability symmetry in
  let corner_adj := corner_adj_of corner stride stability symmetry in
  let going_adj := going_adj_of going fatigue ped_durable symmetry in
  let turn_adj := turn_adj_of turn symmetry in
  let base :=
    0.42 * dist_pref + 0.38 * surf_pref + 0.10 * stability
    + 0.10 * symmetry in
  let match_ := _clamp (base + corner_adj + going_adj + turn_adj) 0 100 in
  {| MatchResult.match_0_100 := round2 match_;
     MatchResult.dist_pref := round2 (_clamp dist_pref 0 100);
     MatchResult.surf_pref := round2 (_clamp surf_pref 0 100);
     MatchResult.corner_adj := round2 corner_adj;
     MatchResult.going_adj := round2 going_adj;
     MatchResult.turn_adj := round2 turn_adj;
     MatchResult.surface := surface;
     MatchResult.distance_m := dist_m;
     MatchResult.turn := turn;
     MatchResult.corner := corner;
     MatchResult.going := going |}.

(** ** services/race_prob_model.py *)

(** *** The random source

    [random.gauss(mu, sigma)] is [mu + z * sigma] for the next standard
    normal variate [z] of the process-wide generator.  The generator is a
    stream of variates and the position of the next one; nothing is
    assumed about the values of the stream. *)
Module Rng.
Record t : Type := mk { draws : nat -> R; pos : nat }.
End Rng.

(** Computations that use the generator. *)
Definition Rand (A : Type) : Type := Rng.t -> A * Rng.t.

Definition rand_ret {A} (a : A) : Rand A := fun g => (a, g).

Definition rand_bind {A B} (c : Rand A) (k : A -> Rand B) : Rand B :=
  fun g => let '(a, g') := c g in k a g'.

Notation "'draw' x '<~' c 'in' k" := (rand_bind c (fun x => k))
  (at level 10, x name, c at level 99, k at level 200).

Definition gauss (mu sigma : R) : Rand R :=
  fun g => (mu + Rng.draws g (Rng.pos g) * sigma,
            Rng.mk (Rng.draws g) (S (Rng.pos g))).

(** [[random.gauss(mu, sigma) for mu in mus]] *)
Fixpoint gauss_all (mus : list R) (sigma : R) : Rand (list R) :=
  match mus with
  | [] => rand_ret []
  | mu :: rest =>
      draw p <~ gauss mu sigma in
      draw ps <~ gauss_all rest sigma in
      rand_ret (p :: ps)
  end.

(** *** Sorting and searching *)

(** [perf[i]] for an index in range. *)
Definition perf_at (perf : list R) (i : nat) : R := nth i perf 0.

(** Insertion into a list sorted by descending key; an element goes
    before the elements of equal key, which came after it in the input. *)
Fixpoint insert_desc (key : nat -> R) (i : nat) (l : list nat) : list nat :=
  match l with
  | [] => [i]
  | j :: l' =>
      if Rltb (key i) (key j) then j :: insert_desc key i l' else i :: l
  end.

(** [sorted(l, key=key, reverse=True)]: descending, and stable (elements
    of equal key keep their order). *)
Fixpoint sorted_desc (key : nat -> R) (l : list nat) : list nat :=
  match l with
  | [] => []
  | i :: l' => insert_desc key i (sorted_desc key l')
  end.

(** [l.index(x)]; [None] for the [ValueError] of an absent element. *)
Fixpoint index (x : nat) (l : list nat) : option nat :=
  match l with
  | [] => None
  | y :: l' => if Nat.eqb y x then Some 0%nat else S <$> index x l'
  end.

(** *** The simulation *)

(** An entrant dictionary: the ["rating"] key may be absent. *)
Module Entrant.
Record t : Type := mk { name : string; rating : option R }.
End Entrant.

Module SimResult.
Record t : Type := mk {
  ok : bool;
  n : Z;
  field_size : nat;
  win : R;
  top3 : R;
  top5 : R;
  expected_rank : R;
  sigma : R
}.
End SimResult.

(** The counters of the loop. *)
Module Tally.
Record t : Type := mk { win : Z; top3 : Z; top5 : Z; rank_sum : R }.
Definition zero : t := mk 0 0 0 0.
End Tally.

(** One iteration of the loop body for a rank [r]. *)
Definition tally_rank (a : Tally.t) (r : nat) : Tally.t :=
  Tally.mk
    (if Nat.eqb r 1 then Tally.win a + 1 else Tally.win a)%Z
    (if Nat.leb r 3 then Tally.top3 a + 1 else Tally.top3 a)%Z
    (if Nat.leb r 5 then Tally.top5 a + 1 else Tally.top5 a)%Z
    (Tally.rank_sum a + INR r).

(** The rank of entry 0 in one trial. *)
Definition trial_rank (mus : list R) (sigma : R) : Rand (option nat) :=
  draw perf <~ gauss_all mus sigma in
  let order := sorted_desc (perf_at perf) (seq 0 (length mus)) in
  rand_ret ((fun i => (i + 1)%nat) <$> index 0 order).

(** [for _ in range(k)]; an exception in the body ends the loop. *)
Fixpoint trials (k : nat) (mus : list R) (sigma : R) (a : Tally.t)
    : Rand (option Tally.t) :=
  match k with
  | O => rand_ret (Some a)
  | S k' =>
      draw r <~ trial_rank mus sigma in
      match r with
      | None => rand_ret None
      | Some r => trials k' mus sigma (tally_rank a r)
      end
  end.

Definition simulate_finish_probs
    (our_mu : R) (entrants : option (list Entrant.t)) (n : Z) (sigma : R)
    : Rand (option SimResult.t) :=
  let opp := default [] entrants in
  let mus := our_mu :: map (fun e => default 50 (Entrant.rating e)) opp in
  let m := length mus in
  if (m <=? 1)%nat then
    rand_ret (Some (SimResult.mk true n 1 1 1 1 1 sigma))
  else
    let nn := Z.max 200 n in
    draw a <~ trials (Z.to_nat nn) mus sigma Tally.zero in
    rand_ret
      ((fun a =>
          SimResult.mk true nn m
            (IZR (Tally.win a) / IZR nn)
            (IZR (Tally.top3 a) / IZR nn)
            (IZR (Tally.top5 a) / IZR nn)
            (Tally.rank_sum a / IZR nn)
            sigma) <$> a).

(** The compatibility wrapper. *)
Definition estimate_race_probs
    (our_mu : R) (entrants : option (list Entrant.t)) (n : Z) (sigma : R)
    : Rand (option SimResult.t) :=
  simulate_finish_probs our_mu entrants n sigma.

(** ** services/gait_features_v2.py *)

Module GaitFeatures.
Record t : Type := mk {
  pitch_hz : R;
  stride_index : R;
  wobble_ratio_0_1 : R;
  lr_asym_0_1 : R;
  speed_proxy : option R;
  roi_asym : gmap string R;
  headbob_ratio : option R;
  quality_score_0_100 : R;
  quality_issues : list string
}.
End GaitFeatures.

(** The exceptions that leave the function: the [RuntimeError] it raises
    itself, with its message, and an exception that leaves one of the
    OpenCV or NumPy calls of lines 58-175. *)
Inductive Error : Type :=
| RuntimeError (msg : string)
| LibraryError (msg : string).

(** The names the specification gives to the two failures. *)
Definition VideoUnreadable : Error := RuntimeError "Failed to open video".
Definition InsufficientFrames : Error := RuntimeError "Too few frames".

Section Extract.

(** A decoded frame ([numpy] array). *)
Variable Frame : Type.

(** What [cv2.VideoCapture(video_path)] gives: whether the source
    opened, its [CAP_PROP_FPS], and the frames [read()] delivers before
    it first reports failure.  [read()] reports failure at the end of
    the stream and at a frame it cannot decode alike, and the function
    stops reading there. *)
Record Capture : Type := mkCapture {
  isOpened : bool;
  fps_prop : R;
  pending : list Frame
}.

Variable VideoCapture : string -> Capture.

(** Lines 58-175, the OpenCV and NumPy computation on the frames that
    were read and the frame rate: the features, or the exception that
    left one of its calls. *)
Variable analyse : R -> list Frame -> Error + GaitFeatures.t.

(** [cap.read()] *)
Definition read (cap : Capture) : option Frame * Capture :=
  match pending cap with
  | [] => (None, cap)
  | f :: rest => (Some f, mkCapture (isOpened cap) (fps_prop cap) rest)
  end.

(** The loop of lines 49-53.  Every iteration that does not leave the
    loop appends a frame, so [fuel] iterations suffice when [fuel]
    is at least [max_frames]. *)
Fixpoint read_loop (fuel : nat) (max_frames : Z) (cap : Capture)
    (frames : list Frame) : list Frame * Capture :=
  match fuel with
  | O => (frames, cap)
  | S fuel' =>
      if (Z.of_nat (length frames) <? max_frames)%Z then
        match read cap with
        | (None, cap') => (frames, cap')
        | (Some frame, cap') =>
            read_loop fuel' max_frames cap' (frames ++ [frame])
        end
      else (frames, cap)
  end.

(** [cap.get(cv2.CAP_PROP_FPS) or 30.0] *)
Definition fps_of (cap : Capture) : R :=
  if Req_dec_T (fps_prop cap) 0 then 30 else fps_prop cap.

Definition extract_gait_features (video_path : string) (max_frames : Z)
    : Error + GaitFeatures.t :=
  let cap := VideoCapture video_path in
  if negb (isOpened cap) then inl (RuntimeError "Failed to open video")
  else
    let fps := fps_of cap in
    let '(frames, _) := read_loop (Z.to_nat max_frames) max_frames cap [] in
    if (length frames <? 10)%nat then inl (RuntimeError "Too few frames")
    else analyse fps frames.

End Extract.

(** ** Invariant of the simulation loop

    After [k] trials in a field of [m]: the win, top-3 and top-5 counters
    are ordered and at most [k], and the rank sum is between [k] and
    [k * m]. *)
Definition tally_ok (m : nat) (k : Z) (a : Tally.t) : Prop :=
  (0 <= Tally.win a <= Tally.top3 a)%Z /\
  (Tally.top3 a <= Tally.top5 a <= k)%Z /\
  IZR k <= Tally.rank_sum a <= IZR k * INR m.

(** The number of entries of [l] whose key is strictly above the key of
    [x]. *)
Fixpoint count_above (key : nat -> R) (x : nat) (l : list nat) : nat :=
  match l with
  | [] => 0
  | j :: l' => ((if Rltb (key x) (key j) then 1 else 0) + count_above key x l')%nat
  end.

(** Descending order of the keys. *)
Definition desc_sorted (key : nat -> R) (l : list nat) : Prop :=
  StronglySorted (fun a b => key b <= key a) l.

(** ** Further definitions for services/scoring_v2.py *)

(** Lines 105-123 of [score_v2]: the total as a function of the
    intermediate values it is computed from. *)
Definition total_of
    (C_vid G PaddockState_ R_gait StressRisk_ M ped_score : R) : R :=
  let G_adj := clamp (G + 0.15 * (PaddockState_ - 50)) 0 100 in
  let R_adj := clamp (R_gait + 0.30 * StressRisk_) 0 100 in
  let GaitTotal_raw := clamp (G_adj - 0.35 * R_adj) 0 100 in
  let GaitTotal := GaitTotal_raw * C_vid in
  let Total_raw := 0.65 * GaitTotal + 0.20 * ped_score + 0.15 * M in
  clamp (Total_raw - 0.10 * R_adj) 0 100.

(** Line 131: the argument of the two logistic transforms. *)
Definition calib_z (Total M : R) : R :=
  Config.CAL_A0 + Config.CAL_A1 * ((Total - 60) / 8)
  + Config.CAL_A2 * ((M - 60) / 10).

(** ** services/paddock_ai_extractor.py *)

(** [extract_paddock_state_from_video]; [openai_api_key] is the value of
    the environment variable [OPENAI_API_KEY], [None] when it is not
    set.  Both branches return the default state. *)
Definition extract_paddock_state_from_video
    (openai_api_key : option string) (video_path : string)
    (thumb_path : option string) : PaddockAIState.t :=
  if negb (negb (String.eqb (strip (str_or_lit openai_api_key "")) ""))
  then PaddockAIState.default
  else PaddockAIState.default.

(** ** Further definitions for services/race_prob_model.py *)

(** The number of values of [rs] strictly above [x]. *)
Fixpoint count_gt (x : R) (rs : list R) : nat :=
  match rs with
  | [] => 0
  | r :: rs' => ((if Rltb x r then 1 else 0) + count_gt x rs')%nat
  end.

(** The ratings the simulation gives the opponents: a missing rating
    is 50. *)
Definition opponent_ratings (opp : list Entrant.t) : list R :=
  map (fun e => default 50 (Entrant.rating e)) opp.

(** The random source after [k] more draws. *)
Definition rng_advance (g : Rng.t) (k : nat) : Rng.t :=
  Rng.mk (Rng.draws g) (Rng.pos g + k).

(** ** Further definitions for services/gait_features_v2.py *)

Definition _clip01 (x : R) : R :=
  if Rltb x 0 then 0 else if Rgtb x 1 then 1 else x.

Section Quality.

(** A frame, and the two OpenCV measurements the function takes of its
    grey image: the variance of the Laplacian and the mean. *)
Variable Frame : Type.
Variable laplacian_var : Frame -> R.
Variable gray_mean : Frame -> R.

Definition estimate_quality (frame : Frame) : R * list string :=
  let issues : list string := [] in
  let fm := laplacian_var frame in
  let issues := if Rltb fm 80 then issues ++ ["blur"] else issues in
  let mean := gray_mean frame in
  let issues := if Rltb mean 60 then issues ++ ["dark"] else issues in
  let issues := if Rgtb mean 210 then issues ++ ["overexposed"] else issues in
  let blur_score := _clip01 ((fm - 40) / 200) in
  let bright_score := 1 - _clip01 (Rabs (mean - 130) / 130) in
  let score := 100 * (0.6 * blur_score + 0.4 * bright_score) in
  (score, issues).

End Quality.

(** [roi_rect], the inner function of [extract_gait_features], with the
    corners [x0, y0, x1, y1] of the analysis band it closes over. *)
Definition roi_rect (x0 y0 x1 y1 : Z) (part : string) : Z * Z * Z * Z :=
  let bh := (y1 - y0)%Z in
  if String.eqb part "head" then (x0, y0, x1, (y0 + bh / 3)%Z)
  else if String.eqb part "trunk" then
    (x0, (y0 + bh / 3)%Z, x1, (y0 + 2 * bh / 3)%Z)
  else (x0, (y0 + 2 * bh / 3)%Z, x1, y1).

(** Lines 125-126 and 160-163 of [extract_gait_features]: the wobble from
    the standard deviation of the drift, and the quality score and issues
    that leave the function, from those of the first frame. *)
Definition wobble_and_quality
    (drift_std q0 : R) (issues0 : list string) : R * R * list string :=
  let wobble := _clip01 (drift_std / 6) in
  let issues := issues0 in
  let issues := if Rgtb wobble 0.55 then issues ++ ["shake"] else issues in
  let quality_score := Rmax 0 (Rmin 100 (q0 - 30 * wobble)) in
  (wobble, quality_score, issues).

(** ** services/racecard_fetcher.py *)

Module RacecardFetcher.

(** The loop of [_uniq]: [seen] is the set and [out] the list the loop
    builds. *)
Fixpoint _uniq_loop (seq : list string) (seen : gset string)
    (out : list string) : list string :=
  match seq with
  | [] => out
  | x :: rest =>
      let x := strip x in
      if String.eqb x "" then _uniq_loop rest seen out
      else if bool_decide (x ∈ seen) then _uniq_loop rest seen out
      else _uniq_loop rest ({[x]} ∪ seen) (out ++ [x])
  end.

Definition _uniq (seq : list string) : list string := _uniq_loop seq ∅ [].

Definition _clamp (x lo hi : R) : R :=
  if Rltb x lo then lo else if Rgtb x hi then hi else x.

(** [rank] is [None] for Python's [None]. *)
Definition _rating_from_poprank (rank : option Z) (field_size : Z) : R :=
  match rank with
  | None => 50
  | Some rank =>
      if (rank =? 0)%Z || (rank <=? 0)%Z then 50
      else
        let base := 70 - 1.2 * IZR (rank - 1) in
        let base := if (16 <=? field_size)%Z then base - 2 else base in
        _clamp base 35 80
  end.

(** An entry of the [meta] dictionary. *)
Module Info.
Record t : Type := mk { popularity : option Z; odds : option R }.
(** [{}] *)
Definition empty : t := mk None None.
End Info.

(** The parsed racecard: the keys the function reads. *)
Module Parsed.
Record t : Type := mk { names : list string; meta : gmap string Info.t }.
End Parsed.

(** The rating of one name, the body of the loop of
    [build_entrants_with_ratings]. *)
Definition rating_of (info : Info.t) (field_size : Z) : R :=
  let rank_i := Info.popularity info in
  let rating := _rating_from_poprank rank_i field_size in
  match Info.odds info with
  | Some odds_f =>
      if (if Req_dec_T odds_f 0 then false else Rgtb odds_f 0) then
        let adj := 8 - 4 * Rmin 3 (Rmax 0 ((odds_f - 2) / 6)) in
        _clamp (rating + adj) 35 85
      else rating
  | None => rating
  end.

Definition build_entrants_with_ratings (parsed : option Parsed.t)
    : list Entrant.t :=
  let names := match parsed with Some p => Parsed.names p | None => [] end in
  let meta := match parsed with Some p => Parsed.meta p | None => ∅ end in
  let field_size := Z.max 1 (Z.of_nat (length names)) in
  map (fun nm =>
         let info := default Info.empty (meta !! nm) in
         Entrant.mk nm (Some (rating_of info field_size)))
      names.

End RacecardFetcher.

(** ** services/pedigree_ai_strict.py *)

(** [needle in hay] on strings. *)
Fixpoint contains (needle hay : string) : bool :=
  String.prefix needle hay ||
  match hay with
  | EmptyString => false
  | String _ hay' => contains needle hay'
  end.

Module PedigreeAIStrict.

Definition _clamp (x lo hi : R) : R :=
  if Rltb x lo then lo else if Rgtb x hi then hi else x.

Record Result : Type := mkResult {
  ok : bool;
  ped_score : R;
  ped_speed : R;
  ped_stamina : R;
  ped_surfacefit : R;
  ped_turfiness_0_1 : R;
  notes : string;
  confidence_0_1 : R
}.

Definition stamina_kw : list string :=
  ["sadler"; "galileo"; "deep impact"; "sunday silence"; "stamina"; "stay"].
Definition speed_kw : list string :=
  ["mr. prospector"; "storm cat"; "speightstown"; "danzig"; "speed";
   "sprint"; "fast"].
Definition turf_kw : list string :=
  ["turf"; "grass"; "sadler"; "galileo"; "deep impact"; "montjeu"].
Definition dirt_kw : list string :=
  ["dirt"; "mud"; "a.p. indy"; "tapit"; "smart strike"; "unbridled";
   "fappiano"].

(** [for k in kws: if k in t: v += step] *)
Definition bump (kws : list string) (t : string) (step v : R) : R :=
  fold_left (fun acc k => if contains k t then acc + step else acc) kws v.

(** [for k in kws: if k in t: v -= step] *)
Definition drop (kws : list string) (t : string) (step v : R) : R :=
  fold_left (fun acc k => if contains k t then acc - step else acc) kws v.

(** [_fallback]; [pedigree_text] is [None] for Python's [None]. *)
Definition _fallback (pedigree_text : option string) : Result :=
  let t := lower (str_or_lit pedigree_text "") in
  let stamina_hint := bump stamina_kw t 5 50 in
  let speed_hint := bump speed_kw t 5 50 in
  let turfiness := bump turf_kw t 0.05 0.5 in
  let turfiness := drop dirt_kw t 0.05 turfiness in
  let stamina_hint := _clamp stamina_hint 35 80 in
  let speed_hint := _clamp speed_hint 35 80 in
  let turfiness := _clamp turfiness 0 1 in
  let ped_score := _clamp (0.5 * speed_hint + 0.5 * stamina_hint) 0 100 in
  let ped_surfacefit := _clamp (50 + 30 * (turfiness - 0.5)) 0 100 in
  {| ok := false;
     ped_score := ped_score;
     ped_speed := speed_hint;
     ped_stamina := stamina_hint;
     ped_surfacefit := ped_surfacefit;
     ped_turfiness_0_1 := turfiness;
     notes := "OPENAI_API_KEY未設定のため、血統はヒューリスティック推定（暫定）です。";
     confidence_0_1 := 0.25 |}.

End PedigreeAIStrict.

(** ** services/video_ai_client.py *)

Module Timeouts.
Record t : Type := mk { connect : R; read : R }.
End Timeouts.


(** ** services/billing.py *)

(** The columns of the [User] model that the billing functions read
    and write. *)
Module User.
Record t : Type := mk {
  plan : string;
  quota_month : string;
  quota_used_month : Z;
  quota_used_total : Z
}.
End User.

Module Billing.

(** [plan_config()["..."]["monthly_quota"]]: a plan that is configured
    and its quota; [free_quota] is the integer read from
    [FREE_MONTHLY_QUOTA]. *)
Definition monthly_quota (free_quota : Z) (plan : string) : option Z :=
  if String.eqb plan "beta" then Some 9999%Z
  else if String.eqb plan "free" then Some free_quota
  else None.

(** [month] is [datetime.utcnow().strftime("%Y-%m")]. *)
Definition _ensure_month_rollover (month : string) (u : User.t) : User.t :=
  if negb (String.eqb (User.quota_month u) month) then
    User.mk (User.plan u) month 0 (User.quota_used_total u)
  else u.

(** The message of [can_use_feature]: ["OK"], or the text that names the
    limit. *)
Inductive Message : Type :=
| OK
| QuotaUsedUp (limit : Z).

Definition can_use_feature (free_quota : Z) (month : string) (u : User.t)
    : User.t * (bool * Message) :=
  let u := _ensure_month_rollover month u in
  let u :=
    match monthly_quota free_quota (User.plan u) with
    | None =>
        User.mk "free" (User.quota_month u) (User.quota_used_month u)
          (User.quota_used_total u)
    | Some _ => u
    end in
  let limit := default 0%Z (monthly_quota free_quota (User.plan u)) in
  if (limit <=? User.quota_used_month u)%Z
  then (u, (false, QuotaUsedUp limit))
  else (u, (true, OK)).

Definition consume_quota (month : string) (u : User.t) (n : Z) : User.t :=
  let u := _ensure_month_rollover month u in
  User.mk (User.plan u) (User.quota_month u)
    (User.quota_used_month u + n) (User.quota_used_total u + n).

(** [k] calls [consume_quota(u)] one after the other. *)
Fixpoint consume_times (month : string) (k : nat) (u : User.t) : User.t :=
  match k with
  | O => u
  | S k' => consume_quota month (consume_times month k' u) 1
  end.

End Billing.

(** No white-space character starts the sequence of bytes. *)
Definition no_space_front (back : bool) (l : list ascii) : bool :=
  match l with
  | [] => true
  | c1 :: l1 =>
      negb (is_space c1) &&
      match l1 with
      | [] => true
      | c2 :: l2 =>
          negb (if back then is_space2 c2 c1 else is_space2 c1 c2) &&
          match l2 with
          | [] => true
          | c3 :: _ =>
              negb (if back then is_space3 c3 c2 c1 else is_space3 c1 c2 c3)
          end
      end
  end.

(** ** Floats that may be NaN

    A second embedding of [score_v2] and [compute_match_M], for the
    inputs the first one leaves out: a float is a real number or NaN.
    Arithmetic with NaN gives NaN and every comparison with NaN is
    false, as in Python; on real numbers the operations are the exact
    ones of the embedding above.  No divisor in the two functions is
    zero.  Infinities and rounding error stay outside the model. *)

Module Float.

Inductive t : Type :=
| NaN
| Fin (x : R).

Definition lift1 (f : R -> R) (a : t) : t :=
  match a with
  | Fin x => Fin (f x)
  | NaN => NaN
  end.

Definition lift2 (f : R -> R -> R) (a b : t) : t :=
  match a, b with
  | Fin x, Fin y => Fin (f x y)
  | _, _ => NaN
  end.

Definition cmp (p : R -> R -> bool) (a b : t) : bool :=
  match a, b with
  | Fin x, Fin y => p x y
  | _, _ => false
  end.

Definition add : t -> t -> t := lift2 Rplus.
Definition sub : t -> t -> t := lift2 Rminus.
Definition mul : t -> t -> t := lift2 Rmult.
Definition div : t -> t -> t := lift2 Rdiv.
Definition neg : t -> t := lift1 Ropp.
(** [math.exp] *)
Definition exp : t -> t := lift1 Rtrigo_def.exp.

Definition ltb : t -> t -> bool := cmp Rltb.
Definition gtb : t -> t -> bool := cmp Rgtb.
Definition leb : t -> t -> bool := cmp Rleb.
Definition geb : t -> t -> bool := cmp Rgeb.

(** [v != v] *)
Definition is_nan (a : t) : bool :=
  match a with
  | NaN => true
  | Fin _ => false
  end.

End Float.

Coercion Float.Fin : R >-> Float.t.

Declare Scope float_scope.
Delimit Scope float_scope with fl.
Bind Scope float_scope with Float.t.
Infix "+" := Float.add : float_scope.
Infix "-" := Float.sub : float_scope.
Infix "*" := Float.mul : float_scope.
Infix "/" := Float.div : float_scope.
Notation "- x" := (Float.neg x) : float_scope.

Module Nan.

Local Open Scope float_scope.

(** *** services/scoring_v2.py *)

Definition clamp (x lo hi : Float.t) : Float.t :=
  if Float.ltb x lo then lo else if Float.gtb x hi then hi else x.

Definition sat (x a b : Float.t) : Float.t :=
  if Float.leb b a then Float.Fin 0 else clamp ((x - a) / (b - a)) 0 1.

Definition rev (u : Float.t) : Float.t := 1 - u.

Definition sigmoid (x : Float.t) : Float.t :=
  if Float.geb x 0 then
    let z := Float.exp (- x) in 1 / (1 + z)
  else
    let z := Float.exp x in z / (1 + z).

Module PaddockAIState.
Record t : Type := mk {
  T : Float.t; X : Float.t; SW : Float.t; BR : Float.t; CO : Float.t;
  F : Float.t; AiConf : Float.t
}.
End PaddockAIState.

Record ScoreResult : Type := mkScoreResult {
  item_P : Float.t; item_S : Float.t; item_W : Float.t; item_A : Float.t;
  item_V : Float.t;
  gait_G : Float.t; gait_G_adj : Float.t; gait_GaitTotal : Float.t;
  risk_R_gait : Float.t; risk_R_adj : Float.t; risk_stress_risk : Float.t;
  risk_paddock_state : Float.t;
  match_M : Float.t;
  total_Total : Float.t; total_CI : Float.t * Float.t; total_C_vid : Float.t;
  prob_PlacePct : Float.t; prob_ContendPct : Float.t;
  flag_headbob_suspect : bool;
  flag_hind_asym_suspect : bool;
  flag_fore_asym_suspect : bool
}.

Definition dict_get (d : gmap string Float.t) (key : string)
    (dflt : Float.t) : Float.t :=
  default dflt (d !! key).

(** A float on the 0..100 scale; a NaN is not. *)
Definition in_0_100 (a : Float.t) : Prop :=
  match a with
  | Float.Fin x => (0 <= x <= 100)%R
  | Float.NaN => False
  end.

Definition dict_truthy (d : option (gmap string Float.t)) : bool :=
  match d with
  | None => false
  | Some m => negb (bool_decide (dom m = ∅))
  end.

Definition score_v2
    (q pitch_hz stride_index wobble asym : Float.t)
    (speed_proxy : option Float.t)
    (roi_asym : option (gmap string Float.t))
    (headbob_ratio : option Float.t)
    (ai_state : PaddockAIState.t)
    (ped_score ped_stamina ped_surfacefit : Float.t)
    (race_match_override : option Float.t) : ScoreResult :=
  (* Confidence *)
  let C_vid := 0.65 + 0.35 * clamp (q / 100) 0 1 in
  (* Item scores *)
  let P := 100 * rev (sat pitch_hz Config.P0 Config.P1) in
  let S := 100 * sat stride_index Config.S0 Config.S1 in
  let W := 100 * rev (sat wobble Config.W0 Config.W1) in
  let A := 100 * rev (sat asym Config.A0 Config.A1) in
  let V := match speed_proxy with
           | None => Float.Fin 50
           | Some v => 100 * sat v Config.V0 Config.V1
           end in
  let G := 0.18 * P + 0.30 * S + 0.22 * W + 0.18 * A + 0.12 * V in
  (* Risk parts *)
  let rp := 100 * sat pitch_hz Config.PR0 Config.PR1 in
  let rw := 100 * sat wobble Config.WR0 Config.WR1 in
  let ra := 100 * sat asym Config.AR0 Config.AR1 in
  let rs := 100 * rev (sat stride_index Config.SR0 Config.SR1) in
  (* Clinical flags *)
  let headbob_suspect :=
    match headbob_ratio with
    | None => false
    | Some hb => Float.gtb hb Config.HB0
    end in
  let hind_asym_suspect :=
    if dict_truthy roi_asym
    then Float.gtb (dict_get (default ∅ roi_asym) "hind" 0) Config.HIND_ASYM0
    else false in
  let fore_asym_suspect :=
    if dict_truthy roi_asym
    then Float.gtb (dict_get (default ∅ roi_asym) "head" 0) Config.FORE_ASYM0
    else false in
  let R_gait0 := 0.28 * rp + 0.28 * ra + 0.22 * rw + 0.12 * rs in
  let R_gait1 := if headbob_suspect then R_gait0 + 10 else R_gait0 in
  let R_gait2 := if hind_asym_suspect then R_gait1 + 10 else R_gait1 in
  let R_gait := clamp R_gait2 0 100 in
  (* AI state integration *)
  let t := clamp (PaddockAIState.T ai_state / 100) 0 1 in
  let x := clamp (PaddockAIState.X ai_state / 100) 0 1 in
  let sw := clamp (PaddockAIState.SW ai_state / 100) 0 1 in
  let br := clamp (PaddockAIState.BR ai_state / 100) 0 1 in
  let co := clamp (PaddockAIState.CO ai_state / 100) 0 1 in
  let f := clamp (PaddockAIState.F ai_state / 100) 0 1 in
  let K_ai := 0.50 + 0.50 * clamp (PaddockAIState.AiConf ai_state) 0 1 in
  let PaddockState :=
    100 * clamp (0.30 * t + 0.25 * f + 0.30 * co + 0.15 * (1 - x)) 0 1 in
  let PaddockState_ := (1 - K_ai) * 50 + K_ai * PaddockState in
  let Stress := clamp (0.45 * x + 0.35 * sw + 0.20 * br) 0 1 in
  let StressRisk_ := 100 * K_ai * Stress in
  let G_adj := clamp (G + 0.15 * (PaddockState_ - 50)) 0 100 in
  let R_adj := clamp (R_gait + 0.30 * StressRisk_) 0 100 in
  (* Combine gait total *)
  let GaitTotal_raw := clamp (G_adj - 0.35 * R_adj) 0 100 in
  let GaitTotal := GaitTotal_raw * C_vid in
  (* Match *)
  let M := match race_match_override with
           | None =>
               let Dm := 0.5 * S + 0.5 * ped_stamina in
               let Sm := ped_surfacefit in
               let Cm := W in
               clamp (0.45 * Dm + 0.35 * Sm + 0.20 * Cm) 0 100
           | Some ov => clamp ov 0 100
           end in
  (* Total *)
  let Total_raw := 0.65 * GaitTotal + 0.20 * ped_score + 0.15 * M in
  let Total := clamp (Total_raw - 0.10 * R_adj) 0 100 in
  (* CI widens with low quality *)
  let U := 1 - clamp (q / 100) 0 1 in
  let Delta := Config.DELTA_MAX * U in
  let CI := (clamp (Total - Delta) 0 100, clamp (Total + Delta) 0 100) in
  (* Calibrated probabilities *)
  let z := Config.CAL_A0 + Config.CAL_A1 * ((Total - 60) / 8)
           + Config.CAL_A2 * ((M - 60) / 10) in
  let Place := 100 * sigmoid z * 0.55 in
  let Contend := 100 * sigmoid (z - 0.7) * 0.25 in
  {| item_P := P; item_S := S; item_W := W; item_A := A; item_V := V;
     gait_G := G; gait_G_adj := G_adj; gait_GaitTotal := GaitTotal;
     risk_R_gait := R_gait; risk_R_adj := R_adj;
     risk_stress_risk := StressRisk_;
     risk_paddock_state := PaddockState_;
     match_M := M;
     total_Total := Total; total_CI := CI; total_C_vid := C_vid;
     prob_PlacePct := Place; prob_ContendPct := Contend;
     flag_headbob_suspect := headbob_suspect;
     flag_hind_asym_suspect := hind_asym_suspect;
     flag_fore_asym_suspect := fore_asym_suspect |}.

(** *** services/race_match_v2.py *)

Definition _clamp (x lo hi : Float.t) : Float.t :=
  if Float.ltb x lo then lo else if Float.gtb x hi then hi else x.

(** [_get]: a missing key and a NaN value give the default. *)
Definition _get (d : gmap string Float.t) (key : string) (dflt : Float.t)
    : Float.t :=
  let v := default dflt (d !! key) in
  if Float.is_nan v then dflt else v.

(** [round(x, 2)]; it returns a NaN as it is. *)
Definition round2 : Float.t -> Float.t := Float.lift1 round2.

Module Race.
Record t : Type := mk {
  surface : option string;
  distance_m : option Float.t;
  turn : option string
}.
Definition empty : t := mk None None None.
End Race.

Module Pedigree.
Record t : Type := mk { scores : option (gmap string Float.t) }.
End Pedigree.

Module MatchResult.
Record t : Type := mk {
  match_0_100 : Float.t;
  dist_pref : Float.t;
  surf_pref : Float.t;
  corner_adj : Float.t;
  going_adj : Float.t;
  turn_adj : Float.t;
  surface : string;
  distance_m : Float.t;
  turn : string;
  corner : string;
  going : string
}.
End MatchResult.

Definition compute_match_M
    (gait_item_scores : gmap string Float.t)
    (pedigree : option Pedigree.t)
    (race : option Race.t)
    (track_profile : option TrackProfile.t) : MatchResult.t :=
  let race := default Race.empty race in
  let surface :=
    lower (str_or_lit
             (str_or (Race.surface race)
                     (_infer_surface_from_track track_profile))
             "unknown") in
  let dist_m := default (Float.Fin 0) (Race.distance_m race) in
  let turn :=
    lower (str_or_lit
             (str_or (Race.turn race) (_infer_turn_from_track track_profile))
             "unknown") in
  let tp := default TrackProfile.empty track_profile in
  let corner := lower (str_or_lit (TrackProfile.corner tp) "unknown") in
  let going := lower (str_or_lit (TrackProfile.going tp) "unknown") in
  (* Core gait signals (0..100) *)
  let stride := _get gait_item_scores "S" 50 in
  let pitch := _get gait_item_scores "P" 50 in
  let stability := _get gait_item_scores "W" 50 in
  let symmetry := _get gait_item_scores "A" 50 in
  let fatigue := _get gait_item_scores "F" 50 in
  let speed := _get gait_item_scores "V" 50 in
  (* The pedigree scores are read as they are. *)
  let ps : gmap string Float.t :=
    match pedigree with
    | Some p => default ∅ (Pedigree.scores p)
    | None => ∅
    end in
  let ped_speed := default (Float.Fin 50) (ps !! "speed") in
  let ped_stamina := default (Float.Fin 50) (ps !! "stamina") in
  let ped_durable := default (Float.Fin 50) (ps !! "durability") in
  (* Distance preference proxy *)
  let dist_pref : Float.t :=
    if Float.leb dist_m 0 then 50
    else if Float.leb dist_m 1400 then 0.65 * ped_speed + 0.35 * speed
    else if Float.leb dist_m 1800 then 0.45 * ped_speed + 0.55 * ped_stamina
    else 0.25 * ped_speed + 0.75 * ped_stamina in
  (* Surface suitability proxy *)
  let surf_pref : Float.t :=
    if String.eqb surface "turf" then
      0.45 * ped_speed + 0.25 * stability + 0.30 * symmetry
    else if String.eqb surface "dirt" then
      0.35 * ped_durable + 0.25 * fatigue + 0.20 * stability
      + 0.20 * symmetry
    else 0.5 * ped_durable + 0.5 * stability in
  (* Corner / turn demands *)
  let corner_adj : Float.t :=
    if str_in corner ["tight"; "small"; "小回り"] then
      0 + 0.18 * (stability - 50) + 0.10 * (symmetry - 50)
      + 0.06 * _clamp (70 - stride) (-50)%R 50
    else if str_in corner ["wide"; "large"; "大回り"] then
      0 + 0.12 * (stride - 50) + 0.06 * (stability - 50)
    else 0 in
  (* Going / footing *)
  let going_adj : Float.t :=
    if str_in going ["heavy"; "soft"; "mud"; "sloppy"; "不良"; "重"] then
      0 + 0.14 * (fatigue - 50) + 0.10 * (ped_durable - 50)
      + 0.06 * (symmetry - 50)
    else 0 in
  (* Turn direction *)
  let turn_adj : Float.t :=
    if str_in turn ["left"; "right"] && Float.ltb symmetry 45 then
      0 - (45 - symmetry) * 0.12
    else 0 in
  let base :=
    0.42 * dist_pref + 0.38 * surf_pref + 0.10 * stability
    + 0.10 * symmetry in
  let match_ := _clamp (base + corner_adj + going_adj + turn_adj) 0 100 in
  {| MatchResult.match_0_100 := round2 match_;
     MatchResult.dist_pref := round2 (_clamp dist_pref 0 100);
     MatchResult.surf_pref := round2 (_clamp surf_pref 0 100);
     MatchResult.corner_adj := round2 corner_adj;
     MatchResult.going_adj := round2 going_adj;
     MatchResult.turn_adj := round2 turn_adj;
     MatchResult.surface := surface;
     MatchResult.distance_m := dist_m;
     MatchResult.turn := turn;
     MatchResult.corner := corner;
     MatchResult.going := going |}.

End Nan.

(** *** Real-valued inputs and results as floats *)

Definition fin_state (s : PaddockAIState.t) : Nan.PaddockAIState.t :=
  Nan.PaddockAIState.mk
    (PaddockAIState.T s) (PaddockAIState.X s) (PaddockAIState.SW s)
    (PaddockAIState.BR s) (PaddockAIState.CO s) (PaddockAIState.F s)
    (PaddockAIState.AiConf s).

Definition fin_result (r : ScoreResult) : Nan.ScoreResult :=
  {| Nan.item_P := item_P r; Nan.item_S := item_S r;
     Nan.item_W := item_W r; Nan.item_A := item_A r;
     Nan.item_V := item_V r;
     Nan.gait_G := gait_G r; Nan.gait_G_adj := gait_G_adj r;
     Nan.gait_GaitTotal := gait_GaitTotal r;
     Nan.risk_R_gait := risk_R_gait r; Nan.risk_R_adj := risk_R_adj r;
     Nan.risk_stress_risk := risk_stress_risk r;
     Nan.risk_paddock_state := risk_paddock_state r;
     Nan.match_M := match_M r;
     Nan.total_Total := total_Total r;
     Nan.total_CI := (Float.Fin (fst (total_CI r)),
                      Float.Fin (snd (total_CI r)));
     Nan.total_C_vid := total_C_vid r;
     Nan.prob_PlacePct := prob_PlacePct r;
     Nan.prob_ContendPct := prob_ContendPct r;
     Nan.flag_headbob_suspect := flag_headbob_suspect r;
     Nan.flag_hind_asym_suspect := flag_hind_asym_suspect r;
     Nan.flag_fore_asym_suspect := flag_fore_asym_suspect r |}.

Definition fin_dict (m : gmap string R) : gmap string Float.t :=
  Float.Fin <$> m.

(** The entries of a dictionary of floats that [_get] does not replace
    by its default: the ones that are not NaN. *)
Definition reals_of (g : gmap string Float.t) : gmap string R :=
  omap (fun v => match v with
                 | Float.Fin x => Some x
                 | Float.NaN => None
                 end) g.

Definition fin_race (r : Race.t) : Nan.Race.t :=
  Nan.Race.mk (Race.surface r) (Float.Fin <$> Race.distance_m r)
    (Race.turn r).

Definition fin_pedigree (p : Pedigree.t) : Nan.Pedigree.t :=
  Nan.Pedigree.mk (fin_dict <$> Pedigree.scores p).

Definition fin_match (m : MatchResult.t) : Nan.MatchResult.t :=
  Nan.MatchResult.mk
    (MatchResult.match_0_100 m) (MatchResult.dist_pref m)
    (MatchResult.surf_pref m) (MatchResult.corner_adj m)
    (MatchResult.going_adj m) (MatchResult.turn_adj m)
    (MatchResult.surface m) (MatchResult.distance_m m)
    (MatchResult.turn m) (MatchResult.corner m) (MatchResult.going m).

(** ** Facts about the numeric helpers *)

Section Helpers.

Lemma Rltb_true x y : x < y -> Rltb x y = true.
Proof. intros H. unfold Rltb. destruct (Rlt_dec x y); [reflexivity | lra]. Qed.

Lemma Rltb_false x y : y <= x -> Rltb x y = false.
Proof. intros H. unfold Rltb. destruct (Rlt_dec x y); [lra | reflexivity]. Qed.

Lemma Rgtb_true x y : y < x -> Rgtb x y = true.
Proof. intros H. unfold Rgtb. destruct (Rgt_dec x y); [reflexivity | lra]. Qed.

Lemma Rgtb_false x y : x <= y -> Rgtb x y = false.
Proof. intros H. unfold Rgtb. destruct (Rgt_dec x y); [lra | reflexivity]. Qed.

Lemma Rleb_true x y : x <= y -> Rleb x y = true.
Proof. intros H. unfold Rleb. destruct (Rle_dec x y); [reflexivity | lra]. Qed.

Lemma Rleb_false x y : y < x -> Rleb x y = false.
Proof. intros H. unfold Rleb. destruct (Rle_dec x y); [lra | reflexivity]. Qed.

Lemma Rgeb_true x y : y <= x -> Rgeb x y = true.
Proof. intros H. unfold Rgeb. destruct (Rge_dec x y); [reflexivity | lra]. Qed.

Lemma Rgeb_false x y : x < y -> Rgeb x y = false.
Proof. intros H. unfold Rgeb. destruct (Rge_dec x y); [lra | reflexivity]. Qed.

Lemma clamp_low x lo hi : x < lo -> clamp x lo hi = lo.
Proof. intros H. unfold clamp. now rewrite Rltb_true. Qed.

Lemma clamp_high x lo hi : lo <= x -> hi < x -> clamp x lo hi = hi.
Proof.
  intros H1 H2. unfold clamp.
  rewrite Rltb_false by assumption. now rewrite Rgtb_true.
Qed.

Lemma clamp_mid x lo hi : lo <= x <= hi -> clamp x lo hi = x.
Proof.
  intros [H1 H2]. unfold clamp.
  rewrite Rltb_false by assumption. now rewrite Rgtb_false.
Qed.

Lemma clamp_cases x lo hi :
  (x < lo /\ clamp x lo hi = lo) \/
  (lo <= x /\ hi < x /\ clamp x lo hi = hi) \/
  (lo <= x <= hi /\ clamp x lo hi = x).
Proof.
  destruct (Rlt_dec x lo) as [H|H].
  - left. split; [assumption | now apply clamp_low].
  - destruct (Rlt_dec hi x) as [H'|H'].
    + right. left. repeat split; [lra | assumption | apply clamp_high; lra].
    + right. right. split; [lra | apply clamp_mid; lra].
Qed.

Lemma clamp_range x lo hi : lo <= hi -> lo <= clamp x lo hi <= hi.
Proof. intros H. destruct (clamp_cases x lo hi) as [?|[?|?]]; lra. Qed.

Lemma clamp_mono x y lo hi :
  lo <= hi -> x <= y -> clamp x lo hi <= clamp y lo hi.
Proof.
  intros H Hxy.
  destruct (clamp_cases x lo hi) as [?|[?|?]];
    destruct (clamp_cases y lo hi) as [?|[?|?]]; lra.
Qed.

Lemma sat_range x a b : 0 <= sat x a b <= 1.
Proof.
  unfold sat. destruct (Rleb b a); [lra | apply clamp_range; lra].
Qed.

Lemma sigmoid_range x : 0 < sigmoid x < 1.
Proof.
  unfold sigmoid. destruct (Rgeb x 0); cbv zeta.
  - pose proof (exp_pos (- x)) as Hp.
    assert (Hi : 0 < / (1 + exp (- x))) by (apply Rinv_0_lt_compat; lra).
    split; [lra |].
    apply (Rmult_lt_reg_r (1 + exp (- x))); [lra |].
    unfold Rdiv. rewrite Rmult_assoc, Rinv_l by lra. lra.
  - pose proof (exp_pos x) as Hp.
    assert (Hi : 0 < / (1 + exp x)) by (apply Rinv_0_lt_compat; lra).
    split; [unfold Rdiv; apply Rmult_lt_0_compat; assumption |].
    apply (Rmult_lt_reg_r (1 + exp x)); [lra |].
    unfold Rdiv. rewrite Rmult_assoc, Rinv_l by lra. lra.
Qed.

End Helpers.

(** Unfolds [score_v2] and the projections of its result. *)
Ltac unfold_score :=
  cbv beta iota zeta delta
    [score_v2 item_P item_S item_W item_A item_V
     gait_G gait_G_adj gait_GaitTotal
     risk_R_gait risk_R_adj risk_stress_risk risk_paddock_state
     match_M total_Total total_CI total_C_vid
     prob_PlacePct prob_ContendPct
     flag_headbob_suspect flag_hind_asym_suspect flag_fore_asym_suspect
     fst snd].

(** Abstracts every [clamp], [sat] and [sigmoid] term of the goal, keeping
    its range. *)
Ltac bound_terms :=
  repeat match goal with
  | |- context [clamp ?x 0 ?hi] =>
      let c := fresh "c" in let H := fresh "Hc" in
      pose proof (clamp_range x 0 hi ltac:(lra)) as H;
      set (c := clamp x 0 hi) in *; clearbody c
  | |- context [sat ?x ?a ?b] =>
      let c := fresh "s" in let H := fresh "Hs" in
      pose proof (sat_range x a b) as H;
      set (c := sat x a b) in *; clearbody c
  | |- context [sigmoid ?x] =>
      let c := fresh "g" in let H := fresh "Hg" in
      pose proof (sigmoid_range x) as H;
      set (c := sigmoid x) in *; clearbody c
  end.

(** Decides the comparisons of a closed term, innermost first. *)
Ltac eval_cmp_step :=
  match goal with
  | |- context [Rltb ?x ?y] =>
      first [rewrite (Rltb_true x y) by lra | rewrite (Rltb_false x y) by lra]
  | |- context [Rgtb ?x ?y] =>
      first [rewrite (Rgtb_true x y) by lra | rewrite (Rgtb_false x y) by lra]
  | |- context [Rleb ?x ?y] =>
      first [rewrite (Rleb_true x y) by lra | rewrite (Rleb_false x y) by lra]
  | |- context [Rgeb ?x ?y] =>
      first [rewrite (Rgeb_true x y) by lra | rewrite (Rgeb_false x y) by lra]
  end.

Ltac eval_cmp := repeat eval_cmp_step.

(** Evaluates the [clamp] terms of a closed term, innermost first, without
    unfolding them. *)
Ltac eval_clamp_step :=
  match goal with
  | |- context [clamp ?x ?lo ?hi] =>
      first [rewrite (clamp_mid x lo hi) by lra
            | rewrite (clamp_low x lo hi) by lra
            | rewrite (clamp_high x lo hi) by lra]
  end.

Ltac eval_score :=
  unfold_score;
  unfold sat, rev, PaddockAIState.default, Config.P0, Config.P1,
    Config.S0, Config.S1, Config.W0, Config.W1, Config.A0, Config.A1,
    Config.PR0, Config.PR1, Config.SR0, Config.SR1, Config.WR0,
    Config.WR1, Config.AR0, Config.AR1, Config.V0, Config.V1,
    Config.DELTA_MAX;
  cbn [PaddockAIState.T PaddockAIState.X PaddockAIState.SW
       PaddockAIState.BR PaddockAIState.CO PaddockAIState.F
       PaddockAIState.AiConf dict_truthy];
  eval_cmp; repeat eval_clamp_step.

Section Scoring.

Variables q pitch_hz stride_index wobble asym : R.
Variable speed_proxy : option R.
Variable roi_asym : option (gmap string R).
Variable headbob_ratio : option R.
Variable ai_state : PaddockAIState.t.
Variables ped_score ped_stamina ped_surfacefit : R.
Variable race_match_override : option R.

Let r := score_v2 q pitch_hz stride_index wobble asym speed_proxy roi_asym
           headbob_ratio ai_state ped_score ped_stamina ped_surfacefit
           race_match_override.

(** C2.  The total is the clamped weighted sum of the gait total, the
    pedigree score and the match, less a tenth of the adjusted risk, all
    taken from the same result. *)
Theorem score_v2_total_formula :
  total_Total r =
  clamp (0.65 * gait_GaitTotal r + 0.20 * ped_score + 0.15 * match_M r
         - 0.10 * risk_R_adj r) 0 100.
Proof. reflexivity. Qed.

Lemma item_scores_range :
  in_0_100 (item_P r) /\ in_0_100 (item_S r) /\ in_0_100 (item_W r) /\
  in_0_100 (item_A r) /\ in_0_100 (item_V r).
Proof.
  unfold in_0_100, r. unfold_score. unfold rev.
  destruct speed_proxy; bound_terms; repeat split; lra.
Qed.

Lemma gait_G_range : in_0_100 (gait_G r).
Proof.
  unfold in_0_100, r. unfold_score. unfold rev.
  destruct speed_proxy; bound_terms; lra.
Qed.

Lemma C_vid_range : 0.65 <= total_C_vid r <= 1.
Proof. unfold r. unfold_score. bound_terms. lra. Qed.

Lemma gait_GaitTotal_range : in_0_100 (gait_GaitTotal r).
Proof. unfold in_0_100, r. unfold_score. bound_terms. nra. Qed.

Lemma risk_range :
  in_0_100 (risk_R_gait r) /\ in_0_100 (risk_R_adj r) /\
  in_0_100 (risk_stress_risk r) /\ in_0_100 (risk_paddock_state r).
Proof.
  unfold in_0_100, r. unfold_score.
  split; [apply clamp_range; lra |].
  split; [apply clamp_range; lra |].
  bound_terms. split; nra.
Qed.

Lemma match_M_range : in_0_100 (match_M r).
Proof.
  unfold in_0_100, r. unfold_score.
  destruct race_match_override; apply clamp_range; lra.
Qed.

Lemma total_Total_range : in_0_100 (total_Total r).
Proof. unfold in_0_100, r. unfold_score. apply clamp_range; lra. Qed.

Lemma ci_half_width_range : 0 <= ci_half_width q <= 18.
Proof. unfold ci_half_width, Config.DELTA_MAX. bound_terms. lra. Qed.

(** The interval is the total plus and minus [Delta], clamped. *)
Lemma total_CI_eq :
  total_CI r =
  (clamp (total_Total r - ci_half_width q) 0 100,
   clamp (total_Total r + ci_half_width q) 0 100).
Proof. reflexivity. Qed.

Lemma total_CI_range :
  in_0_100 (fst (total_CI r)) /\ in_0_100 (snd (total_CI r)) /\
  fst (total_CI r) <= total_Total r <= snd (total_CI r).
Proof.
  rewrite total_CI_eq. cbn [fst snd].
  pose proof total_Total_range as Ht. pose proof ci_half_width_range as Hd.
  unfold in_0_100 in *.
  set (t := total_Total r) in *. set (d := ci_half_width q) in *.
  clearbody t d.
  destruct (clamp_cases (t - d) 0 100) as [?|[?|?]];
    destruct (clamp_cases (t + d) 0 100) as [?|[?|?]]; lra.
Qed.

Lemma prob_range :
  in_0_100 (prob_PlacePct r) /\ in_0_100 (prob_ContendPct r).
Proof.
  unfold in_0_100, r. unfold_score.
  split.
  - match goal with |- context [sigmoid ?x] =>
      pose proof (sigmoid_range x); set (g := sigmoid x) in *; clearbody g
    end. lra.
  - match goal with |- context [sigmoid ?x] =>
      pose proof (sigmoid_range x); set (g := sigmoid x) in *; clearbody g
    end. lra.
Qed.

(** The part of C3 that holds: for real-valued inputs every field of
    the result on the 0..100 scale lies in [0,100], the item scores,
    the gait and risk composites, the match, the total, both ends of
    the confidence interval and the two probability percentages; and
    the interval contains the total. *)
Theorem score_v2_fields_in_range :
  (in_0_100 (item_P r) /\ in_0_100 (item_S r) /\ in_0_100 (item_W r) /\
   in_0_100 (item_A r) /\ in_0_100 (item_V r)) /\
  (in_0_100 (gait_G r) /\ in_0_100 (gait_G_adj r) /\
   in_0_100 (gait_GaitTotal r)) /\
  (in_0_100 (risk_R_gait r) /\ in_0_100 (risk_R_adj r) /\
   in_0_100 (risk_stress_risk r) /\ in_0_100 (risk_paddock_state r)) /\
  in_0_100 (match_M r) /\
  in_0_100 (total_Total r) /\
  (in_0_100 (fst (total_CI r)) /\ in_0_100 (snd (total_CI r))) /\
  (in_0_100 (prob_PlacePct r) /\ in_0_100 (prob_ContendPct r)) /\
  fst (total_CI r) <= total_Total r <= snd (total_CI r).
Proof.
  pose proof total_CI_range as (Hlo & Hhi & Hord).
  split; [exact item_scores_range |].
  split.
  { split; [exact gait_G_range |].
    split; [| exact gait_GaitTotal_range].
    unfold in_0_100, r. unfold_score. apply clamp_range; lra. }
  split; [exact risk_range |].
  split; [exact match_M_range |].
  split; [exact total_Total_range |].
  split; [split; assumption |].
  split; [exact prob_range | exact Hord].
Qed.

(** The stress risk is the stress blend times [100 * K_ai], where
    [K_ai] is a half plus half the clamped confidence. *)
Lemma stress_risk_eq :
  risk_stress_risk r =
  100 * (0.50 + 0.50 * clamp (PaddockAIState.AiConf ai_state) 0 1)
  * stress_blend ai_state.
Proof. reflexivity. Qed.

End Scoring.

(** C6, as the code has it.  The stress risk is [100 * K_ai * Stress] with
    [K_ai = 0.5 + 0.5 * clamp(ai_confidence, 0, 1)] and [Stress] the
    clamped blend [0.45 x + 0.35 sw + 0.20 br] of the scaled axes.  So it
    is [50 * Stress + 50 * Stress * clamp(ai_confidence, 0, 1)]: affine in
    the clamped confidence with slope and intercept both [50 * Stress];
    at confidence 0 it is [50 * Stress] and at confidence 1 it is
    [100 * Stress]. *)
Theorem stress_risk_affine_in_confidence :
  forall q pitch_hz stride_index wobble asym speed_proxy roi_asym
         headbob_ratio ped_score ped_stamina ped_surfacefit
         race_match_override T X SW BR CO F,
    let stress :=
      clamp (0.45 * clamp (X / 100) 0 1 + 0.35 * clamp (SW / 100) 0 1
             + 0.20 * clamp (BR / 100) 0 1) 0 1 in
    let res c :=
      risk_stress_risk
        (score_v2 q pitch_hz stride_index wobble asym speed_proxy roi_asym
           headbob_ratio (PaddockAIState.mk T X SW BR CO F c)
           ped_score ped_stamina ped_surfacefit race_match_override) in
    (forall c, res c = 100 * (0.50 + 0.50 * clamp c 0 1) * stress) /\
    (forall c, res c = 50 * stress + 50 * stress * clamp c 0 1) /\
    res 0 = 50 * stress /\
    res 1 = 100 * stress.
Proof.
  intros.
  assert (E : forall c, res c = 100 * (0.50 + 0.50 * clamp c 0 1) * stress).
  { intros c. subst res. cbv beta. rewrite stress_risk_eq. reflexivity. }
  split; [exact E |].
  split; [intros c; rewrite E; lra |].
  split; rewrite E; rewrite clamp_mid by lra; lra.
Qed.

(** C6 as stated fails: at confidence 0 with the default axes the stress
    risk is 25, not 0. *)
Lemma stress_risk_zero_confidence_counterexample :
  let ai := PaddockAIState.mk 50 50 50 50 50 50 0 in
  PaddockAIState.AiConf ai = 0 /\
  risk_stress_risk
    (score_v2 80 2.0 0.55 0.20 0.08 None None None ai 55 50 50 (Some 60))
  = 25 /\
  risk_stress_risk
    (score_v2 80 2.0 0.55 0.20 0.08 None None None ai 55 50 50 (Some 60))
  <> 0.
Proof.
  cbv zeta. split; [reflexivity |].
  assert (E : risk_stress_risk
    (score_v2 80 2.0 0.55 0.20 0.08 None None None
       (PaddockAIState.mk 50 50 50 50 50 50 0) 55 50 50 (Some 60)) = 25).
  { rewrite stress_risk_eq. unfold stress_blend.
    cbn [PaddockAIState.AiConf PaddockAIState.X PaddockAIState.SW
         PaddockAIState.BR].
    repeat eval_clamp_step. lra. }
  split; [exact E | rewrite E; lra].
Qed.

(** Two dictionaries that agree away from the key ["head"] give the same
    hind-asymmetry flag. *)
Lemma hind_flag_agree (m1 m2 : option (gmap string R)) :
  (forall k : string,
     k <> "head" -> (default ∅ m1) !! k = (default ∅ m2) !! k) ->
  (if dict_truthy m1
   then Rgtb (dict_get (default ∅ m1) "hind" 0) Config.HIND_ASYM0
   else false) =
  (if dict_truthy m2
   then Rgtb (dict_get (default ∅ m2) "hind" 0) Config.HIND_ASYM0
   else false).
Proof.
  intros Hagree.
  assert (Hh : dict_get (default ∅ m1) "hind" 0
               = dict_get (default ∅ m2) "hind" 0).
  { unfold dict_get. rewrite (Hagree "hind") by discriminate. reflexivity. }
  assert (Hempty : forall m : option (gmap string R),
             dict_truthy m = false ->
             Rgtb (dict_get (default ∅ m) "hind" 0) Config.HIND_ASYM0 = false).
  { intros m Hm.
    assert (Hl : default ∅ m !! "hind" = None).
    { destruct m as [m|]; cbn in *; [| apply lookup_empty].
      apply negb_false_iff, bool_decide_eq_true in Hm.
      apply not_elem_of_dom. rewrite Hm. apply not_elem_of_empty. }
    unfold dict_get. rewrite Hl. cbn.
    apply Rgtb_false. unfold Config.HIND_ASYM0. lra. }
  destruct (dict_truthy m1) eqn:E1, (dict_truthy m2) eqn:E2.
  - now rewrite Hh.
  - rewrite Hh. now apply Hempty.
  - rewrite <- Hh. symmetry. now apply Hempty.
  - reflexivity.
Qed.

(** C10.  Two calls whose [roi_asym] dictionaries agree on every key but
    ["head"], all other arguments equal, return the same numeric fields
    and the same head-bob and hind-asymmetry flags: the head-region
    asymmetry reaches only [fore_asym_suspect]. *)
Theorem score_v2_head_asym_only_fore_flag :
  forall q pitch_hz stride_index wobble asym speed_proxy
         (m1 m2 : gmap string R)
         headbob_ratio ai_state ped_score ped_stamina ped_surfacefit
         race_match_override,
    (forall k : string, k <> "head" -> m1 !! k = m2 !! k) ->
    let r1 := score_v2 q pitch_hz stride_index wobble asym speed_proxy
                (Some m1) headbob_ratio ai_state ped_score ped_stamina
                ped_surfacefit race_match_override in
    let r2 := score_v2 q pitch_hz stride_index wobble asym speed_proxy
                (Some m2) headbob_ratio ai_state ped_score ped_stamina
                ped_surfacefit race_match_override in
    item_P r1 = item_P r2 /\ item_S r1 = item_S r2 /\
    item_W r1 = item_W r2 /\ item_A r1 = item_A r2 /\
    item_V r1 = item_V r2 /\
    gait_G r1 = gait_G r2 /\ gait_G_adj r1 = gait_G_adj r2 /\
    gait_GaitTotal r1 = gait_GaitTotal r2 /\
    risk_R_gait r1 = risk_R_gait r2 /\ risk_R_adj r1 = risk_R_adj r2 /\
    risk_stress_risk r1 = risk_stress_risk r2 /\
    risk_paddock_state r1 = risk_paddock_state r2 /\
    match_M r1 = match_M r2 /\
    total_Total r1 = total_Total r2 /\ total_CI r1 = total_CI r2 /\
    total_C_vid r1 = total_C_vid r2 /\
    prob_PlacePct r1 = prob_PlacePct r2 /\
    prob_ContendPct r1 = prob_ContendPct r2 /\
    flag_headbob_suspect r1 = flag_headbob_suspect r2 /\
    flag_hind_asym_suspect r1 = flag_hind_asym_suspect r2.
Proof.
  intros * Hagree r1 r2. subst r1 r2. unfold_score.
  rewrite (hind_flag_agree (Some m1) (Some m2)) by exact Hagree.
  repeat split; reflexivity.
Qed.

(** An instance of C10: the head value moves from 0.05 to 0.90 next to a
    hind value of 0.20. *)
Lemma score_v2_head_asym_only_fore_flag_witness :
  let m1 : gmap string R := <["head" := 0.05]> (<["hind" := 0.20]> ∅) in
  let m2 : gmap string R := <["head" := 0.90]> (<["hind" := 0.20]> ∅) in
  let r1 := score_v2 80 2.0 0.55 0.20 0.08 None (Some m1) None
              PaddockAIState.default 55 50 50 (Some 60) in
  let r2 := score_v2 80 2.0 0.55 0.20 0.08 None (Some m2) None
              PaddockAIState.default 55 50 50 (Some 60) in
  (forall k : string, k <> "head" -> m1 !! k = m2 !! k) /\
  risk_R_gait r1 = risk_R_gait r2 /\
  total_Total r1 = total_Total r2 /\
  prob_PlacePct r1 = prob_PlacePct r2.
Proof.
  intros m1 m2 r1 r2.
  assert (Hagree : forall k : string, k <> "head" -> m1 !! k = m2 !! k).
  { intros k Hk. unfold m1, m2.
    rewrite !(lookup_insert_ne _ "head" k) by (intros E; apply Hk; now symmetry).
    reflexivity. }
  split; [exact Hagree |].
  pose proof (score_v2_head_asym_only_fore_flag 80 2.0 0.55 0.20 0.08 None
                m1 m2 None PaddockAIState.default 55 50 50 (Some 60) Hagree)
    as H.
  cbv zeta in H. fold r1 r2 in H.
  repeat split; apply H.
Defined.




(** ** Rounding *)

Section Rounding.

Lemma Int_part_bounds y : IZR (Int_part y) <= y < IZR (Int_part y) + 1.
Proof. pose proof (base_Int_part y). lra. Qed.

Lemma Int_part_IZR z : Int_part (IZR z) = z.
Proof. symmetry. apply Int_part_spec. lra. Qed.

Lemma Int_part_mono y1 y2 : y1 <= y2 -> (Int_part y1 <= Int_part y2)%Z.
Proof.
  intros H.
  pose proof (Int_part_bounds y1). pose proof (Int_part_bounds y2).
  apply Z.lt_succ_r, lt_IZR. rewrite succ_IZR. lra.
Qed.

Lemma round_half_even_cases y :
  round_half_even y = Int_part y \/
  round_half_even y = (Int_part y + 1)%Z.
Proof.
  unfold round_half_even. cbv zeta.
  destruct (Rltb _ _); [now left |].
  destruct (Rgtb _ _); [now right |].
  destruct (Z.even _); [now left | now right].
Qed.

Lemma round_half_even_IZR z : round_half_even (IZR z) = z.
Proof.
  unfold round_half_even. cbv zeta. rewrite Int_part_IZR.
  rewrite Rltb_true by lra. reflexivity.
Qed.

Lemma round_half_even_mono y1 y2 :
  y1 <= y2 -> (round_half_even y1 <= round_half_even y2)%Z.
Proof.
  intros H. pose proof (Int_part_mono y1 y2 H) as Hn.
  destruct (Z.eq_dec (Int_part y1) (Int_part y2)) as [E|E].
  - unfold round_half_even. cbv zeta. rewrite E.
    unfold Rltb, Rgtb.
    repeat match goal with
           | |- context [Rlt_dec ?a ?b] => destruct (Rlt_dec a b)
           | |- context [Rgt_dec ?a ?b] => destruct (Rgt_dec a b)
           end;
      destruct (Z.even (Int_part y2)); first [lia | exfalso; lra].
  - destruct (round_half_even_cases y1) as [-> | ->],
      (round_half_even_cases y2) as [-> | ->]; lia.
Qed.

Lemma round2_mono x y : x <= y -> round2 x <= round2 y.
Proof.
  intros H. unfold round2.
  assert (Hz : (round_half_even (x * 100) <= round_half_even (y * 100))%Z)
    by (apply round_half_even_mono; lra).
  apply IZR_le in Hz. lra.
Qed.

(** A value with at most two decimals is its own rounding. *)
Lemma round2_exact z : round2 (IZR z / 100) = IZR z / 100.
Proof.
  unfold round2. replace (IZR z / 100 * 100) with (IZR z) by lra.
  now rewrite round_half_even_IZR.
Qed.

Lemma round2_range x : 0 <= x <= 100 -> 0 <= round2 x <= 100.
Proof.
  intros [H0 H1].
  pose proof (round2_mono 0 x H0) as Hlo.
  pose proof (round2_mono x 100 H1) as Hhi.
  assert (E0 : round2 0 = 0).
  { pose proof (round2_exact 0) as E.
    replace (IZR 0 / 100) with 0 in E by lra. exact E. }
  assert (E1 : round2 100 = 100).
  { pose proof (round2_exact 10000) as E.
    replace (IZR 10000 / 100) with 100 in E by lra. exact E. }
  lra.
Qed.

End Rounding.

(** ** The race match *)

Section Match.

Lemma _clamp_cases x lo hi :
  (x < lo /\ _clamp x lo hi = lo) \/
  (lo <= x /\ hi < x /\ _clamp x lo hi = hi) \/
  (lo <= x <= hi /\ _clamp x lo hi = x).
Proof. exact (clamp_cases x lo hi). Qed.

Lemma _clamp_range x lo hi : lo <= hi -> lo <= _clamp x lo hi <= hi.
Proof. exact (clamp_range x lo hi). Qed.

Lemma _clamp_mono x y lo hi :
  lo <= hi -> x <= y -> _clamp x lo hi <= _clamp y lo hi.
Proof. exact (clamp_mono x y lo hi). Qed.

Lemma surf_pref_of_mono surface ped_speed ped_durable fatigue w1 w2 a1 a2 :
  w1 <= w2 -> a1 <= a2 ->
  surf_pref_of surface ped_speed ped_durable fatigue w1 a1
  <= surf_pref_of surface ped_speed ped_durable fatigue w2 a2.
Proof.
  intros Hw Ha. unfold surf_pref_of.
  destruct (String.eqb _ _); [lra |]. destruct (String.eqb _ _); lra.
Qed.

Lemma corner_adj_of_mono corner stride w1 w2 a1 a2 :
  w1 <= w2 -> a1 <= a2 ->
  corner_adj_of corner stride w1 a1 <= corner_adj_of corner stride w2 a2.
Proof.
  intros Hw Ha. unfold corner_adj_of.
  destruct (str_in _ _); [lra |]. destruct (str_in _ _); lra.
Qed.

Lemma going_adj_of_mono going fatigue ped_durable a1 a2 :
  a1 <= a2 ->
  going_adj_of going fatigue ped_durable a1
  <= going_adj_of going fatigue ped_durable a2.
Proof. intros Ha. unfold going_adj_of. destruct (str_in _ _); lra. Qed.

Lemma turn_adj_of_mono turn a1 a2 :
  a1 <= a2 -> turn_adj_of turn a1 <= turn_adj_of turn a2.
Proof.
  intros Ha. unfold turn_adj_of, Rltb.
  destruct (str_in _ _); cbn [andb]; [| lra].
  destruct (Rlt_dec a1 45), (Rlt_dec a2 45); lra.
Qed.

Lemma _get_insert_eq (g : gmap string R) k v d :
  _get (<[k := v]> g) k d = v.
Proof. unfold _get. now rewrite lookup_insert_eq. Qed.

Lemma _get_insert_ne (g : gmap string R) k k' v d :
  k <> k' -> _get (<[k := v]> g) k' d = _get g k' d.
Proof. intros H. unfold _get. now rewrite lookup_insert_ne. Qed.

(** The match does not decrease when the stability score ["W"] and the
    symmetry score ["A"] do not, whatever the race and the track. *)
Lemma compute_match_M_mono g pedigree race track_profile w1 w2 a1 a2 :
  w1 <= w2 -> a1 <= a2 ->
  MatchResult.match_0_100
    (compute_match_M (<["W" := w1]> (<["A" := a1]> g)) pedigree race
       track_profile)
  <= MatchResult.match_0_100
       (compute_match_M (<["W" := w2]> (<["A" := a2]> g)) pedigree race
          track_profile).
Proof.
  intros Hw Ha. unfold compute_match_M. cbn [MatchResult.match_0_100].
  cbv zeta.
  rewrite !_get_insert_eq.
  rewrite !(_get_insert_ne _ "W" "A") by discriminate.
  rewrite !_get_insert_eq.
  rewrite !(_get_insert_ne _ "W" "S"), !(_get_insert_ne _ "A" "S")
    by discriminate.
  rewrite !(_get_insert_ne _ "W" "F"), !(_get_insert_ne _ "A" "F")
    by discriminate.
  rewrite !(_get_insert_ne _ "W" "V"), !(_get_insert_ne _ "A" "V")
    by discriminate.
  apply round2_mono, _clamp_mono; [lra |].
  match goal with
  | |- context [surf_pref_of ?s ?p ?d ?f w1 a1] =>
      pose proof (surf_pref_of_mono s p d f w1 w2 a1 a2 Hw Ha)
  end.
  match goal with
  | |- context [corner_adj_of ?c ?s w1 a1] =>
      pose proof (corner_adj_of_mono c s w1 w2 a1 a2 Hw Ha)
  end.
  match goal with
  | |- context [going_adj_of ?c ?f ?d a1] =>
      pose proof (going_adj_of_mono c f d a1 a2 Ha)
  end.
  match goal with
  | |- context [turn_adj_of ?t a1] =>
      pose proof (turn_adj_of_mono t a1 a2 Ha)
  end.
  lra.
Qed.

Lemma compute_match_M_range g pedigree race track_profile :
  in_0_100
    (MatchResult.match_0_100 (compute_match_M g pedigree race track_profile)).
Proof.
  unfold compute_match_M. cbn [MatchResult.match_0_100]. cbv zeta.
  apply round2_range, _clamp_range. lra.
Qed.

End Match.

(** The part of C4 that holds, for real-valued scores: on a track whose
    corner is ["tight"], with the race, the pedigree and the other item
    scores fixed, raising the stability score ["W"] or the symmetry score
    ["A"] (or both) does not lower the match, and the match lies in
    [0,100]. *)
Theorem compute_match_M_tight_corner_monotone :
  forall (g : gmap string R) pedigree race tp w1 w2 a1 a2,
    TrackProfile.corner tp = Some "tight" ->
    w1 <= w2 -> a1 <= a2 ->
    let m1 := compute_match_M (<["W" := w1]> (<["A" := a1]> g)) pedigree
                race (Some tp) in
    let m2 := compute_match_M (<["W" := w2]> (<["A" := a2]> g)) pedigree
                race (Some tp) in
    MatchResult.corner m1 = "tight" /\
    MatchResult.corner m2 = "tight" /\
    MatchResult.match_0_100 m1 <= MatchResult.match_0_100 m2 /\
    in_0_100 (MatchResult.match_0_100 m1) /\
    in_0_100 (MatchResult.match_0_100 m2).
Proof.
  intros * Hc Hw Ha m1 m2.
  assert (Hcorner : forall g', MatchResult.corner
            (compute_match_M g' pedigree race (Some tp)) = "tight").
  { intros g'. unfold compute_match_M. cbn [MatchResult.corner]. cbv zeta.
    cbn [from_option Datatypes.id]. rewrite Hc. reflexivity. }
  split; [apply Hcorner |]. split; [apply Hcorner |].
  split; [now apply compute_match_M_mono |].
  split; apply compute_match_M_range.
Qed.

(** An instance: stability from 40 to 60 and symmetry from 30 to 70 on a
    tight track. *)
Lemma compute_match_M_tight_corner_monotone_witness :
  let tp := TrackProfile.mk None None (Some "tight") None in
  let m1 := compute_match_M (<["W" := 40]> (<["A" := 30]> ∅)) None None
              (Some tp) in
  let m2 := compute_match_M (<["W" := 60]> (<["A" := 70]> ∅)) None None
              (Some tp) in
  (TrackProfile.corner tp = Some "tight" /\ 40 <= 60 /\ 30 <= 70) /\
  MatchResult.corner m1 = "tight" /\
  MatchResult.match_0_100 m1 <= MatchResult.match_0_100 m2 /\
  in_0_100 (MatchResult.match_0_100 m1).
Proof.
  intros tp m1 m2.
  assert (Hc : TrackProfile.corner tp = Some "tight") by reflexivity.
  assert (Hw : 40 <= 60) by lra.
  assert (Ha : 30 <= 70) by lra.
  pose proof (compute_match_M_tight_corner_monotone ∅ None None tp
                40 60 30 70 Hc Hw Ha) as H.
  cbv zeta in H. fold m1 m2 in H.
  destruct H as (H1 & _ & H3 & H4 & _).
  split; [split; [exact Hc | split; [exact Hw | exact Ha]] |].
  split; [exact H1 |]. split; [exact H3 | exact H4].
Defined.

(** The distance-preference component of the result is the rounded,
    clamped value of [dist_pref_of]. *)
Lemma compute_match_M_dist_pref g sc sfc d trn track_profile :
  MatchResult.dist_pref
    (compute_match_M g (Some (Pedigree.mk (Some sc)))
       (Some (Race.mk sfc (Some d) trn)) track_profile)
  = round2 (_clamp (dist_pref_of d (default 50 (sc !! "speed"))
                      (default 50 (sc !! "stamina")) (_get g "V" 50))
              0 100).
Proof. reflexivity. Qed.

(** C5, as the code has it.  The distance-preference component is the
    rounded, clamped value of a piecewise blend: the neutral 50 for a
    distance of at most 0 (an absent distance counts as 0);
    [0.65 ped_speed + 0.35 speed] up to 1400 m;
    [0.45 ped_speed + 0.55 ped_stamina] above 1400 m and up to 1800 m;
    [0.25 ped_speed + 0.75 ped_stamina] above 1800 m. *)
Theorem compute_match_M_dist_pref_piecewise :
  forall (g sc : gmap string R) sfc trn track_profile,
    let ped_speed := default 50 (sc !! "speed") in
    let ped_stamina := default 50 (sc !! "stamina") in
    let speed := _get g "V" 50 in
    let res d :=
      MatchResult.dist_pref
        (compute_match_M g (Some (Pedigree.mk (Some sc)))
           (Some (Race.mk sfc (Some d) trn)) track_profile) in
    MatchResult.dist_pref
      (compute_match_M g (Some (Pedigree.mk (Some sc)))
         (Some (Race.mk sfc None trn)) track_profile) = 50 /\
    (forall d, d <= 0 -> res d = 50) /\
    (forall d, 0 < d -> d <= 1400 ->
       res d = round2 (_clamp (0.65 * ped_speed + 0.35 * speed) 0 100)) /\
    (forall d, 1400 < d -> d <= 1800 ->
       res d = round2 (_clamp (0.45 * ped_speed + 0.55 * ped_stamina) 0 100))
    /\
    (forall d, 1800 < d ->
       res d = round2 (_clamp (0.25 * ped_speed + 0.75 * ped_stamina) 0 100)).
Proof.
  intros. subst res. cbv beta.
  assert (E50 : round2 (_clamp 50 0 100) = 50).
  { unfold _clamp. rewrite Rltb_false, Rgtb_false by lra.
    replace 50 with (IZR 5000 / 100) by lra. apply round2_exact. }
  split.
  { change (round2 (_clamp (dist_pref_of 0 ped_speed ped_stamina speed)
                      0 100) = 50).
    unfold dist_pref_of. rewrite Rleb_true by lra. exact E50. }
  repeat split; intros d; intros; rewrite compute_match_M_dist_pref;
    fold ped_speed ped_stamina speed; unfold dist_pref_of.
  - rewrite Rleb_true by assumption. exact E50.
  - rewrite Rleb_false, Rleb_true by lra. reflexivity.
  - rewrite Rleb_false, Rleb_false, Rleb_true by lra. reflexivity.
  - rewrite !Rleb_false by lra. reflexivity.
Qed.

(** An instance of C5 at 0, 1200, 1600 and 2400 m for a pedigree of speed
    0 and stamina 100 and the default item scores. *)
Lemma compute_match_M_dist_pref_piecewise_witness :
  let sc : gmap string R := <["speed" := 0]> (<["stamina" := 100]> ∅) in
  let res d :=
    MatchResult.dist_pref
      (compute_match_M ∅ (Some (Pedigree.mk (Some sc)))
         (Some (Race.mk None (Some d) None)) None) in
  (0 <= 0 /\ res 0 = 50) /\
  (0 < 1200 /\ 1200 <= 1400 /\
   res 1200 = round2 (_clamp (0.65 * default 50 (sc !! "speed")
                              + 0.35 * _get ∅ "V" 50) 0 100)) /\
  (1400 < 1600 /\ 1600 <= 1800 /\
   res 1600 = round2 (_clamp (0.45 * default 50 (sc !! "speed")
                              + 0.55 * default 50 (sc !! "stamina")) 0 100))
  /\
  (1800 < 2400 /\
   res 2400 = round2 (_clamp (0.25 * default 50 (sc !! "speed")
                              + 0.75 * default 50 (sc !! "stamina")) 0 100)).
Proof.
  intros sc res.
  pose proof (compute_match_M_dist_pref_piecewise ∅ sc None None None) as H.
  cbv zeta in H. fold res in H. destruct H as (_ & H1 & H2 & H3 & H4).
  assert (A0 : 0 <= 0) by lra.
  assert (A1 : 0 < 1200) by lra.
  assert (A2 : 1200 <= 1400) by lra.
  assert (A3 : 1400 < 1600) by lra.
  assert (A4 : 1600 <= 1800) by lra.
  assert (A5 : 1800 < 2400) by lra.
  split; [split; [exact A0 | exact (H1 0 A0)] |].
  split; [split; [exact A1 | split; [exact A2 | exact (H2 1200 A1 A2)]] |].
  split; [split; [exact A3 | split; [exact A4 | exact (H3 1600 A3 A4)]] |].
  split; [exact A5 | exact (H4 2400 A5)].
Defined.

(** C5 as stated fails: at 1600 m the blend is not even.  For a pedigree
    of speed 0 and stamina 100 the component is 55, and with the two
    scores exchanged it is 45; equal weights give 50 both times. *)
Lemma compute_match_M_middle_distance_counterexample :
  let sc1 : gmap string R := <["speed" := 0]> (<["stamina" := 100]> ∅) in
  let sc2 : gmap string R := <["speed" := 100]> (<["stamina" := 0]> ∅) in
  let res sc :=
    MatchResult.dist_pref
      (compute_match_M ∅ (Some (Pedigree.mk (Some sc)))
         (Some (Race.mk None (Some 1600) None)) None) in
  (1400 < 1600 /\ 1600 <= 1800) /\
  res sc1 = 55 /\ res sc2 = 45 /\
  res sc1 <> round2 (_clamp (0.5 * 0 + 0.5 * 100) 0 100) /\
  res sc1 <> res sc2.
Proof.
  intros sc1 sc2 res.
  assert (E1 : res sc1 = 55).
  { subst res sc1. cbv beta. rewrite compute_match_M_dist_pref.
    rewrite lookup_insert_eq.
    rewrite lookup_insert_ne, lookup_insert_eq by discriminate.
    cbn [from_option Datatypes.id]. unfold dist_pref_of.
    rewrite Rleb_false, Rleb_false, Rleb_true by lra.
    unfold _clamp. rewrite Rltb_false, Rgtb_false by lra.
    replace (0.45 * 0 + 0.55 * 100) with (IZR 5500 / 100) by lra.
    rewrite round2_exact. lra. }
  assert (E2 : res sc2 = 45).
  { subst res sc2. cbv beta. rewrite compute_match_M_dist_pref.
    rewrite lookup_insert_eq.
    rewrite lookup_insert_ne, lookup_insert_eq by discriminate.
    cbn [from_option Datatypes.id]. unfold dist_pref_of.
    rewrite Rleb_false, Rleb_false, Rleb_true by lra.
    unfold _clamp. rewrite Rltb_false, Rgtb_false by lra.
    replace (0.45 * 100 + 0.55 * 0) with (IZR 4500 / 100) by lra.
    rewrite round2_exact. lra. }
  assert (E3 : round2 (_clamp (0.5 * 0 + 0.5 * 100) 0 100) = 50).
  { unfold _clamp. rewrite Rltb_false, Rgtb_false by lra.
    replace (0.5 * 0 + 0.5 * 100) with (IZR 5000 / 100) by lra.
    rewrite round2_exact. lra. }
  split; [lra |]. split; [exact E1 |]. split; [exact E2 |].
  rewrite E1, E2, E3. split; lra.
Qed.

(** ** The finish-probability simulation *)

Section Simulation.

Lemma gauss_all_length mus sigma g :
  length (fst (gauss_all mus sigma g)) = length mus.
Proof.
  revert g. induction mus as [|mu rest IH]; intros g; [reflexivity |].
  cbn [gauss_all]. unfold rand_bind, rand_ret.
  destruct (gauss mu sigma g) as [p g1].
  specialize (IH g1). destruct (gauss_all rest sigma g1) as [ps g2].
  cbn in *. now rewrite IH.
Qed.

Lemma insert_desc_In key i l x :
  In x (insert_desc key i l) <-> x = i \/ In x l.
Proof.
  induction l as [|j l IH]; cbn [insert_desc].
  - cbn. intuition.
  - destruct (Rltb (key i) (key j)); cbn [In]; [rewrite IH |]; intuition.
Qed.

Lemma insert_desc_length key i l :
  length (insert_desc key i l) = S (length l).
Proof.
  induction l as [|j l IH]; cbn [insert_desc]; [reflexivity |].
  destruct (Rltb (key i) (key j)); cbn [length]; [now rewrite IH |].
  reflexivity.
Qed.

Lemma sorted_desc_In key l x : In x (sorted_desc key l) <-> In x l.
Proof.
  induction l as [|i l IH]; cbn [sorted_desc]; [reflexivity |].
  rewrite insert_desc_In, IH. cbn. intuition.
Qed.

Lemma sorted_desc_length key l : length (sorted_desc key l) = length l.
Proof.
  induction l as [|i l IH]; cbn [sorted_desc]; [reflexivity |].
  rewrite insert_desc_length, IH. reflexivity.
Qed.

Lemma index_In x l :
  In x l -> exists i, index x l = Some i /\ (i < length l)%nat.
Proof.
  induction l as [|y l IH]; intros Hin; [contradiction |].
  cbn [index]. destruct (Nat.eqb y x) eqn:E.
  - exists 0%nat. split; [reflexivity | cbn; lia].
  - destruct Hin as [->|Hin]; [rewrite Nat.eqb_refl in E; discriminate |].
    destruct (IH Hin) as (i & Hi & Hlt). rewrite Hi.
    exists (S i). split; [reflexivity | cbn; lia].
Qed.

(** In a field that is not empty a trial gives entry 0 a rank between 1
    and the size of the field. *)
Lemma trial_rank_range mu mus sigma g :
  exists r g',
    trial_rank (mu :: mus) sigma g = (Some r, g') /\
    (1 <= r <= length (mu :: mus))%nat.
Proof.
  unfold trial_rank, rand_bind, rand_ret.
  destruct (gauss_all (mu :: mus) sigma g) as [perf g'].
  set (order := sorted_desc (perf_at perf) (seq 0 (length (mu :: mus)))).
  assert (Hin : In 0%nat order).
  { apply sorted_desc_In, in_seq. cbn. lia. }
  destruct (index_In 0%nat order Hin) as (i & Hi & Hlt).
  unfold order in Hlt. rewrite sorted_desc_length, length_seq in Hlt.
  fold order. rewrite Hi. exists (i + 1)%nat, g'.
  split; [reflexivity | lia].
Qed.

Lemma insert_desc_sorted key i l :
  desc_sorted key l -> desc_sorted key (insert_desc key i l).
Proof.
  unfold desc_sorted. induction l as [|j l IH]; intros Hs; cbn [insert_desc].
  - repeat constructor.
  - apply StronglySorted_inv in Hs as [Hs Hj].
    unfold Rltb. destruct (Rlt_dec (key i) (key j)) as [Hlt|Hge].
    + constructor; [now apply IH |].
      apply List.Forall_forall. intros y Hy.
      apply insert_desc_In in Hy as [->|Hy]; [lra |].
      now apply (proj1 (List.Forall_forall _ _) Hj).
    + constructor; [now constructor |].
      constructor; [lra |].
      apply List.Forall_forall. intros y Hy.
      pose proof (proj1 (List.Forall_forall _ _) Hj y Hy). lra.
Qed.

Lemma sorted_desc_sorted key l : desc_sorted key (sorted_desc key l).
Proof.
  induction l as [|i l IH]; cbn [sorted_desc].
  - constructor.
  - now apply insert_desc_sorted.
Qed.

Lemma count_above_insert key x i l :
  count_above key x (insert_desc key i l) = count_above key x (i :: l).
Proof.
  induction l as [|j l IH]; cbn [insert_desc]; [reflexivity |].
  destruct (Rltb (key i) (key j)); [| reflexivity].
  cbn [count_above] in *. rewrite IH. lia.
Qed.

Lemma count_above_sorted_desc key x l :
  count_above key x (sorted_desc key l) = count_above key x l.
Proof.
  induction l as [|i l IH]; cbn [sorted_desc]; [reflexivity |].
  rewrite count_above_insert. cbn [count_above]. now rewrite IH.
Qed.

Lemma count_above_none key x l :
  Forall (fun j => key j <= key x) l -> count_above key x l = 0%nat.
Proof.
  induction 1 as [|j l Hj _ IH]; cbn [count_above]; [reflexivity |].
  rewrite Rltb_false by exact Hj. now rewrite IH.
Qed.

Lemma index_insert_desc key x l :
  ~ In x l -> desc_sorted key l ->
  index x (insert_desc key x l) = Some (count_above key x l).
Proof.
  unfold desc_sorted.
  induction l as [|j l IH]; intros Hnin Hs; cbn [insert_desc].
  - cbn [index count_above]. now rewrite Nat.eqb_refl.
  - apply StronglySorted_inv in Hs as [Hs Hj].
    unfold Rltb at 1. destruct (Rlt_dec (key x) (key j)) as [Hlt|Hge].
    + cbn [index count_above].
      destruct (Nat.eqb_spec j x) as [->|Hne]; [lra |].
      rewrite IH; [| intros Hin; apply Hnin; now right | exact Hs].
      rewrite Rltb_true by exact Hlt. reflexivity.
    + cbn [index]. rewrite Nat.eqb_refl.
      rewrite count_above_none; [reflexivity |].
      constructor; [lra |].
      apply List.Forall_forall. intros y Hy.
      pose proof (proj1 (List.Forall_forall _ _) Hj y Hy). lra.
Qed.

(** The position of the first element of the input in the sorted list
    is the number of elements of strictly greater key: ties are resolved
    in its favour. *)
Lemma index_sorted_desc_head key x l :
  ~ In x l ->
  index x (sorted_desc key (x :: l)) = Some (count_above key x l).
Proof.
  intros Hnin. cbn [sorted_desc].
  rewrite index_insert_desc.
  - now rewrite count_above_sorted_desc.
  - intros Hin. now apply Hnin, (sorted_desc_In key l x).
  - apply sorted_desc_sorted.
Qed.

(** The rank of the subject in a trial is one more than the number of
    opponents whose drawn performance is strictly above its own. *)
Lemma trial_rank_counts_better mu mus sigma g :
  let '(perf, g') := gauss_all (mu :: mus) sigma g in
  trial_rank (mu :: mus) sigma g
  = (Some (count_above (perf_at perf) 0 (seq 1 (length mus)) + 1)%nat, g').
Proof.
  unfold trial_rank, rand_bind, rand_ret.
  destruct (gauss_all (mu :: mus) sigma g) as [perf g'].
  cbn [length seq]. rewrite index_sorted_desc_head; [reflexivity |].
  intros Hin. apply in_seq in Hin. lia.
Qed.

Lemma tally_rank_ok m k a r :
  (1 <= r <= m)%nat -> tally_ok m k a ->
  tally_ok m (k + 1) (tally_rank a r).
Proof.
  intros [H1 Hm] (Hw & Ht & Hs). unfold tally_ok, tally_rank.
  cbn [Tally.win Tally.top3 Tally.top5 Tally.rank_sum].
  assert (Hr1 : 1 <= INR r) by (change 1 with (INR 1); apply le_INR; lia).
  assert (Hrm : INR r <= INR m) by (apply le_INR; lia).
  rewrite plus_IZR.
  destruct (Nat.eqb_spec r 1) as [E|E];
    destruct (Nat.leb_spec r 3); destruct (Nat.leb_spec r 5);
    try lia; (split; [lia | split; [lia | nra]]).
Qed.

Lemma trials_ok k : forall mu mus sigma a g j,
  tally_ok (length (mu :: mus)) j a ->
  exists a' g',
    trials k (mu :: mus) sigma a g = (Some a', g') /\
    tally_ok (length (mu :: mus)) (j + Z.of_nat k) a'.
Proof.
  induction k as [|k IH]; intros mu mus sigma a g j Hok.
  - exists a, g. split; [reflexivity |].
    now replace (j + Z.of_nat 0)%Z with j by lia.
  - cbn [trials]. unfold rand_bind.
    destruct (trial_rank_range mu mus sigma g) as (r & g1 & Hr & Hrange).
    rewrite Hr.
    destruct (IH mu mus sigma (tally_rank a r) g1 (j + 1)%Z
                (tally_rank_ok _ _ _ _ Hrange Hok)) as (a' & g' & Ha & Hok').
    exists a', g'. split; [exact Ha |].
    now replace (j + Z.of_nat (S k))%Z with (j + 1 + Z.of_nat k)%Z by lia.
Qed.

Lemma tally_zero_ok m : tally_ok m 0 Tally.zero.
Proof. unfold tally_ok, Tally.zero. cbn. repeat split; try lia; lra. Qed.

End Simulation.

(** C7.  With no opponents (an empty list, or none at all) the simulation
    returns win, top-3 and top-5 probabilities of 1 and an expected rank of
    1, whatever the subject mean, the trial count and sigma, and leaves the
    random source where it was. *)
Theorem simulate_finish_probs_no_opponents :
  forall our_mu n sigma g,
    simulate_finish_probs our_mu (Some []) n sigma g
      = (Some (SimResult.mk true n 1 1 1 1 1 sigma), g) /\
    simulate_finish_probs our_mu None n sigma g
      = (Some (SimResult.mk true n 1 1 1 1 1 sigma), g) /\
    estimate_race_probs our_mu (Some []) n sigma g
      = (Some (SimResult.mk true n 1 1 1 1 1 sigma), g).
Proof. intros. repeat split; reflexivity. Qed.

(** C8.  With at least one opponent the simulation returns a result,
    whatever the trial count, sigma and the draws of the random source; in
    it [0 <= win <= top3 <= top5 <= 1], the field size is the number of
    opponents plus one, and the expected rank lies between 1 and the field
    size. *)
Theorem simulate_finish_probs_bounds :
  forall our_mu e es n sigma g,
    exists res g',
      simulate_finish_probs our_mu (Some (e :: es)) n sigma g
        = (Some res, g') /\
      SimResult.field_size res = S (length (e :: es)) /\
      0 <= SimResult.win res /\
      SimResult.win res <= SimResult.top3 res /\
      SimResult.top3 res <= SimResult.top5 res /\
      SimResult.top5 res <= 1 /\
      1 <= SimResult.expected_rank res /\
      SimResult.expected_rank res <= INR (SimResult.field_size res).
Proof.
  intros. unfold simulate_finish_probs. cbv zeta.
  cbn [from_option Datatypes.id map length Nat.leb].
  set (mu1 := default 50 (Entrant.rating e)).
  set (mus := map (fun e0 => default 50 (Entrant.rating e0)) es).
  unfold rand_bind, rand_ret.
  destruct (trials_ok (Z.to_nat (Z.max 200 n)) our_mu (mu1 :: mus) sigma
              Tally.zero g 0 (tally_zero_ok _)) as (a & g' & Ha & Hok).
  rewrite Ha. cbn [fmap option_fmap option_map].
  eexists. exists g'. split; [reflexivity |].
  cbn [SimResult.field_size SimResult.win SimResult.top3 SimResult.top5
       SimResult.expected_rank].
  split.
  { cbn [length]. subst mus. now rewrite length_map. }
  replace (0 + Z.of_nat (Z.to_nat (Z.max 200 n)))%Z with (Z.max 200 n)
    in Hok by lia.
  destruct Hok as ((Hw0 & Hw) & (Ht & Ht5) & (Hs1 & Hs2)).
  assert (Hnn : 200 <= IZR (Z.max 200 n)) by (apply IZR_le; lia).
  apply IZR_le in Hw0, Hw, Ht, Ht5.
  set (nn := IZR (Z.max 200 n)) in *.
  assert (Hinv : 0 < / nn) by (apply Rinv_0_lt_compat; lra).
  assert (Hone : nn * / nn = 1) by (apply Rinv_r; lra).
  assert (Hdiv : forall x y, x <= y -> x * / nn <= y * / nn)
    by (intros x y Hxy; apply Rmult_le_compat_r; lra).
  cbn [length] in Hs2 |- *.
  set (m := INR (S (S (length mus)))) in *.
  unfold Rdiv.
  split; [apply Rmult_le_pos; lra |].
  split; [now apply Hdiv |].
  split; [now apply Hdiv |].
  split; [rewrite <- Hone; now apply Hdiv |].
  split; [rewrite <- Hone; now apply Hdiv |].
  replace m with (nn * m * / nn) by (field; lra).
  now apply Hdiv.
Qed.

(** ** The guards of the gait-feature extraction *)

Section ExtractFacts.

Variable Frame : Type.
Variable VideoCapture : string -> Capture Frame.
Variable analyse : R -> list Frame -> Error + GaitFeatures.t.

(** The loop appends the pending frames to the frames it has, until it
    has [max_frames] of them or none is pending. *)
Lemma read_loop_frames fuel : forall max_frames cap frames,
  (Z.to_nat (max_frames - Z.of_nat (length frames)) <= fuel)%nat ->
  fst (read_loop Frame fuel max_frames cap frames)
  = frames ++ firstn (Z.to_nat (max_frames - Z.of_nat (length frames)))
                (pending Frame cap).
Proof.
  induction fuel as [|fuel IH]; intros max_frames cap frames Hfuel.
  - cbn [read_loop fst].
    replace (Z.to_nat _) with 0%nat by lia.
    cbn [firstn]. now rewrite app_nil_r.
  - cbn [read_loop]. destruct (Z.ltb_spec (Z.of_nat (length frames)) max_frames)
      as [Hlt|Hge].
    + unfold read. destruct (pending Frame cap) as [|f rest] eqn:Ep.
      * cbn [fst]. rewrite firstn_nil. now rewrite app_nil_r.
      * rewrite IH.
        -- cbn [pending]. rewrite length_app. cbn [length].
           replace (Z.to_nat (max_frames - Z.of_nat (length frames)))
             with (S (Z.to_nat (max_frames
                                - Z.of_nat (length frames + 1))))
             by lia.
           cbn [firstn]. now rewrite <- app_assoc.
        -- rewrite length_app. cbn [length]. lia.
    + cbn [fst]. replace (Z.to_nat _) with 0%nat by lia.
      cbn [firstn]. now rewrite app_nil_r.
Qed.

Lemma read_loop_firstn max_frames cap :
  fst (read_loop Frame (Z.to_nat max_frames) max_frames cap [])
  = firstn (Z.to_nat max_frames) (pending Frame cap).
Proof.
  rewrite read_loop_frames; cbn [length app]; [| lia].
  now replace (max_frames - Z.of_nat 0)%Z with max_frames by lia.
Qed.

(** C9, as the code has it.  The frames read are the first
    [max_frames] frames the source delivers before [read()] first
    fails.  A source that did not open fails with
    [RuntimeError "Failed to open video"] ([VideoUnreadable]).  A source
    that opened and from which fewer than 10 frames were read fails
    with [RuntimeError "Too few frames"] ([InsufficientFrames]), and no
    features are returned; this is also what happens to a source that
    opens and cannot be decoded.  In every other case both guards are
    passed and the outcome of the call is the outcome of the analysis
    of lines 58-175 on the frames that were read, at the frame rate of
    the source (30 when it reports none). *)
Theorem extract_gait_features_guards :
  forall video_path max_frames,
    let cap := VideoCapture video_path in
    let frames :=
      fst (read_loop Frame (Z.to_nat max_frames) max_frames cap []) in
    let res :=
      extract_gait_features Frame VideoCapture analyse video_path
        max_frames in
    frames = firstn (Z.to_nat max_frames) (pending Frame cap) /\
    (isOpened Frame cap = false -> res = inl VideoUnreadable) /\
    (isOpened Frame cap = true -> (length frames < 10)%nat ->
       res = inl InsufficientFrames) /\
    (isOpened Frame cap = true -> pending Frame cap = [] ->
       res = inl InsufficientFrames) /\
    (isOpened Frame cap = true -> (10 <= length frames)%nat ->
       res = analyse (fps_of Frame cap) frames).
Proof.
  intros video_path max_frames cap frames res.
  assert (Hframes : frames
                    = firstn (Z.to_nat max_frames) (pending Frame cap))
    by apply read_loop_firstn.
  split; [exact Hframes |].
  assert (Hshort : isOpened Frame cap = true -> (length frames < 10)%nat ->
                   res = inl InsufficientFrames).
  { subst res frames. unfold extract_gait_features. cbv zeta. fold cap.
    destruct (read_loop Frame (Z.to_nat max_frames) max_frames cap [])
      as [frames' cap'].
    cbn [fst]. intros -> Hlt. cbn [negb].
    destruct (Nat.ltb_spec (length frames') 10); [reflexivity | lia]. }
  split; [| split; [exact Hshort | split]].
  - subst res. unfold extract_gait_features. cbv zeta. fold cap.
    intros ->. reflexivity.
  - intros Ho Hp. apply Hshort; [exact Ho |].
    rewrite Hframes, Hp, firstn_nil. cbn [length]. lia.
  - subst res frames. unfold extract_gait_features. cbv zeta. fold cap.
    destruct (read_loop Frame (Z.to_nat max_frames) max_frames cap [])
      as [frames' cap'].
    cbn [fst]. intros -> Hge. cbn [negb].
    destruct (Nat.ltb_spec (length frames') 10); [lia | reflexivity].
Qed.

End ExtractFacts.

(** An instance of C9 with frames numbered by naturals: a source that
    does not open, an open source of 5 frames, an open source that
    delivers no frame, and an open source of 12 frames. *)
Lemma extract_gait_features_guards_witness :
  let VideoCapture (path : string) : Capture nat :=
    if String.eqb path "missing.mp4" then mkCapture nat false 0 []
    else if String.eqb path "short.mp4" then mkCapture nat true 30 (seq 0 5)
    else if String.eqb path "corrupt.mp4" then mkCapture nat true 30 []
    else mkCapture nat true 0 (seq 0 12) in
  let analyse (fps : R) (frames : list nat) : Error + GaitFeatures.t :=
    inr (GaitFeatures.mk fps 0 0 0 None ∅ None 0 []) in
  let run path := extract_gait_features nat VideoCapture analyse path 240 in
  (isOpened nat (VideoCapture "missing.mp4") = false /\
   run "missing.mp4" = inl VideoUnreadable) /\
  (isOpened nat (VideoCapture "short.mp4") = true /\
   (length (fst (read_loop nat (Z.to_nat 240) 240
                   (VideoCapture "short.mp4") [])) < 10)%nat /\
   run "short.mp4" = inl InsufficientFrames) /\
  (isOpened nat (VideoCapture "corrupt.mp4") = true /\
   pending nat (VideoCapture "corrupt.mp4") = [] /\
   run "corrupt.mp4" = inl InsufficientFrames) /\
  (isOpened nat (VideoCapture "walk.mp4") = true /\
   (10 <= length (fst (read_loop nat (Z.to_nat 240) 240
                         (VideoCapture "walk.mp4") [])))%nat /\
   run "walk.mp4" = analyse 30 (seq 0 12)).
Proof.
  intros VideoCapture analyse run.
  pose proof (extract_gait_features_guards nat VideoCapture analyse
                "missing.mp4" 240) as (_ & H1 & _).
  pose proof (extract_gait_features_guards nat VideoCapture analyse
                "short.mp4" 240) as (E2 & _ & H2 & _).
  pose proof (extract_gait_features_guards nat VideoCapture analyse
                "corrupt.mp4" 240) as (_ & _ & _ & H3 & _).
  pose proof (extract_gait_features_guards nat VideoCapture analyse
                "walk.mp4" 240) as (E4 & _ & _ & _ & H4).
  assert (O1 : isOpened nat (VideoCapture "missing.mp4") = false)
    by reflexivity.
  assert (O2 : isOpened nat (VideoCapture "short.mp4") = true)
    by reflexivity.
  assert (O3 : isOpened nat (VideoCapture "corrupt.mp4") = true)
    by reflexivity.
  assert (P3 : pending nat (VideoCapture "corrupt.mp4") = [])
    by reflexivity.
  assert (O4 : isOpened nat (VideoCapture "walk.mp4") = true)
    by reflexivity.
  assert (L2 : (length (fst (read_loop nat (Z.to_nat 240) 240
                               (VideoCapture "short.mp4") [])) < 10)%nat).
  { rewrite E2. unfold VideoCapture. vm_compute. lia. }
  assert (L4 : (10 <= length (fst (read_loop nat (Z.to_nat 240) 240
                                     (VideoCapture "walk.mp4") [])))%nat).
  { rewrite E4. unfold VideoCapture. vm_compute. lia. }
  split; [split; [exact O1 | exact (H1 O1)] |].
  split; [split; [exact O2 | split; [exact L2 | exact (H2 O2 L2)]] |].
  split; [split; [exact O3 | split; [exact P3 | exact (H3 O3 P3)]] |].
  split; [exact O4 |]. split; [exact L4 |].
  assert (Ef : fps_of nat (VideoCapture "walk.mp4") = 30).
  { unfold fps_of, VideoCapture. cbn [String.eqb Ascii.eqb Bool.eqb fps_prop].
    destruct (Req_dec_T 0 0) as [_|H]; [reflexivity | now contradiction H]. }
  unfold run. rewrite (H4 O4 L4), Ef, E4. reflexivity.
Defined.

(** C9 as it was stated fails for a source that opens and cannot be
    decoded: the first [read()] fails, no frame is read, and the call
    fails with [InsufficientFrames], not with [VideoUnreadable]. *)
Lemma extract_gait_features_undecodable_counterexample :
  let VideoCapture (path : string) : Capture nat := mkCapture nat true 30 [] in
  let analyse (fps : R) (frames : list nat) : Error + GaitFeatures.t :=
    inr (GaitFeatures.mk fps 0 0 0 None ∅ None 0 []) in
  let res :=
    extract_gait_features nat VideoCapture analyse "corrupt.mp4" 240 in
  fst (read nat (VideoCapture "corrupt.mp4")) = None /\
  res = inl InsufficientFrames /\
  res <> inl VideoUnreadable.
Proof.
  intros VideoCapture analyse res.
  split; [reflexivity |]. split; [reflexivity |].
  intros H. discriminate H.
Qed.

(** ** More about the scoring engine *)

Section ScoringFacts.


Lemma sat_low x a b : a < b -> x <= a -> sat x a b = 0.
Proof.
  intros Hab Hx. unfold sat. rewrite Rleb_false by exact Hab.
  destruct (clamp_cases ((x - a) / (b - a)) 0 1) as [[_ E]|[(H0 & H1 & _)|[[H0 H1] E]]];
    [exact E | |].
  - exfalso.
    assert (Hi : 0 < / (b - a)) by (apply Rinv_0_lt_compat; lra).
    unfold Rdiv in H1. nra.
  - rewrite E.
    assert (Hi : 0 < / (b - a)) by (apply Rinv_0_lt_compat; lra).
    unfold Rdiv in *. nra.
Qed.

Lemma sat_high x a b : a < b -> b <= x -> sat x a b = 1.
Proof.
  intros Hab Hx. unfold sat. rewrite Rleb_false by exact Hab.
  assert (Hi : 0 < / (b - a)) by (apply Rinv_0_lt_compat; lra).
  assert (H1 : 1 <= (x - a) / (b - a)).
  { replace 1 with ((b - a) * / (b - a)) by (apply Rinv_r; lra).
    unfold Rdiv. apply Rmult_le_compat_r; lra. }
  destruct (clamp_cases ((x - a) / (b - a)) 0 1) as [[H _]|[(_ & _ & E)|[[_ H] E]]];
    [lra | exact E | rewrite E; lra].
Qed.

(** Both branches of [sigmoid] compute the logistic function. *)
Lemma sigmoid_eq x : sigmoid x = / (1 + exp (- x)).
Proof.
  unfold sigmoid. destruct (Rgeb x 0); cbv zeta; [unfold Rdiv; lra |].
  pose proof (exp_pos x) as Hp.
  rewrite exp_Ropp. field. split; lra.
Qed.


Lemma total_of_mono C G1 G2 P1 P2 R1 R2 S1 S2 M1 M2 p1 p2 :
  0 <= C -> G1 <= G2 -> P1 <= P2 -> R2 <= R1 -> S2 <= S1 -> M1 <= M2 ->
  p1 <= p2 ->
  total_of C G1 P1 R1 S1 M1 p1 <= total_of C G2 P2 R2 S2 M2 p2.
Proof.
  intros HC HG HP HR HS HM Hp. unfold total_of. cbv zeta.
  assert (Ha : clamp (G1 + 0.15 * (P1 - 50)) 0 100
               <= clamp (G2 + 0.15 * (P2 - 50)) 0 100)
    by (apply clamp_mono; lra).
  assert (Hr : clamp (R2 + 0.30 * S2) 0 100 <= clamp (R1 + 0.30 * S1) 0 100)
    by (apply clamp_mono; lra).
  set (a1 := clamp (G1 + 0.15 * (P1 - 50)) 0 100) in *.
  set (a2 := clamp (G2 + 0.15 * (P2 - 50)) 0 100) in *.
  set (r1 := clamp (R1 + 0.30 * S1) 0 100) in *.
  set (r2 := clamp (R2 + 0.30 * S2) 0 100) in *.
  assert (Hg : clamp (a1 - 0.35 * r1) 0 100 <= clamp (a2 - 0.35 * r2) 0 100)
    by (apply clamp_mono; lra).
  set (g1 := clamp (a1 - 0.35 * r1) 0 100) in *.
  set (g2 := clamp (a2 - 0.35 * r2) 0 100) in *.
  apply clamp_mono; [lra |]. nra.
Qed.

End ScoringFacts.

Section ScoreShape.

Variables q pitch_hz stride_index wobble asym : R.
Variable speed_proxy : option R.
Variable roi_asym : option (gmap string R).
Variable headbob_ratio : option R.
Variable ai_state : PaddockAIState.t.
Variables ped_score ped_stamina ped_surfacefit : R.
Variable race_match_override : option R.

Local Abbreviation res :=
  (score_v2 q pitch_hz stride_index wobble asym speed_proxy roi_asym
     headbob_ratio ai_state ped_score ped_stamina ped_surfacefit
     race_match_override).

Lemma total_Total_as_total_of :
  total_Total res =
  total_of (total_C_vid res) (gait_G res) (risk_paddock_state res)
    (risk_R_gait res) (risk_stress_risk res) (match_M res) ped_score.
Proof. reflexivity. Qed.

Lemma gait_G_adj_eq :
  gait_G_adj res =
  clamp (gait_G res + 0.15 * (risk_paddock_state res - 50)) 0 100.
Proof. reflexivity. Qed.

Lemma risk_R_adj_eq :
  risk_R_adj res =
  clamp (risk_R_gait res + 0.30 * risk_stress_risk res) 0 100.
Proof. reflexivity. Qed.


Lemma prob_eq :
  prob_PlacePct res
  = 100 * sigmoid (calib_z (total_Total res) (match_M res)) * 0.55 /\
  prob_ContendPct res
  = 100 * sigmoid (calib_z (total_Total res) (match_M res) - 0.7) * 0.25.
Proof. split; reflexivity. Qed.

Lemma C_vid_nonneg : 0 <= total_C_vid res.
Proof.
  pose proof (C_vid_range q pitch_hz stride_index wobble asym speed_proxy
                roi_asym headbob_ratio ai_state ped_score ped_stamina
                ped_surfacefit race_match_override) as H.
  cbv zeta in H. lra.
Qed.

End ScoreShape.









(** The head-bob flag of a call. *)
Lemma flag_headbob_suspect_eq q p s w a v roi hb ai ps st sf ov :
  flag_headbob_suspect (score_v2 q p s w a v roi hb ai ps st sf ov)
  = match hb with None => false | Some h => Rgtb h Config.HB0 end.
Proof. reflexivity. Qed.



(** X5: the paddock axes.  A calmer horse (lower excitement, sweating and
    breathing) that is at least as settled, cooperative and fresh
    (temperament, cooperation and the [F] axis not lower), at the same
    confidence, has a paddock state that is not lower, a stress risk and
    adjusted risk that are not higher, and a total that is not lower. *)
Theorem score_v2_monotone_in_paddock_axes :
  forall q pitch_hz stride_index wobble asym speed_proxy roi_asym
         headbob_ratio ped_score ped_stamina ped_surfacefit
         race_match_override T1 T2 X1 X2 SW1 SW2 BR1 BR2 CO1 CO2 F1 F2 c,
    T1 <= T2 -> X2 <= X1 -> SW2 <= SW1 -> BR2 <= BR1 -> CO1 <= CO2 ->
    F1 <= F2 ->
    let r1 := score_v2 q pitch_hz stride_index wobble asym speed_proxy
                roi_asym headbob_ratio
                (PaddockAIState.mk T1 X1 SW1 BR1 CO1 F1 c)
                ped_score ped_stamina ped_surfacefit race_match_override in
    let r2 := score_v2 q pitch_hz stride_index wobble asym speed_proxy
                roi_asym headbob_ratio
                (PaddockAIState.mk T2 X2 SW2 BR2 CO2 F2 c)
                ped_score ped_stamina ped_surfacefit race_match_override in
    risk_paddock_state r1 <= risk_paddock_state r2 /\
    risk_stress_risk r2 <= risk_stress_risk r1 /\
    gait_G_adj r1 <= gait_G_adj r2 /\
    risk_R_adj r2 <= risk_R_adj r1 /\
    total_Total r1 <= total_Total r2.
Proof.
  intros * HT HX HSW HBR HCO HF r1 r2.
  assert (Hc : forall u v, u <= v -> clamp (u / 100) 0 1 <= clamp (v / 100) 0 1)
    by (intros u v Huv; apply clamp_mono; lra).
  pose proof (Hc _ _ HT) as Ht. pose proof (Hc _ _ HX) as Hx.
  pose proof (Hc _ _ HSW) as Hsw. pose proof (Hc _ _ HBR) as Hbr.
  pose proof (Hc _ _ HCO) as Hco. pose proof (Hc _ _ HF) as Hf.
  pose proof (clamp_range c 0 1 ltac:(lra)) as Hk.
  assert (HP : risk_paddock_state r1 <= risk_paddock_state r2).
  { subst r1 r2. unfold_score.
    cbn [PaddockAIState.T PaddockAIState.X PaddockAIState.CO
         PaddockAIState.F PaddockAIState.AiConf].
    match goal with
    | |- _ + ?k * (100 * clamp ?u 0 1) <= _ + _ * (100 * clamp ?v 0 1) =>
        assert (Hp : clamp u 0 1 <= clamp v 0 1) by (apply clamp_mono; lra);
        set (pu := clamp u 0 1) in *; set (pv := clamp v 0 1) in *
    end.
    nra. }
  assert (HS : risk_stress_risk r2 <= risk_stress_risk r1).
  { subst r1 r2. unfold_score.
    cbn [PaddockAIState.X PaddockAIState.SW PaddockAIState.BR
         PaddockAIState.AiConf].
    match goal with
    | |- _ * clamp ?u 0 1 <= _ * clamp ?v 0 1 =>
        assert (Hp : clamp u 0 1 <= clamp v 0 1) by (apply clamp_mono; lra);
        set (pu := clamp u 0 1) in *; set (pv := clamp v 0 1) in *
    end.
    nra. }
  assert (HG : gait_G_adj r1 <= gait_G_adj r2).
  { subst r1 r2. rewrite !gait_G_adj_eq. apply clamp_mono; [lra |].
    match goal with |- ?a + _ <= ?b + _ => change b with a end. lra. }
  assert (HR : risk_R_adj r2 <= risk_R_adj r1).
  { subst r1 r2. rewrite !risk_R_adj_eq. apply clamp_mono; [lra |].
    match goal with |- ?a + _ <= ?b + _ => change b with a end. lra. }
  repeat (split; [assumption |]).
  subst r1 r2. rewrite !total_Total_as_total_of.
  apply total_of_mono; try assumption; try apply Rle_refl.
  apply C_vid_nonneg.
Qed.

Lemma score_v2_monotone_in_paddock_axes_witness :
  let r1 := score_v2 80 2.0 4 0.3 0.10 None None None
              (PaddockAIState.mk 40 70 60 60 40 40 0.8) 55 50 50 None in
  let r2 := score_v2 80 2.0 4 0.3 0.10 None None None
              (PaddockAIState.mk 60 30 20 20 70 60 0.8) 55 50 50 None in
  (40 <= 60 /\ 30 <= 70 /\ 20 <= 60 /\ 20 <= 60 /\ 40 <= 70 /\ 40 <= 60) /\
  risk_stress_risk r2 <= risk_stress_risk r1 /\
  total_Total r1 <= total_Total r2.
Proof.
  intros r1 r2.
  assert (H1 : 40 <= 60) by lra.
  assert (H2 : 30 <= 70) by lra.
  assert (H3 : 20 <= 60) by lra.
  assert (H5 : 40 <= 70) by lra.
  pose proof (score_v2_monotone_in_paddock_axes 80 2.0 4 0.3 0.10 None None
                None 55 50 50 None 40 60 70 30 60 20 60 20 40 70 40 60 0.8
                H1 H2 H3 H3 H5 H1) as H.
  cbv zeta in H. fold r1 r2 in H.
  destruct H as (_ & HS & _ & _ & HT).
  split; [repeat split; assumption |]. split; assumption.
Defined.

(** X6: quality saturates.  A quality of 100 or more gives the result of
    quality 100, in which the trust multiplier is 1 and the confidence
    interval is the single point [Total]; a quality of 0 or less gives the
    result of quality 0, with multiplier 0.65 and half-width 18. *)
Theorem score_v2_quality_saturates :
  forall q pitch_hz stride_index wobble asym speed_proxy roi_asym
         headbob_ratio ai_state ped_score ped_stamina ped_surfacefit
         race_match_override,
    let run q' := score_v2 q' pitch_hz stride_index wobble asym speed_proxy
                    roi_asym headbob_ratio ai_state ped_score ped_stamina
                    ped_surfacefit race_match_override in
    (100 <= q ->
     run q = run 100 /\ total_C_vid (run q) = 1 /\
     total_CI (run q) = (total_Total (run q), total_Total (run q))) /\
    (q <= 0 ->
     run q = run 0 /\ total_C_vid (run q) = 0.65 /\ ci_half_width q = 18).
Proof.
  intros. split; intros Hq.
  - assert (E : clamp (q / 100) 0 1 = 1).
    { destruct (clamp_cases (q / 100) 0 1) as [[H _]|[(_ & _ & E)|[[_ H] E]]];
        [lra | exact E | rewrite E; lra]. }
    assert (E' : clamp (100 / 100) 0 1 = 1) by (rewrite clamp_mid by lra; lra).
    assert (Hrun : run q = run 100).
    { subst run. cbv beta. unfold score_v2. rewrite E, E'. reflexivity. }
    split; [exact Hrun |].
    split; [subst run; cbv beta; unfold_score; rewrite E; lra |].
    pose proof (total_Total_range q pitch_hz stride_index wobble asym
                  speed_proxy roi_asym headbob_ratio ai_state ped_score
                  ped_stamina ped_surfacefit race_match_override) as Ht.
    cbv zeta in Ht. unfold in_0_100 in Ht.
    subst run. cbv beta. rewrite total_CI_eq.
    unfold ci_half_width, Config.DELTA_MAX. rewrite E.
    set (t := total_Total _) in *.
    rewrite !clamp_mid by lra. f_equal; lra.
  - assert (E : clamp (q / 100) 0 1 = 0).
    { destruct (clamp_cases (q / 100) 0 1) as [[_ E]|[(_ & H & _)|[[H _] E]]];
        [exact E | lra | rewrite E; lra]. }
    assert (E' : clamp (0 / 100) 0 1 = 0) by (rewrite clamp_mid by lra; lra).
    split; [subst run; cbv beta; unfold score_v2; rewrite E, E'; reflexivity |].
    split; [subst run; cbv beta; unfold_score; rewrite E; lra |].
    unfold ci_half_width, Config.DELTA_MAX. rewrite E. lra.
Qed.

Lemma score_v2_quality_saturates_witness :
  let run q' := score_v2 q' 2.0 4 0.3 0.10 None None None
                  PaddockAIState.default 55 50 50 None in
  (100 <= 130 /\ run 130 = run 100 /\ total_C_vid (run 130) = 1) /\
  (-5 <= 0 /\ run (-5) = run 0 /\ ci_half_width (-5) = 18).
Proof.
  intros run.
  pose proof (score_v2_quality_saturates 130 2.0 4 0.3 0.10 None None None
                PaddockAIState.default 55 50 50 None) as [Hhi _].
  pose proof (score_v2_quality_saturates (-5) 2.0 4 0.3 0.10 None None None
                PaddockAIState.default 55 50 50 None) as [_ Hlo].
  cbv zeta in Hhi, Hlo.
  assert (H1 : 100 <= 130) by lra.
  assert (H2 : -5 <= 0) by lra.
  destruct (Hhi H1) as (A & B & _). destruct (Hlo H2) as (C & _ & D).
  split; [split; [exact H1 | split; [exact A | exact B]] |].
  split; [exact H2 | split; [exact C | exact D]].
Defined.

(** X7: a missing speed proxy is neutral.  Without a speed proxy the
    result is the one for a speed proxy of 0.475, the middle of the speed
    band from [V0 = 0.25] to [V1 = 0.70], whose item score is 50. *)
Theorem score_v2_speed_proxy_none_is_midpoint :
  forall q pitch_hz stride_index wobble asym roi_asym headbob_ratio
         ai_state ped_score ped_stamina ped_surfacefit race_match_override,
    score_v2 q pitch_hz stride_index wobble asym None roi_asym
      headbob_ratio ai_state ped_score ped_stamina ped_surfacefit
      race_match_override
    = score_v2 q pitch_hz stride_index wobble asym (Some 0.475) roi_asym
        headbob_ratio ai_state ped_score ped_stamina ped_surfacefit
        race_match_override /\
    item_V (score_v2 q pitch_hz stride_index wobble asym None roi_asym
              headbob_ratio ai_state ped_score ped_stamina ped_surfacefit
              race_match_override) = 50 /\
    (Config.V0 = 0.25 /\ Config.V1 = 0.70 /\
     (Config.V0 + Config.V1) / 2 = 0.475).
Proof.
  intros. split; [| split; [reflexivity |]].
  - assert (E : 100 * sat 0.475 Config.V0 Config.V1 = 50).
    { unfold sat, Config.V0, Config.V1. rewrite Rleb_false by lra.
      rewrite clamp_mid by lra. lra. }
    unfold score_v2. rewrite E. reflexivity.
  - unfold Config.V0, Config.V1. repeat split; lra.
Qed.


(** X9: the percentages, for real-valued inputs (none of them NaN).  The
    place percentage lies strictly between 0 and 55 and the contend
    percentage strictly between 0 and 25; the contend percentage is below
    25/55 of the place percentage. *)
Theorem score_v2_probability_ceilings :
  forall q pitch_hz stride_index wobble asym speed_proxy roi_asym
         headbob_ratio ai_state ped_score ped_stamina ped_surfacefit
         race_match_override,
    let r := score_v2 q pitch_hz stride_index wobble asym speed_proxy
               roi_asym headbob_ratio ai_state ped_score ped_stamina
               ped_surfacefit race_match_override in
    0 < prob_PlacePct r < 55 /\
    0 < prob_ContendPct r < 25 /\
    prob_ContendPct r / 25 < prob_PlacePct r / 55 /\
    prob_ContendPct r < prob_PlacePct r.
Proof.
  intros. subst r.
  rewrite (proj1 (prob_eq _ _ _ _ _ _ _ _ _ _ _ _ _)).
  rewrite (proj2 (prob_eq _ _ _ _ _ _ _ _ _ _ _ _ _)).
  set (z := calib_z _ _).
  pose proof (sigmoid_range z) as H1.
  pose proof (sigmoid_range (z - 0.7)) as H2.
  assert (H3 : sigmoid (z - 0.7) < sigmoid z).
  { rewrite !sigmoid_eq.
    pose proof (exp_pos (- z)). pose proof (exp_pos (- (z - 0.7))).
    apply Rinv_lt_contravar; [nra |].
    apply Rplus_lt_compat_l, exp_increasing. lra. }
  repeat split; lra.
Qed.



(** X11: the paddock extractor and the score.  The extractor returns the
    default state whether or not an API key is set; with that state the
    paddock state is the neutral 50, the gait score is not adjusted, the
    stress risk is 32.5 and the adjusted risk is the gait risk plus 9.75,
    capped at 100. *)
Theorem score_v2_with_extracted_paddock_state :
  forall key video_path thumb_path q pitch_hz stride_index wobble asym
         speed_proxy roi_asym headbob_ratio ped_score ped_stamina
         ped_surfacefit race_match_override,
    let ai := extract_paddock_state_from_video key video_path thumb_path in
    let r := score_v2 q pitch_hz stride_index wobble asym speed_proxy
               roi_asym headbob_ratio ai ped_score ped_stamina
               ped_surfacefit race_match_override in
    ai = PaddockAIState.default /\
    risk_paddock_state r = 50 /\
    gait_G_adj r = gait_G r /\
    risk_stress_risk r = 32.5 /\
    risk_R_adj r = Rmin 100 (risk_R_gait r + 9.75).
Proof.
  intros.
  assert (Hai : ai = PaddockAIState.default).
  { subst ai. unfold extract_paddock_state_from_video.
    destruct (negb _); reflexivity. }
  pose proof (gait_G_range q pitch_hz stride_index wobble asym
                speed_proxy roi_asym headbob_ratio ai ped_score
                ped_stamina ped_surfacefit race_match_override) as HG.
  pose proof (risk_range q pitch_hz stride_index wobble asym
                speed_proxy roi_asym headbob_ratio ai ped_score
                ped_stamina ped_surfacefit race_match_override)
    as (HRg & _).
  cbv zeta in HG, HRg. fold r in HG, HRg. unfold in_0_100 in *.
  assert (HP : risk_paddock_state r = 50).
  { subst r. rewrite Hai. unfold_score. unfold PaddockAIState.default.
    cbn [PaddockAIState.T PaddockAIState.X PaddockAIState.CO
         PaddockAIState.F PaddockAIState.AiConf].
    repeat eval_clamp_step. lra. }
  assert (HS : risk_stress_risk r = 32.5).
  { subst r. rewrite Hai. unfold_score. unfold PaddockAIState.default.
    cbn [PaddockAIState.X PaddockAIState.SW PaddockAIState.BR
         PaddockAIState.AiConf].
    repeat eval_clamp_step. lra. }
  split; [exact Hai |]. split; [exact HP |]. split; [| split; [exact HS |]].
  - subst r. rewrite gait_G_adj_eq. rewrite HP.
    set (g := gait_G _) in *. rewrite clamp_mid by lra. lra.
  - subst r. rewrite risk_R_adj_eq. rewrite HS.
    set (g := risk_R_gait _) in *.
    unfold Rmin. destruct (Rle_dec 100 (g + 9.75)).
    + destruct (clamp_cases (g + 0.30 * 32.5) 0 100) as [?|[?|?]]; lra.
    + rewrite clamp_mid by lra. lra.
Qed.

(** ** More about the race match *)

Lemma str_in_cons s a l : str_in s (a :: l) = String.eqb s a || str_in s l.
Proof.
  unfold str_in.
  destruct (String.eqb_spec s a) as [->|Hne]; cbn [orb].
  - apply bool_decide_eq_true. apply elem_of_cons. now left.
  - apply bool_decide_ext. rewrite elem_of_cons. intuition.
Qed.

Lemma str_in_nil s : str_in s [] = false.
Proof. unfold str_in. apply bool_decide_eq_false. apply not_elem_of_nil. Qed.

(** X12: the turn read from a track profile.  The turn of the profile,
    stripped and lowered, gives ["right"] exactly for [right] and [右],
    ["left"] exactly for [left], [左] and [左回り], and nothing otherwise;
    [右回り] gives nothing, because the first test of the function takes
    it and returns [None]. *)
Theorem infer_turn_from_track_cases :
  forall tp,
    let t := lower (strip (str_or_lit (TrackProfile.turn tp) "")) in
    _infer_turn_from_track (Some tp)
    = (if str_in t ["right"; "右"] then Some "right"
       else if str_in t ["left"; "左"; "左回り"] then Some "left"
       else None) /\
    (t = "右回り" -> _infer_turn_from_track (Some tp) = None) /\
    _infer_turn_from_track None = None.
Proof.
  intros tp t.
  assert (E : _infer_turn_from_track (Some tp)
              = (if str_in t ["right"; "右"] then Some "right"
                 else if str_in t ["left"; "左"; "左回り"] then Some "left"
                 else None)).
  { unfold _infer_turn_from_track. fold t. cbv zeta.
    rewrite !str_in_cons, !str_in_nil.
    destruct (String.eqb_spec t "left") as [->|H1]; [reflexivity |].
    destruct (String.eqb_spec t "right") as [->|H2]; [reflexivity |].
    destruct (String.eqb_spec t "右回り") as [->|H3]; [reflexivity |].
    destruct (String.eqb_spec t "右") as [->|H4]; [reflexivity |].
    destruct (String.eqb_spec t "左") as [->|H5]; [reflexivity |].
    destruct (String.eqb_spec t "左回り") as [->|H6]; reflexivity. }
  split; [exact E |]. split; [| reflexivity].
  intros Ht. rewrite E, Ht. reflexivity.
Qed.

Lemma infer_turn_from_track_cases_witness :
  let tp := TrackProfile.mk None (Some " 右回り ") None None in
  lower (strip (str_or_lit (TrackProfile.turn tp) "")) = "右回り" /\
  _infer_turn_from_track (Some tp) = None /\
  _infer_turn_from_track (Some (TrackProfile.mk None (Some "右") None None))
  = Some "right".
Proof.
  intros tp.
  assert (Ht : lower (strip (str_or_lit (TrackProfile.turn tp) "")) = "右回り")
    by reflexivity.
  pose proof (infer_turn_from_track_cases tp) as (_ & H & _).
  split; [exact Ht |]. split; [exact (H Ht) | reflexivity].
Defined.

(** The cadence score is not used.  Changing the item score ["P"]
    changes nothing in the result of [compute_match_M]. *)
Theorem compute_match_M_ignores_pitch :
  forall (g : gmap string R) v pedigree race track_profile,
    compute_match_M (<["P" := v]> g) pedigree race track_profile
    = compute_match_M g pedigree race track_profile.
Proof.
  intros. unfold compute_match_M. cbv zeta.
  rewrite !(_get_insert_ne _ "P" "S"), !(_get_insert_ne _ "P" "W"),
    !(_get_insert_ne _ "P" "A"), !(_get_insert_ne _ "P" "F"),
    !(_get_insert_ne _ "P" "V") by discriminate.
  reflexivity.
Qed.

(** X13: a neutral horse.  When every item score and every pedigree score
    is 50 or missing, the match is 50 for every race and track, except on
    a tight corner, where it is 51.2. *)
Theorem compute_match_M_neutral_horse :
  forall (g sc : gmap string R) race track_profile,
    (forall k : string, default 50 (g !! k) = 50) ->
    (forall k : string, default 50 (sc !! k) = 50) ->
    let res := compute_match_M g (Some (Pedigree.mk (Some sc))) race
                 track_profile in
    MatchResult.match_0_100 res
    = if str_in (MatchResult.corner res) ["tight"; "small"; "小回り"]
      then 51.2 else 50.
Proof.
  intros g sc race track_profile Hg Hsc res. subst res.
  unfold compute_match_M. cbn [MatchResult.match_0_100 MatchResult.corner].
  cbv zeta. cbn [from_option Datatypes.id Pedigree.scores].
  unfold _get. rewrite !Hg, !Hsc.
  set (surface := lower (str_or_lit (str_or _ _) "unknown")).
  set (turn := lower (str_or_lit (str_or _ _) "unknown")).
  set (corner := lower (str_or_lit (TrackProfile.corner _) "unknown")).
  set (going := lower (str_or_lit (TrackProfile.going _) "unknown")).
  set (d := from_option Datatypes.id 0 _).
  assert (Hd : dist_pref_of d 50 50 50 = 50).
  { unfold dist_pref_of. repeat destruct (Rleb _ _); lra. }
  assert (Hs : surf_pref_of surface 50 50 50 50 50 = 50).
  { unfold surf_pref_of. repeat destruct (String.eqb _ _); lra. }
  assert (Hgo : going_adj_of going 50 50 50 = 0).
  { unfold going_adj_of. destruct (str_in _ _); lra. }
  assert (Ht : turn_adj_of turn 50 = 0).
  { unfold turn_adj_of. rewrite (Rltb_false 50 45) by lra.
    now rewrite andb_false_r. }
  rewrite Hd, Hs, Hgo, Ht. unfold corner_adj_of.
  destruct (str_in corner ["tight"; "small"; "小回り"]).
  - unfold _clamp at 2. rewrite Rltb_false, Rgtb_false by lra.
    unfold _clamp. rewrite Rltb_false, Rgtb_false by lra.
    match goal with |- round2 ?x = _ =>
      replace x with (IZR 5120 / 100) by lra end.
    rewrite round2_exact. lra.
  - assert (Hc : (if str_in corner ["wide"; "large"; "大回り"]
                  then 0 + 0.12 * (50 - 50) + 0.06 * (50 - 50) else 0) = 0)
      by (destruct (str_in _ _); lra).
    rewrite Hc. unfold _clamp. rewrite Rltb_false, Rgtb_false by lra.
    match goal with |- round2 ?x = _ =>
      replace x with (IZR 5000 / 100) by lra end.
    rewrite round2_exact. lra.
Qed.

Lemma compute_match_M_neutral_horse_witness :
  let g : gmap string R := <["W" := 50]> ∅ in
  let res := compute_match_M g (Some (Pedigree.mk (Some ∅)))
               (Some (Race.mk (Some "turf") (Some 1600) (Some "left")))
               (Some (TrackProfile.mk None None (Some "tight") (Some "heavy")))
  in
  (forall k : string, default 50 (g !! k) = 50) /\
  (forall k : string, default 50 ((∅ : gmap string R) !! k) = 50) /\
  MatchResult.match_0_100 res = 51.2.
Proof.
  intros g res.
  assert (Hg : forall k : string, default 50 (g !! k) = 50).
  { intros k. unfold g. destruct (decide (k = "W")) as [->|Hk].
    - now rewrite lookup_insert_eq.
    - rewrite lookup_insert_ne by (intros E; now apply Hk).
      now rewrite lookup_empty. }
  assert (Hsc : forall k : string, default 50 ((∅ : gmap string R) !! k) = 50)
    by (intros k; now rewrite lookup_empty).
  pose proof (compute_match_M_neutral_horse g ∅
                (Some (Race.mk (Some "turf") (Some 1600) (Some "left")))
                (Some (TrackProfile.mk None None (Some "tight") (Some "heavy")))
                Hg Hsc) as H.
  cbv zeta in H. fold res in H.
  split; [exact Hg |]. split; [exact Hsc |].
  rewrite H. reflexivity.
Defined.

Lemma turn_adj_of_nonpos turn a : turn_adj_of turn a <= 0.
Proof.
  unfold turn_adj_of, Rltb. destruct (str_in _ _); cbn [andb]; [| lra].
  destruct (Rlt_dec a 45); lra.
Qed.

Lemma round2_zero : round2 0 = 0.
Proof.
  pose proof (round2_exact 0) as E.
  replace (IZR 0 / 100) with 0 in E by lra. exact E.
Qed.

(** X14: the turn direction only penalises.  For a track profile without a
    turn, a race with any turn never has a higher match than the same
    race without a turn; the turn adjustment is never positive; and with
    a symmetry score of at least 45 the turn changes nothing. *)
Theorem compute_match_M_turn_only_penalises :
  forall (g : gmap string R) pedigree sfc d trn tp,
    TrackProfile.turn tp = None ->
    let known := compute_match_M g pedigree (Some (Race.mk sfc d trn))
                   (Some tp) in
    let unknown := compute_match_M g pedigree (Some (Race.mk sfc d None))
                     (Some tp) in
    MatchResult.turn unknown = "unknown" /\
    MatchResult.turn_adj unknown = 0 /\
    MatchResult.turn_adj known <= 0 /\
    MatchResult.match_0_100 known <= MatchResult.match_0_100 unknown /\
    (45 <= _get g "A" 50 ->
     MatchResult.match_0_100 known = MatchResult.match_0_100 unknown).
Proof.
  intros g pedigree sfc d trn tp Htp known unknown.
  assert (Hinf : _infer_turn_from_track (Some tp) = None).
  { unfold _infer_turn_from_track. rewrite Htp. reflexivity. }
  assert (Hu : MatchResult.turn unknown = "unknown").
  { subst unknown. unfold compute_match_M. cbn [MatchResult.turn]. cbv zeta.
    cbn [from_option Datatypes.id Race.turn str_or]. rewrite Hinf.
    reflexivity. }
  assert (Hadj : forall a, turn_adj_of "unknown" a = 0)
    by (intros a; reflexivity).
  subst known unknown. revert Hu. unfold compute_match_M.
  cbn [MatchResult.turn MatchResult.turn_adj MatchResult.match_0_100].
  cbv zeta. cbn [from_option Datatypes.id Race.turn Race.surface
                 Race.distance_m].
  intros Hu. rewrite Hu, Hadj.
  split; [reflexivity |]. split; [exact round2_zero |].
  set (a := _get g "A" 50).
  set (turn := lower (str_or_lit (str_or trn _) "unknown")).
  pose proof (turn_adj_of_nonpos turn a) as Hn.
  split; [rewrite <- round2_zero; now apply round2_mono |].
  split.
  - apply round2_mono, _clamp_mono; lra.
  - intros Ha.
    assert (E : turn_adj_of turn a = 0).
    { unfold turn_adj_of. rewrite (Rltb_false a 45) by exact Ha.
      now rewrite andb_false_r. }
    rewrite E. reflexivity.
Qed.

Lemma compute_match_M_turn_only_penalises_witness :
  let tp := TrackProfile.mk (Some "turf") None (Some "wide") None in
  let g : gmap string R := <["A" := 30]> ∅ in
  let known := compute_match_M g None
                 (Some (Race.mk None (Some 1600) (Some "left"))) (Some tp) in
  let unknown := compute_match_M g None
                   (Some (Race.mk None (Some 1600) None)) (Some tp) in
  TrackProfile.turn tp = None /\
  MatchResult.turn_adj known <= 0 /\
  MatchResult.match_0_100 known <= MatchResult.match_0_100 unknown.
Proof.
  intros tp g known unknown.
  assert (Htp : TrackProfile.turn tp = None) by reflexivity.
  pose proof (compute_match_M_turn_only_penalises g None None (Some 1600)
                (Some "left") tp Htp) as H.
  cbv zeta in H. fold known unknown in H.
  destruct H as (_ & _ & H1 & H2 & _).
  split; [exact Htp |]. split; assumption.
Defined.

(** ** More about the simulation *)

Section SimulationFacts.

Lemma rng_advance_0 g : rng_advance g 0 = g.
Proof. destruct g as [d p]. unfold rng_advance. cbn. f_equal. lia. Qed.

Lemma rng_advance_add g j k :
  rng_advance (rng_advance g j) k = rng_advance g (j + k).
Proof. unfold rng_advance. cbn. f_equal. lia. Qed.

Lemma gauss_all_state mus sigma g :
  snd (gauss_all mus sigma g) = rng_advance g (length mus).
Proof.
  revert g. induction mus as [|mu rest IH]; intros g.
  - cbn. now rewrite rng_advance_0.
  - cbn [gauss_all]. unfold rand_bind, rand_ret.
    destruct (gauss mu sigma g) as [p g1] eqn:Eg.
    specialize (IH g1). destruct (gauss_all rest sigma g1) as [ps g2].
    cbn [snd] in *. rewrite IH.
    unfold gauss in Eg. injection Eg as _ <-.
    unfold rng_advance. cbn. f_equal. lia.
Qed.

Lemma trial_rank_state mus sigma g :
  snd (trial_rank mus sigma g) = rng_advance g (length mus).
Proof.
  unfold trial_rank, rand_bind, rand_ret.
  pose proof (gauss_all_state mus sigma g) as H.
  destruct (gauss_all mus sigma g) as [perf g']. exact H.
Qed.

(** [k] trials in a field of [m] take [k * m] draws. *)
Lemma trials_state k : forall mu mus sigma a g,
  snd (trials k (mu :: mus) sigma a g)
  = rng_advance g (k * length (mu :: mus)).
Proof.
  induction k as [|k IH]; intros mu mus sigma a g.
  - cbn. now rewrite rng_advance_0.
  - cbn [trials]. unfold rand_bind.
    pose proof (trial_rank_state (mu :: mus) sigma g) as Hs.
    destruct (trial_rank_range mu mus sigma g) as (r & g1 & Hr & _).
    rewrite Hr in Hs |- *. cbn [snd] in Hs. rewrite IH, Hs.
    rewrite rng_advance_add. f_equal.
Qed.

(** In a field of at most 3 every trial counts for the top 3, and in a
    field of at most 5 for the top 5. *)
Lemma trials_small_field k : forall mu mus sigma a g a' g',
  trials k (mu :: mus) sigma a g = (Some a', g') ->
  ((length (mu :: mus) <= 3)%nat ->
   Tally.top3 a' = (Tally.top3 a + Z.of_nat k)%Z) /\
  ((length (mu :: mus) <= 5)%nat ->
   Tally.top5 a' = (Tally.top5 a + Z.of_nat k)%Z).
Proof.
  induction k as [|k IH]; intros mu mus sigma a g a' g' Ht.
  - cbn in Ht. injection Ht as <- _.
    split; intros _; symmetry; apply Z.add_0_r.
  - cbn [trials] in Ht. unfold rand_bind in Ht.
    destruct (trial_rank_range mu mus sigma g) as (r & g1 & Hr & Hrange).
    rewrite Hr in Ht. destruct (IH _ _ _ _ _ _ _ Ht) as [H3 H5].
    split; intros Hm.
    + rewrite (H3 Hm). unfold tally_rank. cbn [Tally.top3].
      destruct (Nat.leb_spec r 3); lia.
    + rewrite (H5 Hm). unfold tally_rank. cbn [Tally.top5].
      destruct (Nat.leb_spec r 5); lia.
Qed.

Lemma gauss_all_sigma_0 mus g : fst (gauss_all mus 0 g) = mus.
Proof.
  revert g. induction mus as [|mu rest IH]; intros g; [reflexivity |].
  cbn [gauss_all]. unfold rand_bind, rand_ret.
  destruct (gauss mu 0 g) as [p g1] eqn:Eg.
  specialize (IH g1). destruct (gauss_all rest 0 g1) as [ps g2].
  cbn [fst] in *. unfold gauss in Eg. injection Eg as <- _.
  rewrite IH. f_equal. lra.
Qed.

Lemma count_above_seq pre rs :
  count_above (perf_at (pre ++ rs)) 0 (seq (length pre) (length rs))
  = count_gt (perf_at (pre ++ rs) 0) rs.
Proof.
  revert pre. induction rs as [|r rs IH]; intros pre; [reflexivity |].
  cbn [length seq count_above count_gt].
  assert (E : perf_at (pre ++ r :: rs) (length pre) = r)
    by (unfold perf_at; apply nth_middle).
  rewrite E. f_equal.
  specialize (IH (pre ++ [r])).
  rewrite <- app_assoc, length_app in IH. cbn [app length] in IH.
  replace (length pre + 1)%nat with (S (length pre)) in IH by lia.
  exact IH.
Qed.

(** With sigma 0 every trial gives the subject the rank one above the
    number of opponents rated strictly higher. *)
Lemma trial_rank_sigma_0 mu mus g :
  fst (trial_rank (mu :: mus) 0 g) = Some (count_gt mu mus + 1)%nat.
Proof.
  pose proof (trial_rank_counts_better mu mus 0 g) as H.
  pose proof (gauss_all_sigma_0 (mu :: mus) g) as Hp.
  destruct (gauss_all (mu :: mus) 0 g) as [perf g']. cbn [fst] in Hp.
  rewrite H. cbn [fst]. subst perf.
  pose proof (count_above_seq [mu] mus) as Hc. cbn [app length] in Hc.
  rewrite Hc. reflexivity.
Qed.

Lemma trials_sigma_0 k : forall mu mus a g a' g',
  trials k (mu :: mus) 0 a g = (Some a', g') ->
  let r := (count_gt mu mus + 1)%nat in
  Tally.win a' = (Tally.win a + if Nat.eqb r 1 then Z.of_nat k else 0)%Z /\
  Tally.top3 a' = (Tally.top3 a + if Nat.leb r 3 then Z.of_nat k else 0)%Z /\
  Tally.top5 a' = (Tally.top5 a + if Nat.leb r 5 then Z.of_nat k else 0)%Z /\
  Tally.rank_sum a' = Tally.rank_sum a + IZR (Z.of_nat k) * INR r.
Proof.
  induction k as [|k IH]; intros mu mus a g a' g' Ht r.
  - cbn in Ht. injection Ht as <- _.
    repeat split;
      [destruct (Nat.eqb r 1); lia | destruct (Nat.leb r 3); lia
      | destruct (Nat.leb r 5); lia
      | change (Z.of_nat 0) with 0%Z; lra].
  - cbn [trials] in Ht. unfold rand_bind in Ht.
    pose proof (trial_rank_sigma_0 mu mus g) as Hr.
    destruct (trial_rank (mu :: mus) 0 g) as [r' g1]. cbn [fst] in Hr.
    subst r'. fold r in Ht.
    destruct (IH _ _ _ _ _ _ Ht) as (Hw & H3 & H5 & Hs). fold r in Hw, H3, H5, Hs.
    rewrite Hw, H3, H5, Hs. unfold tally_rank.
    cbn [Tally.win Tally.top3 Tally.top5 Tally.rank_sum].
    rewrite Nat2Z.inj_succ, succ_IZR.
    repeat split;
      [destruct (Nat.eqb r 1); lia | destruct (Nat.leb r 3); lia
      | destruct (Nat.leb r 5); lia | lra].
Qed.

End SimulationFacts.

(** The shape of a run with at least one opponent. *)
Lemma simulate_finish_probs_run our_mu e es n sigma g :
  exists a g',
    trials (Z.to_nat (Z.max 200 n))
      (our_mu :: opponent_ratings (e :: es)) sigma Tally.zero g
    = (Some a, g') /\
    simulate_finish_probs our_mu (Some (e :: es)) n sigma g
    = (Some (SimResult.mk true (Z.max 200 n) (S (length (opponent_ratings (e :: es))))
               (IZR (Tally.win a) / IZR (Z.max 200 n))
               (IZR (Tally.top3 a) / IZR (Z.max 200 n))
               (IZR (Tally.top5 a) / IZR (Z.max 200 n))
               (Tally.rank_sum a / IZR (Z.max 200 n))
               sigma), g').
Proof.
  destruct (trials_ok (Z.to_nat (Z.max 200 n)) our_mu
              (opponent_ratings (e :: es)) sigma Tally.zero g 0
              (tally_zero_ok _)) as (a & g' & Ha & _).
  exists a, g'. split; [exact Ha |].
  unfold simulate_finish_probs. cbv zeta.
  cbn [from_option Datatypes.id].
  change (map (fun e0 => default 50 (Entrant.rating e0)) (e :: es))
    with (opponent_ratings (e :: es)).
  unfold opponent_ratings at 1. cbn [map length Nat.leb].
  fold (opponent_ratings es).
  change (default 50 (Entrant.rating e) :: opponent_ratings es)
    with (opponent_ratings (e :: es)).
  unfold rand_bind, rand_ret. rewrite Ha. reflexivity.
Qed.

(** X16: the draws a run takes.  With at least one opponent the simulation
    runs [max(200, n)] trials, reports that number as [n], and leaves the
    random source advanced by exactly one draw per runner and trial. *)
Theorem simulate_finish_probs_draw_count :
  forall our_mu e es n sigma g,
    exists res,
      simulate_finish_probs our_mu (Some (e :: es)) n sigma g
      = (Some res,
         rng_advance g (Z.to_nat (Z.max 200 n) * (length (e :: es) + 1))) /\
      SimResult.n res = Z.max 200 n /\
      (200 <= SimResult.n res)%Z.
Proof.
  intros.
  destruct (simulate_finish_probs_run our_mu e es n sigma g)
    as (a & g' & Ha & Hrun).
  pose proof (trials_state (Z.to_nat (Z.max 200 n)) our_mu
                (opponent_ratings (e :: es)) sigma Tally.zero g) as Hs.
  rewrite Ha in Hs. cbn [snd] in Hs.
  eexists. split; [rewrite Hrun; f_equal; rewrite Hs; f_equal; f_equal |].
  - unfold opponent_ratings. cbn [length]. rewrite length_map.
    cbn [length]. lia.
  - cbn [SimResult.n]. split; [reflexivity | lia].
Qed.

(** X17: small fields.  In a field of at most 3 runners every trial is a
    top-3 finish, and in a field of at most 5 runners every trial is a
    top-5 finish: the probability is exactly 1, whatever the ratings and
    the draws. *)
Theorem simulate_finish_probs_small_field :
  forall our_mu e es n sigma g,
    exists res g',
      simulate_finish_probs our_mu (Some (e :: es)) n sigma g
      = (Some res, g') /\
      SimResult.field_size res = (length (e :: es) + 1)%nat /\
      ((SimResult.field_size res <= 3)%nat -> SimResult.top3 res = 1) /\
      ((SimResult.field_size res <= 5)%nat -> SimResult.top5 res = 1).
Proof.
  intros.
  destruct (simulate_finish_probs_run our_mu e es n sigma g)
    as (a & g' & Ha & Hrun).
  destruct (trials_small_field _ _ _ _ _ _ _ _ Ha) as [H3 H5].
  eexists. exists g'. split; [exact Hrun |].
  cbn [SimResult.field_size SimResult.top3 SimResult.top5].
  assert (Hnn : forall z, z = (0 + Z.of_nat (Z.to_nat (Z.max 200 n)))%Z ->
                          IZR z / IZR (Z.max 200 n) = 1).
  { intros z ->. replace (0 + Z.of_nat (Z.to_nat (Z.max 200 n)))%Z
      with (Z.max 200 n) by lia.
    assert (200 <= IZR (Z.max 200 n)) by (apply IZR_le; lia).
    field. lra. }
  split.
  { unfold opponent_ratings. rewrite length_map. lia. }
  cbn [length] in H3, H5 |- *.
  split; intros Hm; apply Hnn; [apply H3 | apply H5]; exact Hm.
Qed.

Lemma simulate_finish_probs_small_field_witness :
  let e := Entrant.mk "rival" (Some 60) in
  let g := Rng.mk (fun _ => 0) 0 in
  exists res g',
    simulate_finish_probs 55 (Some [e]) 10 8 g = (Some res, g') /\
    (SimResult.field_size res <= 3)%nat /\
    SimResult.top3 res = 1 /\ SimResult.top5 res = 1.
Proof.
  intros e g.
  destruct (simulate_finish_probs_small_field 55 e [] 10 8 g)
    as (res & g' & Hrun & Hf & H3 & H5).
  assert (Hm : (SimResult.field_size res <= 3)%nat)
    by (rewrite Hf; cbn; lia).
  exists res, g'. split; [exact Hrun |]. split; [exact Hm |].
  split; [apply H3; exact Hm | apply H5; lia].
Defined.

(** X18: no spread.  With sigma 0 and at least one opponent the result is
    decided by the ratings: the expected rank is one more than the number
    of opponents rated strictly above the subject (a missing rating is
    50, and an equal rating does not count), and win, top 3 and top 5 are
    1 or 0 as that rank is 1, at most 3, at most 5. *)
Theorem simulate_finish_probs_sigma_0 :
  forall our_mu e es n g,
    let better := count_gt our_mu (opponent_ratings (e :: es)) in
    exists res g',
      simulate_finish_probs our_mu (Some (e :: es)) n 0 g = (Some res, g') /\
      SimResult.expected_rank res = INR (better + 1) /\
      SimResult.win res = (if Nat.eqb better 0 then 1 else 0) /\
      SimResult.top3 res = (if Nat.leb better 2 then 1 else 0) /\
      SimResult.top5 res = (if Nat.leb better 4 then 1 else 0).
Proof.
  intros.
  destruct (simulate_finish_probs_run our_mu e es n 0 g)
    as (a & g' & Ha & Hrun).
  destruct (trials_sigma_0 _ _ _ _ _ _ _ Ha) as (Hw & H3 & H5 & Hs).
  fold better in Hw, H3, H5, Hs.
  eexists. exists g'. split; [exact Hrun |].
  cbn [SimResult.expected_rank SimResult.win SimResult.top3 SimResult.top5].
  rewrite Hw, H3, H5, Hs. cbn [Tally.zero Tally.win Tally.top3 Tally.top5
                                Tally.rank_sum].
  replace (Z.of_nat (Z.to_nat (Z.max 200 n))) with (Z.max 200 n) by lia.
  assert (Hnn : 200 <= IZR (Z.max 200 n)) by (apply IZR_le; lia).
  set (nn := Z.max 200 n) in *.
  split; [field; lra |].
  replace (Nat.eqb (better + 1) 1) with (Nat.eqb better 0)
    by (destruct better; [reflexivity | cbn; now rewrite Nat.add_1_r]).
  replace (Nat.leb (better + 1) 3) with (Nat.leb better 2)
    by (rewrite Nat.add_1_r; reflexivity).
  replace (Nat.leb (better + 1) 5) with (Nat.leb better 4)
    by (rewrite Nat.add_1_r; reflexivity).
  repeat split;
    match goal with |- context [if ?b then _ else _] => destruct b end;
    rewrite ?Z.add_0_l; first [field; lra | unfold Rdiv; lra].
Qed.

(** ** More about the gait-feature extraction *)

Lemma _clip01_cases x :
  (x < 0 /\ _clip01 x = 0) \/ (1 < x /\ _clip01 x = 1) \/
  (0 <= x <= 1 /\ _clip01 x = x).
Proof.
  unfold _clip01, Rltb, Rgtb.
  destruct (Rlt_dec x 0); [left; split; [lra | reflexivity] |].
  destruct (Rgt_dec x 1); [right; left; split; [lra | reflexivity] |].
  right. right. split; [lra | reflexivity].
Qed.

Lemma _clip01_range x : 0 <= _clip01 x <= 1.
Proof. destruct (_clip01_cases x) as [?|[?|?]]; lra. Qed.

Lemma _clip01_mono x y : x <= y -> _clip01 x <= _clip01 y.
Proof.
  intros H. destruct (_clip01_cases x) as [?|[?|?]];
    destruct (_clip01_cases y) as [?|[?|?]]; lra.
Qed.

Section QualityFacts.

Variable Frame : Type.
Variable laplacian_var : Frame -> R.
Variable gray_mean : Frame -> R.

(** X19: the quality of a frame.  The score lies in [0,100]; a frame is
    flagged ["blur"] exactly when its sharpness is below 80, and a
    blurred frame scores at most 52; a frame is never flagged both
    ["dark"] and ["overexposed"]; a frame without any flag scores more
    than 27. *)
Theorem estimate_quality_score_and_flags :
  forall frame,
    let score :=
      fst (estimate_quality Frame laplacian_var gray_mean frame) in
    let issues :=
      snd (estimate_quality Frame laplacian_var gray_mean frame) in
    0 <= score <= 100 /\
    (In "blur" issues <-> laplacian_var frame < 80) /\
    (In "blur" issues -> score <= 52) /\
    (In "dark" issues <-> gray_mean frame < 60) /\
    (In "overexposed" issues <-> 210 < gray_mean frame) /\
    ~ (In "dark" issues /\ In "overexposed" issues) /\
    (issues = [] -> 27 < score).
Proof.
  intros frame score issues. subst score issues.
  unfold estimate_quality. cbv zeta. cbn [fst snd].
  set (fm := laplacian_var frame). set (mean := gray_mean frame).
  pose proof (_clip01_range ((fm - 40) / 200)) as Hb.
  pose proof (_clip01_range (Rabs (mean - 130) / 130)) as Hm.
  assert (Hblur : fm < 80 -> _clip01 ((fm - 40) / 200) <= 0.2).
  { intros H. destruct (_clip01_cases ((fm - 40) / 200)) as [?|[?|?]]; lra. }
  assert (Hsharp : 80 <= fm -> 0.2 <= _clip01 ((fm - 40) / 200)).
  { intros H. destruct (_clip01_cases ((fm - 40) / 200)) as [?|[?|?]]; lra. }
  assert (Hbright : 60 <= mean <= 210 ->
                    _clip01 (Rabs (mean - 130) / 130) <= 80 / 130).
  { intros H.
    assert (Rabs (mean - 130) <= 80)
      by (unfold Rabs; destruct (Rcase_abs _); lra).
    destruct (_clip01_cases (Rabs (mean - 130) / 130)) as [?|[?|?]]; lra. }
  unfold Rltb, Rgtb.
  split; [lra |].
  destruct (Rlt_dec fm 80) as [H1|H1];
    destruct (Rlt_dec mean 60) as [H2|H2];
    destruct (Rgt_dec mean 210) as [H3|H3];
    try (exfalso; lra); cbn [app In].
  all: split; [intuition (try discriminate; try lra) |].
  all: split; [try (specialize (Hblur H1));
               intuition (try discriminate; try lra) |].
  all: split; [intuition (try discriminate; try lra) |].
  all: split; [intuition (try discriminate; try lra) |].
  all: split; [intuition (try discriminate; try lra) |].
  all: intros E; try discriminate E.
  specialize (Hsharp ltac:(lra)). specialize (Hbright ltac:(lra)). lra.
Qed.

End QualityFacts.

(** An instance with a frame given by its two measurements: a blurred,
    dark frame and a sharp, well-lit one. *)
Lemma estimate_quality_score_and_flags_witness :
  let quality := estimate_quality (R * R) fst snd in
  (In "blur" (snd (quality (30, 40))) /\ fst (quality (30, 40)) <= 52) /\
  (snd (quality (300, 130)) = [] /\ 27 < fst (quality (300, 130))).
Proof.
  intros quality.
  pose proof (estimate_quality_score_and_flags (R * R) fst snd (30, 40))
    as (_ & Hb & Hs & _).
  pose proof (estimate_quality_score_and_flags (R * R) fst snd (300, 130))
    as (_ & _ & _ & _ & _ & _ & Hn).
  cbv zeta in Hb, Hs, Hn. fold quality in Hb, Hs, Hn.
  assert (H1 : In "blur" (snd (quality (30, 40)))).
  { apply Hb. cbn [fst]. lra. }
  assert (H2 : snd (quality (300, 130)) = []).
  { unfold quality, estimate_quality. cbn [fst snd].
    rewrite (Rltb_false 300 80), (Rltb_false 130 60), (Rgtb_false 130 210)
      by lra.
    reflexivity. }
  split; [split; [exact H1 | exact (Hs H1)] |].
  split; [exact H2 | exact (Hn H2)].
Defined.

(** X20: sharper is never worse.  Of two frames of the same mean brightness
    the one with the larger Laplacian variance has the quality score that
    is not lower; and of two frames of the same sharpness the one whose
    brightness is closer to 130 has the score that is not lower. *)
Theorem estimate_quality_monotone :
  forall (Frame : Type) (laplacian_var gray_mean : Frame -> R) f1 f2,
    let quality := estimate_quality Frame laplacian_var gray_mean in
    (laplacian_var f1 <= laplacian_var f2 -> gray_mean f1 = gray_mean f2 ->
     fst (quality f1) <= fst (quality f2)) /\
    (laplacian_var f1 = laplacian_var f2 ->
     Rabs (gray_mean f2 - 130) <= Rabs (gray_mean f1 - 130) ->
     fst (quality f1) <= fst (quality f2)).
Proof.
  intros. subst quality. unfold estimate_quality. cbv zeta. cbn [fst].
  split.
  - intros Hfm Hmean. rewrite Hmean.
    assert (H : _clip01 ((laplacian_var f1 - 40) / 200)
                <= _clip01 ((laplacian_var f2 - 40) / 200))
      by (apply _clip01_mono; lra).
    lra.
  - intros Hfm Hmean. rewrite Hfm.
    assert (H : _clip01 (Rabs (gray_mean f2 - 130) / 130)
                <= _clip01 (Rabs (gray_mean f1 - 130) / 130))
      by (apply _clip01_mono; lra).
    lra.
Qed.

Lemma estimate_quality_monotone_witness :
  let quality := estimate_quality (R * R) fst snd in
  (60 <= 120 /\ fst (quality (60, 100)) <= fst (quality (120, 100))) /\
  (Rabs (120 - 130) <= Rabs (200 - 130) /\
   fst (quality (90, 200)) <= fst (quality (90, 120))).
Proof.
  intros quality.
  pose proof (estimate_quality_monotone (R * R) fst snd (60, 100) (120, 100))
    as [H1 _].
  pose proof (estimate_quality_monotone (R * R) fst snd (90, 200) (90, 120))
    as [_ H2].
  cbv zeta in H1, H2. fold quality in H1, H2. cbn [fst snd] in H1, H2.
  assert (A : 60 <= 120) by lra.
  assert (B : Rabs (120 - 130) <= Rabs (200 - 130)).
  { unfold Rabs. destruct (Rcase_abs (120 - 130)), (Rcase_abs (200 - 130)); lra. }
  split; [split; [exact A | exact (H1 A eq_refl)] |].
  split; [exact B | exact (H2 eq_refl B)].
Defined.

(** X21: the regions tile the band.  For a band of non-negative height the
    head, trunk and hind rectangles have the horizontal extent of the
    band, follow one another from its top to its bottom without gap or
    overlap, and their heights differ by at most one row. *)
Theorem roi_rect_tiles_band :
  forall x0 y0 x1 y1 : Z,
    (y0 <= y1)%Z ->
    let '(hx0, hy0, hx1, hy1) := roi_rect x0 y0 x1 y1 "head" in
    let '(tx0, ty0, tx1, ty1) := roi_rect x0 y0 x1 y1 "trunk" in
    let '(bx0, by0, bx1, by1) := roi_rect x0 y0 x1 y1 "hind" in
    (hx0 = x0 /\ tx0 = x0 /\ bx0 = x0 /\ hx1 = x1 /\ tx1 = x1 /\ bx1 = x1) /\
    (hy0 = y0 /\ hy1 = ty0 /\ ty1 = by0 /\ by1 = y1) /\
    (hy0 <= hy1 <= ty1 /\ ty1 <= by1)%Z /\
    ((y1 - y0) / 3 <= hy1 - hy0 <= (y1 - y0) / 3 + 1)%Z /\
    ((y1 - y0) / 3 <= ty1 - ty0 <= (y1 - y0) / 3 + 1)%Z /\
    ((y1 - y0) / 3 <= by1 - by0 <= (y1 - y0) / 3 + 1)%Z.
Proof.
  intros x0 y0 x1 y1 Hy. unfold roi_rect. cbn.
  set (bh := (y1 - y0)%Z).
  assert (Hbh : (0 <= bh)%Z) by (subst bh; lia).
  pose proof (Z.div_mod bh 3 ltac:(lia)) as H1.
  pose proof (Z.mod_pos_bound bh 3 ltac:(lia)) as H2.
  pose proof (Z.div_mod (2 * bh) 3 ltac:(lia)) as H3.
  pose proof (Z.mod_pos_bound (2 * bh) 3 ltac:(lia)) as H4.
  repeat split; try reflexivity; subst bh; lia.
Qed.

(** An instance: the band of a 640 by 360 frame. *)
Lemma roi_rect_tiles_band_witness :
  (54 <= 324)%Z /\
  snd (roi_rect 160 54 480 324 "head")
  = snd (fst (fst (roi_rect 160 54 480 324 "trunk"))) /\
  snd (roi_rect 160 54 480 324 "trunk")
  = snd (fst (fst (roi_rect 160 54 480 324 "hind"))) /\
  snd (roi_rect 160 54 480 324 "hind") = 324%Z.
Proof.
  assert (H : (54 <= 324)%Z) by lia.
  pose proof (roi_rect_tiles_band 160 54 480 324 H) as T.
  destruct (roi_rect 160 54 480 324 "head") as [[[hx0 hy0] hx1] hy1].
  destruct (roi_rect 160 54 480 324 "trunk") as [[[tx0 ty0] tx1] ty1].
  destruct (roi_rect 160 54 480 324 "hind") as [[[bx0 by0] bx1] by1].
  destruct T as (_ & (_ & T1 & T2 & T3) & _).
  cbn [fst snd]. split; [exact H |]. split; [exact T1 |].
  split; [exact T2 | exact T3].
Defined.

(** X22: shake and the final quality.  The wobble lies in [0,1]; the
    quality score that leaves the function lies in [0,100] and, for a
    first-frame quality in [0,100], is never above it; ["shake"] is
    appended exactly when the drift deviation exceeds 3.3, and then the
    quality score is at most 83.5. *)
Theorem wobble_and_quality_bounds :
  forall drift_std q0 issues0,
    let '(wobble, quality_score, issues) :=
      wobble_and_quality drift_std q0 issues0 in
    0 <= wobble <= 1 /\
    0 <= quality_score <= 100 /\
    (0 <= q0 -> quality_score <= q0) /\
    (issues = issues0 ++ ["shake"] <-> 3.3 < drift_std) /\
    (issues = issues0 <-> drift_std <= 3.3) /\
    (3.3 < drift_std -> q0 <= 100 -> quality_score <= 83.5).
Proof.
  intros. unfold wobble_and_quality. cbv zeta.
  set (w := _clip01 (drift_std / 6)).
  pose proof (_clip01_range (drift_std / 6)) as Hw. fold w in Hw.
  assert (Hshake : 0.55 < w <-> 3.3 < drift_std).
  { subst w. destruct (_clip01_cases (drift_std / 6)) as [?|[?|?]]; lra. }
  assert (Hq : forall x, 0 <= Rmax 0 (Rmin 100 x) <= 100 /\
                         (0 <= x -> Rmax 0 (Rmin 100 x) <= x)).
  { intros x. unfold Rmax, Rmin.
    destruct (Rle_dec 100 x); destruct (Rle_dec 0 _); lra. }
  destruct (Hq (q0 - 30 * w)) as [Hq1 Hq2].
  split; [exact Hw |]. split; [exact Hq1 |].
  split.
  { intros H0. unfold Rmax, Rmin in *.
    destruct (Rle_dec 100 (q0 - 30 * w)); destruct (Rle_dec 0 _); lra. }
  assert (Hne : issues0 ++ ["shake"] <> issues0).
  { intros E. apply (f_equal (@length string)) in E.
    rewrite length_app in E. cbn in E. lia. }
  unfold Rgtb. destruct (Rgt_dec w 0.55) as [Hs|Hs].
  - split; [split; [intros _; apply Hshake; lra | reflexivity] |].
    split; [split; [intros E; contradiction | intros H; exfalso] |].
    + apply Hshake in Hs. lra.
    + intros Hd Hq0. unfold Rmax, Rmin.
      destruct (Rle_dec 100 (q0 - 30 * w)); destruct (Rle_dec 0 _); lra.
  - assert (Hd : drift_std <= 3.3).
    { destruct (Rle_dec drift_std 3.3); [assumption |].
      exfalso. apply Hs. apply Hshake. lra. }
    split; [split; [intros E; symmetry in E; contradiction | lra] |].
    split; [split; [intros _; exact Hd | reflexivity] |].
    intros; lra.
Qed.

Lemma wobble_and_quality_bounds_witness :
  let '(wobble, quality_score, issues) :=
    wobble_and_quality 4.2 90 ["blur"] in
  0 <= 90 /\ 3.3 < 4.2 /\ 90 <= 100 /\
  quality_score <= 90 /\ issues = ["blur"; "shake"] /\ quality_score <= 83.5.
Proof.
  pose proof (wobble_and_quality_bounds 4.2 90 ["blur"]) as H.
  destruct (wobble_and_quality 4.2 90 ["blur"]) as [[w qs] iss].
  destruct H as (_ & _ & H1 & H2 & _ & H3).
  assert (A : 0 <= 90) by lra.
  assert (B : 3.3 < 4.2) by lra.
  assert (C : 90 <= 100) by lra.
  split; [exact A |]. split; [exact B |]. split; [exact C |].
  split; [exact (H1 A) |]. split; [exact (proj2 H2 B) | exact (H3 B C)].
Defined.

(** ** The racecard helpers *)

Section Strip.

Lemma lstrip_bytes_fix back l :
  no_space_front back l = true -> lstrip_bytes back l = l.
Proof.
  destruct l as [|c1 [|c2 [|c3 l3]]]; cbn [no_space_front lstrip_bytes];
    intros H; repeat (apply andb_prop in H as [? H]);
    repeat match goal with
           | E : negb ?b = true |- _ => apply negb_true_iff in E; rewrite E
           end; try reflexivity.
  all: apply negb_true_iff in H; rewrite H; reflexivity.
Qed.

Lemma lstrip_bytes_spec back n : forall l,
  (length l <= n)%nat ->
  no_space_front back (lstrip_bytes back l) = true /\
  exists p, l = p ++ lstrip_bytes back l.
Proof.
  induction n as [|n IH]; intros l Hn.
  - destruct l; [| cbn in Hn; lia]. split; [reflexivity | now exists []].
  - destruct l as [|c1 l1]; [split; [reflexivity | now exists []] |].
    cbn [length] in Hn. cbn [lstrip_bytes].
    destruct (is_space c1) eqn:E1.
    { destruct (IH l1 ltac:(lia)) as (H & p & Hp).
      split; [exact H |]. exists (c1 :: p). cbn [app]. now rewrite <- Hp. }
    destruct l1 as [|c2 l2].
    { split; [cbn [no_space_front]; now rewrite E1 | now exists []]. }
    cbn [length] in Hn.
    destruct (if back then is_space2 c2 c1 else is_space2 c1 c2) eqn:E2.
    { destruct (IH l2 ltac:(lia)) as (H & p & Hp).
      split; [exact H |]. exists (c1 :: c2 :: p). cbn [app]. now rewrite <- Hp. }
    destruct l2 as [|c3 l3].
    { split; [cbn [no_space_front]; now rewrite E1, E2 | now exists []]. }
    cbn [length] in Hn.
    destruct (if back then is_space3 c3 c2 c1 else is_space3 c1 c2 c3) eqn:E3.
    { destruct (IH l3 ltac:(lia)) as (H & p & Hp).
      split; [exact H |]. exists (c1 :: c2 :: c3 :: p). cbn [app].
      now rewrite <- Hp. }
    split; [cbn [no_space_front]; now rewrite E1, E2, E3 | now exists []].
Qed.

Lemma no_space_front_prefix back u v :
  no_space_front back (u ++ v) = true -> no_space_front back u = true.
Proof.
  destruct u as [|c1 [|c2 [|c3 u3]]]; cbn [app no_space_front]; intros H;
    try reflexivity.
  - apply andb_prop in H as [H1 _]. now rewrite H1.
  - apply andb_prop in H as [H1 H]. rewrite H1.
    destruct v; [exact H |]. apply andb_prop in H as [H2 _]. now rewrite H2.
  - exact H.
Qed.

Lemma strip_idem s : strip (strip s) = strip s.
Proof.
  unfold strip, rstrip, lstrip.
  rewrite !list_ascii_of_string_of_list_ascii.
  set (t := lstrip_bytes false (list_ascii_of_string s)).
  set (r := lstrip_bytes true (List.rev t)).
  destruct (lstrip_bytes_spec false (length (list_ascii_of_string s))
              (list_ascii_of_string s) ltac:(lia)) as (Ht & _).
  fold t in Ht.
  destruct (lstrip_bytes_spec true (length (List.rev t)) (List.rev t)
              ltac:(lia)) as (Hr & p & Hp).
  fold r in Hr, Hp.
  assert (Et : t = List.rev r ++ List.rev p).
  { rewrite <- List.rev_app_distr, <- Hp. now rewrite List.rev_involutive. }
  assert (Hu : lstrip_bytes false (List.rev r) = List.rev r).
  { apply lstrip_bytes_fix. apply (no_space_front_prefix _ _ (List.rev p)).
    now rewrite <- Et. }
  rewrite Hu, List.rev_involutive.
  now rewrite (lstrip_bytes_fix true r Hr).
Qed.

End Strip.

Section Uniq.

(** The loop keeps [seen] the set of the elements of [out], and [out]
    free of duplicates and of empty strings. *)
Lemma _uniq_loop_inv seq : forall seen out,
  (forall y, y ∈ seen <-> y ∈ out) -> NoDup out -> ("" ∉ out) ->
  NoDup (RacecardFetcher._uniq_loop seq seen out) /\
  ("" ∉ RacecardFetcher._uniq_loop seq seen out) /\
  (forall y, y ∈ RacecardFetcher._uniq_loop seq seen out <->
             y ∈ out \/ (y <> "" /\ exists x, x ∈ seq /\ y = strip x)).
Proof.
  induction seq as [|x rest IH]; intros seen out Hseen Hnd Hne.
  - cbn [RacecardFetcher._uniq_loop]. split; [exact Hnd |]. split; [exact Hne |].
    intros y. split; [now left |].
    intros [H | (_ & x & Hx & _)]; [exact H |].
    now apply elem_of_nil in Hx.
  - cbn [RacecardFetcher._uniq_loop]. cbv zeta.
    destruct (String.eqb_spec (strip x) "") as [E|E].
    { destruct (IH seen out Hseen Hnd Hne) as (H1 & H2 & H3).
      split; [exact H1 |]. split; [exact H2 |].
      intros y. rewrite H3. split.
      - intros [H | (Hy & z & Hz & ->)]; [now left |].
        right. split; [exact Hy |]. exists z. split; [now right | reflexivity].
      - intros [H | (Hy & z & Hz & ->)]; [now left |].
        apply elem_of_cons in Hz as [-> | Hz]; [congruence |].
        right. split; [exact Hy |]. now exists z. }
    destruct (bool_decide (strip x ∈ seen)) eqn:Eb.
    { apply bool_decide_eq_true in Eb.
      destruct (IH seen out Hseen Hnd Hne) as (H1 & H2 & H3).
      split; [exact H1 |]. split; [exact H2 |].
      intros y. rewrite H3. split.
      - intros [H | (Hy & z & Hz & ->)]; [now left |].
        right. split; [exact Hy |]. exists z. split; [now right | reflexivity].
      - intros [H | (Hy & z & Hz & ->)]; [now left |].
        apply elem_of_cons in Hz as [-> | Hz].
        + left. now apply Hseen.
        + right. split; [exact Hy |]. now exists z. }
    apply bool_decide_eq_false in Eb.
    assert (Hout : strip x ∉ out) by (intros H; apply Eb; now apply Hseen).
    destruct (IH ({[strip x]} ∪ seen) (out ++ [strip x])) as (H1 & H2 & H3).
    + intros y. rewrite elem_of_union, elem_of_singleton, elem_of_app,
        list_elem_of_singleton, Hseen. tauto.
    + apply NoDup_app. split; [exact Hnd |]. split.
      * intros y Hy Hy'. apply list_elem_of_singleton in Hy'. now subst.
      * apply NoDup_singleton.
    + rewrite elem_of_app, list_elem_of_singleton. intros [H | H];
        [now apply Hne | now apply E].
    + split; [exact H1 |]. split; [exact H2 |].
      intros y. rewrite H3, elem_of_app, list_elem_of_singleton. split.
      * intros [[H | ->] | (Hy & z & Hz & ->)].
        -- now left.
        -- right. split; [exact E |]. exists x. split; [now left | reflexivity].
        -- right. split; [exact Hy |]. exists z. split; [now right | reflexivity].
      * intros [H | (Hy & z & Hz & ->)]; [now left; left |].
        apply elem_of_cons in Hz as [-> | Hz]; [now left; right |].
        right. split; [exact Hy |]. now exists z.
Qed.

(** A list that is already clean is appended as it is. *)
Lemma _uniq_loop_clean l : forall seen out,
  NoDup l -> (forall y, y ∈ l -> strip y = y /\ y <> "" /\ y ∉ seen) ->
  RacecardFetcher._uniq_loop l seen out = out ++ l.
Proof.
  induction l as [|x l IH]; intros seen out Hnd Hl.
  - cbn. now rewrite app_nil_r.
  - cbn [RacecardFetcher._uniq_loop]. cbv zeta.
    destruct (Hl x ltac:(now left)) as (Hs & Hne & Hseen).
    rewrite Hs.
    destruct (String.eqb_spec x "") as [E|_]; [contradiction |].
    rewrite bool_decide_eq_false_2 by exact Hseen.
    apply NoDup_cons in Hnd as [Hx Hnd].
    rewrite IH; [now rewrite <- app_assoc | exact Hnd |].
    intros y Hy. destruct (Hl y ltac:(now right)) as (H1 & H2 & H3).
    split; [exact H1 |]. split; [exact H2 |].
    rewrite elem_of_union, elem_of_singleton. intros [-> | H]; contradiction.
Qed.

End Uniq.

(** X23: [_uniq].  The result has no duplicates and no empty string; its
    elements are exactly the non-empty stripped entries of the input,
    [strip] removing the white space of [str.isspace] at both ends; and
    cleaning a clean list changes nothing. *)
Theorem uniq_properties :
  forall seq : list string,
    NoDup (RacecardFetcher._uniq seq) /\
    ("" ∉ RacecardFetcher._uniq seq) /\
    (forall y, y ∈ RacecardFetcher._uniq seq <->
               (y <> "" /\ exists x, x ∈ seq /\ y = strip x)) /\
    RacecardFetcher._uniq (RacecardFetcher._uniq seq)
    = RacecardFetcher._uniq seq.
Proof.
  intros seq. unfold RacecardFetcher._uniq.
  destruct (_uniq_loop_inv seq ∅ []) as (H1 & H2 & H3).
  { intros y. rewrite elem_of_empty, elem_of_nil. tauto. }
  { constructor. }
  { apply not_elem_of_nil. }
  assert (H3' : forall y, y ∈ RacecardFetcher._uniq_loop seq ∅ [] <->
                          (y <> "" /\ exists x, x ∈ seq /\ y = strip x)).
  { intros y. rewrite H3, elem_of_nil. tauto. }
  split; [exact H1 |]. split; [exact H2 |]. split; [exact H3' |].
  rewrite _uniq_loop_clean; [reflexivity | exact H1 |].
  intros y Hy. apply H3' in Hy as (Hne & x & _ & ->).
  split; [apply strip_idem |]. split; [exact Hne | apply not_elem_of_empty].
Qed.

Lemma rc_clamp_cases x lo hi :
  (x < lo /\ RacecardFetcher._clamp x lo hi = lo) \/
  (lo <= x /\ hi < x /\ RacecardFetcher._clamp x lo hi = hi) \/
  (lo <= x <= hi /\ RacecardFetcher._clamp x lo hi = x).
Proof. exact (clamp_cases x lo hi). Qed.

Lemma rating_from_poprank_range rank fs :
  35 <= RacecardFetcher._rating_from_poprank rank fs <= 80.
Proof.
  unfold RacecardFetcher._rating_from_poprank. cbv zeta.
  destruct rank as [rk|]; [| lra].
  destruct ((rk =? 0)%Z || (rk <=? 0)%Z); [lra |].
  match goal with |- context [RacecardFetcher._clamp ?x 35 80] =>
    destruct (rc_clamp_cases x 35 80) as [?|[?|?]] end; lra.
Qed.

(** X24: the rating of a popularity rank.  The rating lies in [35,80]; a
    missing, zero or negative rank gives 50; among ranks of at least 1 a
    worse rank never gives a higher rating, and a field of 16 or more
    never gives a higher rating than a smaller one; the favourite of a
    field below 16 is rated 70. *)
Theorem rating_from_poprank_properties :
  forall rank1 rank2 fs1 fs2,
    35 <= RacecardFetcher._rating_from_poprank (Some rank1) fs1 <= 80 /\
    RacecardFetcher._rating_from_poprank None fs1 = 50 /\
    ((rank1 <= 0)%Z ->
     RacecardFetcher._rating_from_poprank (Some rank1) fs1 = 50) /\
    ((1 <= rank1)%Z -> (rank1 <= rank2)%Z -> (fs1 <= fs2)%Z ->
     RacecardFetcher._rating_from_poprank (Some rank2) fs2
     <= RacecardFetcher._rating_from_poprank (Some rank1) fs1) /\
    ((fs1 < 16)%Z -> RacecardFetcher._rating_from_poprank (Some 1%Z) fs1 = 70).
Proof.
  intros. unfold RacecardFetcher._rating_from_poprank. cbv zeta.
  split; [| split; [reflexivity | split; [| split]]].
  - apply (rating_from_poprank_range (Some rank1) fs1).
  - intros H. replace ((rank1 =? 0)%Z || (rank1 <=? 0)%Z) with true;
      [reflexivity |].
    symmetry. apply orb_true_iff. right. now apply Z.leb_le.
  - intros H1 H12 Hfs.
    replace ((rank1 =? 0)%Z || (rank1 <=? 0)%Z) with false
      by (symmetry; apply orb_false_iff; split;
          [apply Z.eqb_neq | apply Z.leb_gt]; lia).
    replace ((rank2 =? 0)%Z || (rank2 <=? 0)%Z) with false
      by (symmetry; apply orb_false_iff; split;
          [apply Z.eqb_neq | apply Z.leb_gt]; lia).
    assert (Hr : IZR (rank1 - 1) <= IZR (rank2 - 1)) by (apply IZR_le; lia).
    destruct (Z.leb_spec 16 fs1), (Z.leb_spec 16 fs2); try lia;
      match goal with
      | |- RacecardFetcher._clamp ?x 35 80 <= RacecardFetcher._clamp ?y 35 80 =>
          destruct (rc_clamp_cases x 35 80) as [?|[?|?]];
          destruct (rc_clamp_cases y 35 80) as [?|[?|?]]; lra
      end.
  - intros Hfs. change ((1 =? 0)%Z || (1 <=? 0)%Z) with false. cbv iota.
    change (1 - 1)%Z with 0%Z.
    destruct (Z.leb_spec 16 fs1); [lia |].
    match goal with |- context [RacecardFetcher._clamp ?x 35 80] =>
      destruct (rc_clamp_cases x 35 80) as [?|[?|[? E]]];
        [lra | lra | rewrite E; lra]
    end.
Qed.

Lemma rating_from_poprank_properties_witness :
  ((1 <= 2)%Z /\ (2 <= 9)%Z /\ (12 <= 18)%Z) /\
  RacecardFetcher._rating_from_poprank (Some 9%Z) 18
  <= RacecardFetcher._rating_from_poprank (Some 2%Z) 12 /\
  RacecardFetcher._rating_from_poprank (Some 0%Z) 12 = 50 /\
  RacecardFetcher._rating_from_poprank (Some 1%Z) 12 = 70.
Proof.
  pose proof (rating_from_poprank_properties 2 9 12 18) as (_ & _ & _ & H & H70).
  pose proof (rating_from_poprank_properties 0 0 12 12) as (_ & _ & H0 & _).
  assert (A : (1 <= 2)%Z) by lia.
  assert (B : (2 <= 9)%Z) by lia.
  assert (C : (12 <= 18)%Z) by lia.
  assert (D : (0 <= 0)%Z) by lia.
  assert (E : (12 < 16)%Z) by lia.
  split; [repeat split; assumption |].
  split; [exact (H A B C) |]. split; [exact (H0 D) | exact (H70 E)].
Defined.

Lemma rating_of_range info fs :
  35 <= RacecardFetcher.rating_of info fs <= 85.
Proof.
  unfold RacecardFetcher.rating_of. cbv zeta.
  pose proof (rating_from_poprank_range
                (RacecardFetcher.Info.popularity info) fs) as Hr.
  destruct (RacecardFetcher.Info.odds info) as [o|]; [| lra].
  destruct (Req_dec_T o 0); [lra |].
  destruct (Rgtb o 0); [| lra].
  match goal with |- context [RacecardFetcher._clamp ?x 35 85] =>
    destruct (rc_clamp_cases x 35 85) as [?|[?|?]] end; lra.
Qed.

(** X25: the entrants built from a racecard.  There is one entrant per
    name, in the order of the names; every entrant has a rating, between
    35 and 85, so the simulation never falls back to its default of 50
    for them; and no racecard gives no entrants. *)
Theorem build_entrants_with_ratings_properties :
  forall names meta,
    let out := RacecardFetcher.build_entrants_with_ratings
                 (Some (RacecardFetcher.Parsed.mk names meta)) in
    map Entrant.name out = names /\
    length out = length names /\
    Forall (fun e => exists r, Entrant.rating e = Some r /\ 35 <= r <= 85)
           out /\
    opponent_ratings out
    = map (fun nm =>
             RacecardFetcher.rating_of
               (default RacecardFetcher.Info.empty (meta !! nm))
               (Z.max 1 (Z.of_nat (length names)))) names /\
    RacecardFetcher.build_entrants_with_ratings None = [].
Proof.
  intros names meta out. subst out.
  unfold RacecardFetcher.build_entrants_with_ratings. cbv zeta.
  cbn [RacecardFetcher.Parsed.names RacecardFetcher.Parsed.meta].
  set (fs := Z.max 1 (Z.of_nat (length names))).
  split; [| split; [| split; [| split]]].
  - rewrite map_map. cbn [Entrant.name]. apply map_id.
  - apply length_map.
  - apply Forall_forall. intros e He.
    apply list_elem_of_In, in_map_iff in He as (nm & <- & _).
    eexists. split; [reflexivity |]. apply rating_of_range.
  - unfold opponent_ratings. rewrite map_map. reflexivity.
  - reflexivity.
Qed.

(** X26: longer odds never help.  For the same popularity rank and field
    size, larger positive odds never give a higher rating; odds of at
    most 2 add the full 8 points and odds of 20 or more take 4 off,
    before the rating is clamped to [35,85]. *)
Theorem rating_of_monotone_in_odds :
  forall pop fs o1 o2,
    0 < o1 -> o1 <= o2 ->
    let r o := RacecardFetcher.rating_of
                 (RacecardFetcher.Info.mk pop (Some o)) fs in
    let base := RacecardFetcher._rating_from_poprank pop fs in
    r o2 <= r o1 /\
    (o1 <= 2 -> r o1 = RacecardFetcher._clamp (base + 8) 35 85) /\
    (20 <= o2 -> r o2 = RacecardFetcher._clamp (base - 4) 35 85).
Proof.
  intros pop fs o1 o2 H1 H12 r base. subst r. cbv beta.
  unfold RacecardFetcher.rating_of. cbv zeta.
  cbn [RacecardFetcher.Info.odds RacecardFetcher.Info.popularity].
  fold base.
  destruct (Req_dec_T o1 0) as [E|_]; [lra |].
  destruct (Req_dec_T o2 0) as [E|_]; [lra |].
  rewrite (Rgtb_true o1 0), (Rgtb_true o2 0) by lra.
  assert (Hadj : forall o, Rmin 3 (Rmax 0 ((o - 2) / 6)) =
                           if Rle_dec o 2 then 0
                           else if Rle_dec 20 o then 3 else (o - 2) / 6).
  { intros o. unfold Rmin, Rmax.
    destruct (Rle_dec o 2), (Rle_dec 20 o), (Rle_dec 0 ((o - 2) / 6));
      try destruct (Rle_dec 3 0); try destruct (Rle_dec 3 ((o - 2) / 6));
      lra. }
  rewrite !Hadj.
  split; [| split].
  - destruct (Rle_dec o1 2), (Rle_dec 20 o1), (Rle_dec o2 2), (Rle_dec 20 o2);
      try lra;
      match goal with
      | |- RacecardFetcher._clamp ?x 35 85 <= RacecardFetcher._clamp ?y 35 85 =>
          destruct (rc_clamp_cases x 35 85) as [?|[?|?]];
          destruct (rc_clamp_cases y 35 85) as [?|[?|?]]; lra
      end.
  - intros H. destruct (Rle_dec o1 2); [| lra]. f_equal. lra.
  - intros H. destruct (Rle_dec o2 2); [lra |].
    destruct (Rle_dec 20 o2); [| lra]. f_equal. lra.
Qed.

Lemma rating_of_monotone_in_odds_witness :
  let r o := RacecardFetcher.rating_of
               (RacecardFetcher.Info.mk (Some 3%Z) (Some o)) 12 in
  (0 < 1.8 /\ 1.8 <= 25) /\ r 25 <= r 1.8.
Proof.
  intros r.
  assert (A : 0 < 1.8) by lra.
  assert (B : 1.8 <= 25) by lra.
  pose proof (rating_of_monotone_in_odds (Some 3%Z) 12 1.8 25 A B)
    as (H & _).
  split; [split; assumption | exact H].
Defined.

(** ** The pedigree fallback *)

Lemma ped_clamp_cases x lo hi :
  (x < lo /\ PedigreeAIStrict._clamp x lo hi = lo) \/
  (lo <= x /\ hi < x /\ PedigreeAIStrict._clamp x lo hi = hi) \/
  (lo <= x <= hi /\ PedigreeAIStrict._clamp x lo hi = x).
Proof. exact (clamp_cases x lo hi). Qed.

Lemma bump_range kws t step v :
  0 <= step ->
  v <= PedigreeAIStrict.bump kws t step v <= v + step * INR (length kws).
Proof.
  intros Hs. unfold PedigreeAIStrict.bump. revert v.
  induction kws as [|k kws IH]; intros v.
  - cbn. lra.
  - cbn [fold_left length]. rewrite S_INR.
    destruct (contains k t).
    + specialize (IH (v + step)). nra.
    + specialize (IH v). nra.
Qed.

Lemma drop_range kws t step v :
  0 <= step ->
  v - step * INR (length kws) <= PedigreeAIStrict.drop kws t step v <= v.
Proof.
  intros Hs. unfold PedigreeAIStrict.drop. revert v.
  induction kws as [|k kws IH]; intros v.
  - cbn. lra.
  - cbn [fold_left length]. rewrite S_INR.
    destruct (contains k t).
    + specialize (IH (v - step)). nra.
    + specialize (IH v). nra.
Qed.

Lemma contains_empty_hay k : k <> EmptyString -> contains k EmptyString = false.
Proof. intros H. destruct k; [contradiction | reflexivity]. Qed.

(** X27: the pedigree fallback.  Whatever the text, the heuristic reports
    speed and stamina hints between 50 and 80, a pedigree score between
    50 and 80 that is their mean, a turfiness between 0.1 and 0.9, well
    inside the range [0,1] it is clamped to, and a surface fit between
    38 and 62 equal to [50 + 30 (turfiness - 0.5)], with [ok] false and
    confidence 0.25; a missing or empty text gives the neutral 50, 50,
    50, 0.5 and 50. *)
Theorem fallback_ranges :
  forall pedigree_text,
    let r := PedigreeAIStrict._fallback pedigree_text in
    (50 <= PedigreeAIStrict.ped_speed r <= 80 /\
     50 <= PedigreeAIStrict.ped_stamina r <= 80 /\
     50 <= PedigreeAIStrict.ped_score r <= 80 /\
     0.1 <= PedigreeAIStrict.ped_turfiness_0_1 r <= 0.9 /\
     38 <= PedigreeAIStrict.ped_surfacefit r <= 62) /\
    (PedigreeAIStrict.ped_score r
     = 0.5 * PedigreeAIStrict.ped_speed r
       + 0.5 * PedigreeAIStrict.ped_stamina r /\
     PedigreeAIStrict.ped_surfacefit r
     = 50 + 30 * (PedigreeAIStrict.ped_turfiness_0_1 r - 0.5)) /\
    (PedigreeAIStrict.ok r = false /\
     PedigreeAIStrict.confidence_0_1 r = 0.25) /\
    (let r0 := PedigreeAIStrict._fallback None in
     PedigreeAIStrict._fallback (Some "") = r0 /\
     PedigreeAIStrict.ped_speed r0 = 50 /\
     PedigreeAIStrict.ped_stamina r0 = 50 /\
     PedigreeAIStrict.ped_score r0 = 50 /\
     PedigreeAIStrict.ped_turfiness_0_1 r0 = 0.5 /\
     PedigreeAIStrict.ped_surfacefit r0 = 50).
Proof.
  intros pedigree_text r.
  assert (Hgen : forall text,
    let r := PedigreeAIStrict._fallback text in
    (50 <= PedigreeAIStrict.ped_speed r <= 80 /\
     50 <= PedigreeAIStrict.ped_stamina r <= 80 /\
     0.15 <= PedigreeAIStrict.ped_turfiness_0_1 r <= 0.80) /\
    PedigreeAIStrict.ped_score r
    = 0.5 * PedigreeAIStrict.ped_speed r
      + 0.5 * PedigreeAIStrict.ped_stamina r /\
    PedigreeAIStrict.ped_surfacefit r
    = 50 + 30 * (PedigreeAIStrict.ped_turfiness_0_1 r - 0.5)).
  { intros text. unfold PedigreeAIStrict._fallback. cbv zeta.
    cbn [PedigreeAIStrict.ped_speed PedigreeAIStrict.ped_stamina
         PedigreeAIStrict.ped_score PedigreeAIStrict.ped_turfiness_0_1
         PedigreeAIStrict.ped_surfacefit].
    set (t := lower (str_or_lit text "")).
    pose proof (bump_range PedigreeAIStrict.stamina_kw t 5 50 ltac:(lra)) as Hst.
    pose proof (bump_range PedigreeAIStrict.speed_kw t 5 50 ltac:(lra)) as Hsp.
    pose proof (bump_range PedigreeAIStrict.turf_kw t 0.05 0.5 ltac:(lra)) as Ht.
    pose proof (drop_range PedigreeAIStrict.dirt_kw t 0.05
                  (PedigreeAIStrict.bump PedigreeAIStrict.turf_kw t 0.05 0.5)
                  ltac:(lra)) as Hd.
    set (st := PedigreeAIStrict.bump PedigreeAIStrict.stamina_kw t 5 50) in *.
    set (sp := PedigreeAIStrict.bump PedigreeAIStrict.speed_kw t 5 50) in *.
    set (tu := PedigreeAIStrict.bump PedigreeAIStrict.turf_kw t 0.05 0.5) in *.
    set (tf := PedigreeAIStrict.drop PedigreeAIStrict.dirt_kw t 0.05 tu) in *.
    cbn [PedigreeAIStrict.stamina_kw PedigreeAIStrict.speed_kw
         PedigreeAIStrict.turf_kw PedigreeAIStrict.dirt_kw length INR]
      in Hst, Hsp, Ht, Hd.
    destruct (ped_clamp_cases st 35 80) as [[? Est]|[(? & ? & Est)|[? Est]]];
      destruct (ped_clamp_cases sp 35 80) as [[? Esp]|[(? & ? & Esp)|[? Esp]]];
      destruct (ped_clamp_cases tf 0 1) as [[? Etf]|[(? & ? & Etf)|[? Etf]]];
      rewrite Est, Esp, Etf; try lra;
      match goal with
      | |- context [PedigreeAIStrict._clamp (0.5 * ?a + 0.5 * ?b) 0 100] =>
          destruct (ped_clamp_cases (0.5 * a + 0.5 * b) 0 100)
            as [[? E1]|[(? & ? & E1)|[? E1]]]; rewrite E1; try lra
      end;
      match goal with
      | |- context [PedigreeAIStrict._clamp (50 + 30 * (?a - 0.5)) 0 100] =>
          destruct (ped_clamp_cases (50 + 30 * (a - 0.5)) 0 100)
            as [[? E2]|[(? & ? & E2)|[? E2]]]; rewrite E2; try lra
      end;
      repeat split; lra. }
  destruct (Hgen pedigree_text) as ((H1 & H2 & H3) & H4 & H5). fold r in H1, H2, H3, H4, H5.
  split; [repeat split; lra |]. split; [split; assumption |].
  split; [split; reflexivity |].
  cbv zeta. split; [reflexivity |].
  assert (E0 : forall kws step v,
             Forall (fun k => k <> EmptyString) kws ->
             PedigreeAIStrict.bump kws "" step v = v /\
             PedigreeAIStrict.drop kws "" step v = v).
  { intros kws step v Hk. unfold PedigreeAIStrict.bump, PedigreeAIStrict.drop.
    induction Hk as [|k kws Hk _ IH]; [split; reflexivity |].
    cbn [fold_left]. rewrite contains_empty_hay by exact Hk. exact IH. }
  assert (Hne : forall kws, Forall (fun k => String.eqb k "" = false) kws ->
                            Forall (fun k : string => k <> EmptyString) kws).
  { intros kws H. eapply Forall_impl; [exact H |].
    intros k Hk ->. discriminate Hk. }
  unfold PedigreeAIStrict._fallback. cbv zeta.
  cbn [PedigreeAIStrict.ped_speed PedigreeAIStrict.ped_stamina
       PedigreeAIStrict.ped_score PedigreeAIStrict.ped_turfiness_0_1
       PedigreeAIStrict.ped_surfacefit str_or_lit lower].
  rewrite (proj1 (E0 PedigreeAIStrict.stamina_kw 5 50
                    ltac:(apply Hne; repeat constructor))).
  rewrite (proj1 (E0 PedigreeAIStrict.speed_kw 5 50
                    ltac:(apply Hne; repeat constructor))).
  rewrite (proj1 (E0 PedigreeAIStrict.turf_kw 0.05 0.5
                    ltac:(apply Hne; repeat constructor))).
  rewrite (proj2 (E0 PedigreeAIStrict.dirt_kw 0.05 0.5
                    ltac:(apply Hne; repeat constructor))).
  unfold PedigreeAIStrict._clamp.
  repeat (rewrite Rltb_false by lra; rewrite Rgtb_false by lra).
  repeat split; lra.
Qed.

(** ** Timeouts and quota *)



Section Quota.

Variable free_quota : Z.
Variable month : string.

Lemma _ensure_month_rollover_month u :
  User.quota_month (Billing._ensure_month_rollover month u) = month.
Proof.
  unfold Billing._ensure_month_rollover.
  destruct (String.eqb_spec (User.quota_month u) month); cbn; congruence.
Qed.

Lemma _ensure_month_rollover_same u :
  User.quota_month u = month -> Billing._ensure_month_rollover month u = u.
Proof.
  intros H. unfold Billing._ensure_month_rollover.
  rewrite H, String.eqb_refl. reflexivity.
Qed.

(** [k] calls of [consume_quota(u, 1)]. *)
Lemma consume_quota_iter k : forall u,
  User.quota_month u = month ->
  let u' := Billing.consume_times month k u in
  User.quota_month u' = month /\
  User.plan u' = User.plan u /\
  User.quota_used_month u' = (User.quota_used_month u + Z.of_nat k)%Z /\
  User.quota_used_total u' = (User.quota_used_total u + Z.of_nat k)%Z.
Proof.
  induction k as [|k IH]; intros u Hm; cbn [Billing.consume_times].
  - cbv zeta. repeat split; [exact Hm | lia | lia].
  - destruct (IH u Hm) as (H1 & H2 & H3 & H4). cbv zeta in H1, H2, H3, H4 |- *.
    unfold Billing.consume_quota. cbv zeta.
    rewrite !(_ensure_month_rollover_same _ H1).
    cbn [User.quota_month User.plan User.quota_used_month
         User.quota_used_total].
    repeat split; [exact H1 | exact H2 | lia | lia].
Qed.

End Quota.

(** X29: the monthly quota.  In a month in which a user of the free plan
    has used nothing yet, after [k] uses of one unit the feature is
    allowed exactly when [k] is below the free quota; the monthly counter
    is then [k], and the check leaves the user record as it is. *)
Theorem can_use_feature_monthly_quota :
  forall free_quota month (u : User.t) (k : nat),
    User.plan u = "free" ->
    User.quota_month u = month ->
    User.quota_used_month u = 0%Z ->
    let u' := Billing.consume_times month k u in
    let '(u'', (ok, _)) := Billing.can_use_feature free_quota month u' in
    u'' = u' /\
    User.quota_used_month u' = Z.of_nat k /\
    (ok = true <-> (Z.of_nat k < free_quota)%Z).
Proof.
  intros free_quota month u k Hplan Hmonth Hused u'.
  destruct (consume_quota_iter month k u Hmonth) as (H1 & H2 & H3 & _).
  fold u' in H1, H2, H3. rewrite Hused in H3. rewrite Hplan in H2.
  unfold Billing.can_use_feature. cbv zeta.
  rewrite (_ensure_month_rollover_same _ _ H1).
  rewrite H2. cbn [Billing.monthly_quota String.eqb Ascii.eqb Bool.eqb].
  rewrite H2. cbn [Billing.monthly_quota String.eqb Ascii.eqb Bool.eqb
                   from_option Datatypes.id].
  rewrite H3. destruct (Z.leb_spec free_quota (0 + Z.of_nat k)).
  - split; [reflexivity |]. split; [lia |]. split; [discriminate | lia].
  - split; [reflexivity |]. split; [lia |]. split; [lia | reflexivity].
Qed.

Lemma can_use_feature_monthly_quota_witness :
  let u := User.mk "free" "2026-11" 0 12 in
  let u' := Billing.consume_times "2026-11" 5 u in
  (User.plan u = "free" /\ User.quota_month u = "2026-11" /\
   User.quota_used_month u = 0%Z) /\
  User.quota_used_month u' = 5%Z /\
  (let '(_, (ok, _)) := Billing.can_use_feature 5 "2026-11" u' in
   ok = false) /\
  (let '(_, (ok, _)) := Billing.can_use_feature 6 "2026-11" u' in
   ok = true).
Proof.
  intros u u'.
  pose proof (can_use_feature_monthly_quota 5 "2026-11" u 5
                eq_refl eq_refl eq_refl) as H5.
  pose proof (can_use_feature_monthly_quota 6 "2026-11" u 5
                eq_refl eq_refl eq_refl) as H6.
  cbv zeta in H5, H6. fold u' in H5, H6.
  split; [repeat split |].
  destruct (Billing.can_use_feature 5 "2026-11" u') as [v5 [ok5 m5]].
  destruct (Billing.can_use_feature 6 "2026-11" u') as [v6 [ok6 m6]].
  destruct H5 as (_ & Hu & Hok5). destruct H6 as (_ & _ & Hok6).
  split; [exact Hu |]. split.
  - destruct ok5; [| reflexivity]. exfalso.
    pose proof (proj1 Hok5 eq_refl). lia.
  - apply Hok6. lia.
Defined.

(** X30: a new month.  The first check in a month other than the one
    recorded sets the month, starts the monthly counter at 0 and keeps
    the total; after it the user has a configured plan, and a check that
    allows the feature implies a positive quota for that plan. *)
Theorem can_use_feature_new_month :
  forall free_quota month (u : User.t),
    User.quota_month u <> month ->
    let '(u', (ok, _)) := Billing.can_use_feature free_quota month u in
    User.quota_month u' = month /\
    User.quota_used_month u' = 0%Z /\
    User.quota_used_total u' = User.quota_used_total u /\
    (User.plan u' = "beta" \/ User.plan u' = "free") /\
    (Billing.monthly_quota free_quota (User.plan u) <> None ->
     User.plan u' = User.plan u) /\
    (Billing.monthly_quota free_quota (User.plan u) = None ->
     User.plan u' = "free") /\
    (ok = true <->
     (0 < default 0 (Billing.monthly_quota free_quota (User.plan u')))%Z).
Proof.
  intros free_quota month [plan qm used total] Hm. cbn [User.quota_month] in Hm.
  unfold Billing.can_use_feature, Billing._ensure_month_rollover. cbv zeta.
  cbn [User.plan User.quota_month User.quota_used_month
       User.quota_used_total].
  destruct (String.eqb_spec qm month) as [E|_]; [contradiction |].
  cbn [negb User.plan User.quota_month User.quota_used_month
       User.quota_used_total].
  unfold Billing.monthly_quota.
  destruct (String.eqb_spec plan "beta") as [->|Eb].
  - cbn. repeat split; intros; try lia; try discriminate; auto.
  - destruct (String.eqb_spec plan "free") as [->|Ef].
    + cbn [User.plan String.eqb Ascii.eqb Bool.eqb from_option Datatypes.id
           User.quota_used_month].
      destruct (Z.leb_spec free_quota 0);
        cbn [User.plan User.quota_month User.quota_used_month
             User.quota_used_total String.eqb Ascii.eqb Bool.eqb
             from_option Datatypes.id];
        repeat split; intros; try lia; try discriminate; auto.
    + cbn [User.plan String.eqb Ascii.eqb Bool.eqb from_option Datatypes.id
           User.quota_used_month].
      destruct (Z.leb_spec free_quota 0);
        cbn [User.plan User.quota_month User.quota_used_month
             User.quota_used_total String.eqb Ascii.eqb Bool.eqb
             from_option Datatypes.id];
        repeat split; intros; try lia; try discriminate; try congruence; auto.
Qed.

Lemma can_use_feature_new_month_witness :
  let u := User.mk "gold" "2026-10" 5 40 in
  User.quota_month u <> "2026-11" /\
  Billing.monthly_quota 5 (User.plan u) = None /\
  (let '(u', _) := Billing.can_use_feature 5 "2026-11" u in
   User.quota_used_month u' = 0%Z /\ User.quota_used_total u' = 40%Z /\
   User.plan u' = "free").
Proof.
  intros u.
  assert (Hm : User.quota_month u <> "2026-11") by discriminate.
  assert (Hq : Billing.monthly_quota 5 (User.plan u) = None) by reflexivity.
  pose proof (can_use_feature_new_month 5 "2026-11" u Hm) as H.
  destruct (Billing.can_use_feature 5 "2026-11" u) as [u' [ok msg]].
  destruct H as (_ & H1 & H2 & _ & _ & H3 & _).
  split; [exact Hm |]. split; [exact Hq |].
  split; [exact H1 |]. split; [exact H2 | exact (H3 Hq)].
Defined.

(** ** NaN in the scores *)

Section NanArithmetic.

Lemma add_NaN_r a : Float.add a Float.NaN = Float.NaN.
Proof. now destruct a. Qed.

Lemma add_NaN_l a : Float.add Float.NaN a = Float.NaN.
Proof. reflexivity. Qed.

Lemma sub_NaN_r a : Float.sub a Float.NaN = Float.NaN.
Proof. now destruct a. Qed.

Lemma sub_NaN_l a : Float.sub Float.NaN a = Float.NaN.
Proof. reflexivity. Qed.

Lemma mul_NaN_r a : Float.mul a Float.NaN = Float.NaN.
Proof. now destruct a. Qed.

Lemma mul_NaN_l a : Float.mul Float.NaN a = Float.NaN.
Proof. reflexivity. Qed.

Lemma div_NaN_l a : Float.div Float.NaN a = Float.NaN.
Proof. reflexivity. Qed.

(** [clamp] returns a NaN argument as it is: both of its comparisons are
    false. *)
Lemma clamp_NaN lo hi : Nan.clamp Float.NaN lo hi = Float.NaN.
Proof. reflexivity. Qed.

Lemma _clamp_NaN lo hi : Nan._clamp Float.NaN lo hi = Float.NaN.
Proof. reflexivity. Qed.

Lemma sigmoid_NaN : Nan.sigmoid Float.NaN = Float.NaN.
Proof. reflexivity. Qed.

End NanArithmetic.

Ltac nan_arith :=
  repeat progress
    rewrite ?add_NaN_r, ?add_NaN_l, ?sub_NaN_r, ?sub_NaN_l, ?mul_NaN_r,
      ?mul_NaN_l, ?div_NaN_l, ?clamp_NaN, ?_clamp_NaN, ?sigmoid_NaN.

(** C3.  A quality of NaN is not replaced by a default and is not
    clamped: whatever the other inputs, the trust multiplier, the gait
    total, the total, both ends of the confidence interval and the two
    percentages of the result are NaN, so none of them lies in
    [0,100]. *)
Theorem score_v2_nan_quality :
  forall pitch_hz stride_index wobble asym speed_proxy roi_asym
         headbob_ratio ai_state ped_score ped_stamina ped_surfacefit
         race_match_override,
    let r := Nan.score_v2 Float.NaN pitch_hz stride_index wobble asym
               speed_proxy roi_asym headbob_ratio ai_state ped_score
               ped_stamina ped_surfacefit race_match_override in
    (Nan.total_C_vid r = Float.NaN /\
     Nan.gait_GaitTotal r = Float.NaN /\
     Nan.total_Total r = Float.NaN /\
     Nan.total_CI r = (Float.NaN, Float.NaN) /\
     Nan.prob_PlacePct r = Float.NaN /\
     Nan.prob_ContendPct r = Float.NaN) /\
    (~ Nan.in_0_100 (Nan.gait_GaitTotal r) /\
     ~ Nan.in_0_100 (Nan.total_Total r) /\
     ~ Nan.in_0_100 (fst (Nan.total_CI r)) /\
     ~ Nan.in_0_100 (snd (Nan.total_CI r)) /\
     ~ Nan.in_0_100 (Nan.prob_PlacePct r) /\
     ~ Nan.in_0_100 (Nan.prob_ContendPct r)).
Proof.
  intros.
  assert (H : Nan.total_C_vid r = Float.NaN /\
              Nan.gait_GaitTotal r = Float.NaN /\
              Nan.total_Total r = Float.NaN /\
              Nan.total_CI r = (Float.NaN, Float.NaN) /\
              Nan.prob_PlacePct r = Float.NaN /\
              Nan.prob_ContendPct r = Float.NaN).
  { subst r. unfold Nan.score_v2. cbv zeta.
    cbn [Nan.total_C_vid Nan.gait_GaitTotal Nan.total_Total Nan.total_CI
         Nan.prob_PlacePct Nan.prob_ContendPct].
    nan_arith. repeat split; reflexivity. }
  split; [exact H |].
  destruct H as (_ & -> & -> & -> & -> & ->). cbn [fst snd Nan.in_0_100].
  repeat split; intros [].
Qed.

Section FinArithmetic.

Lemma clamp_Fin x lo hi :
  Nan.clamp (Float.Fin x) (Float.Fin lo) (Float.Fin hi)
  = Float.Fin (clamp x lo hi).
Proof.
  unfold Nan.clamp, clamp. cbn [Float.ltb Float.gtb Float.cmp].
  destruct (Rltb x lo); [reflexivity |]. now destruct (Rgtb x hi).
Qed.

Lemma _clamp_Fin x lo hi :
  Nan._clamp (Float.Fin x) (Float.Fin lo) (Float.Fin hi)
  = Float.Fin (_clamp x lo hi).
Proof. exact (clamp_Fin x lo hi). Qed.

Lemma sat_Fin x a b :
  Nan.sat (Float.Fin x) (Float.Fin a) (Float.Fin b) = Float.Fin (sat x a b).
Proof.
  unfold Nan.sat, sat. cbn [Float.leb Float.cmp].
  destruct (Rleb b a); [reflexivity |].
  cbn [Float.sub Float.div Float.lift2]. apply clamp_Fin.
Qed.

Lemma rev_Fin u : Nan.rev (Float.Fin u) = Float.Fin (rev u).
Proof. reflexivity. Qed.

Lemma sigmoid_Fin x : Nan.sigmoid (Float.Fin x) = Float.Fin (sigmoid x).
Proof.
  unfold Nan.sigmoid, sigmoid. cbn [Float.geb Float.cmp].
  now destruct (Rgeb x 0).
Qed.

Lemma round2_Fin x : Nan.round2 (Float.Fin x) = Float.Fin (round2 x).
Proof. reflexivity. Qed.

Lemma if_Fin (b : bool) x y :
  (if b then Float.Fin x else Float.Fin y) = Float.Fin (if b then x else y).
Proof. now destruct b. Qed.

Lemma dict_truthy_Fin (d : option (gmap string R)) :
  Nan.dict_truthy (fin_dict <$> d) = dict_truthy d.
Proof.
  destruct d as [m|]; [| reflexivity]. cbn [fmap option_fmap option_map].
  unfold Nan.dict_truthy, dict_truthy, fin_dict. now rewrite dom_fmap_L.
Qed.

Lemma dict_get_Fin (m : gmap string R) k dflt :
  Nan.dict_get (fin_dict m) k (Float.Fin dflt)
  = Float.Fin (dict_get m k dflt).
Proof.
  unfold Nan.dict_get, dict_get, fin_dict. rewrite lookup_fmap.
  now destruct (m !! k).
Qed.

Lemma lookup_fin_dict (m : gmap string R) k dflt :
  default (Float.Fin dflt) (fin_dict m !! k)
  = Float.Fin (default dflt (m !! k)).
Proof. unfold fin_dict. rewrite lookup_fmap. now destruct (m !! k). Qed.

(** [_get] on floats reads the entries that are not NaN. *)
Lemma _get_reals_of g k dflt :
  Nan._get g k (Float.Fin dflt) = Float.Fin (_get (reals_of g) k dflt).
Proof.
  unfold Nan._get, _get, reals_of. cbv zeta. rewrite lookup_omap.
  destruct (g !! k) as [[|x]|]; reflexivity.
Qed.

Lemma reals_of_insert g k x :
  reals_of (<[k := Float.Fin x]> g) = <[k := x]> (reals_of g).
Proof. unfold reals_of. now apply omap_insert_Some. Qed.

End FinArithmetic.

Ltac fin_arith :=
  repeat (cbn [Float.add Float.sub Float.mul Float.div Float.neg
               Float.lift1 Float.lift2];
          rewrite ?clamp_Fin, ?_clamp_Fin, ?sat_Fin, ?rev_Fin, ?sigmoid_Fin,
            ?round2_Fin, ?if_Fin).

(** The call of the failing input of C3: the fields that do not depend
    on the quality are as for a real quality, the others are NaN. *)
Example score_v2_nan_quality_example :
  let r := Nan.score_v2 Float.NaN 2.0 4.5 0.3 0.1 None None None
             (fin_state PaddockAIState.default) 50 50 50 None in
  Nan.item_P r = Float.Fin 50 /\
  Nan.item_S r = Float.Fin 40 /\
  Nan.risk_stress_risk r = Float.Fin 32.5 /\
  Nan.gait_GaitTotal r = Float.NaN /\
  Nan.total_Total r = Float.NaN /\
  Nan.total_CI r = (Float.NaN, Float.NaN) /\
  Nan.prob_PlacePct r = Float.NaN.
Proof.
  intros r.
  assert (HP : Nan.item_P r = Float.Fin 50).
  { subst r. unfold Nan.score_v2. cbv zeta. cbn [Nan.item_P].
    rewrite sat_Fin, rev_Fin. cbn [Float.mul Float.lift2]. f_equal.
    unfold rev, sat, Config.P0, Config.P1. rewrite Rleb_false by lra.
    rewrite clamp_mid by lra. lra. }
  assert (HS : Nan.item_S r = Float.Fin 40).
  { subst r. unfold Nan.score_v2. cbv zeta. cbn [Nan.item_S].
    rewrite sat_Fin. cbn [Float.mul Float.lift2]. f_equal.
    unfold sat, Config.S0, Config.S1. rewrite Rleb_false by lra.
    rewrite clamp_mid by lra. lra. }
  assert (HR : Nan.risk_stress_risk r = Float.Fin 32.5).
  { subst r. unfold Nan.score_v2. cbv zeta. cbn [Nan.risk_stress_risk].
    unfold PaddockAIState.default.
    cbn [fin_state PaddockAIState.X PaddockAIState.SW PaddockAIState.BR
         PaddockAIState.AiConf Nan.PaddockAIState.X Nan.PaddockAIState.SW
         Nan.PaddockAIState.BR Nan.PaddockAIState.AiConf].
    fin_arith. f_equal. repeat eval_clamp_step. lra. }
  split; [exact HP |]. split; [exact HS |]. split; [exact HR |].
  subst r. unfold Nan.score_v2. cbv zeta.
  cbn [Nan.gait_GaitTotal Nan.total_Total Nan.total_CI Nan.prob_PlacePct].
  nan_arith. repeat split; reflexivity.
Qed.

(** One [let] of the two embeddings at a time: the value on the float
    side is the value on the real side as a float, which is then kept
    abstract. *)
Ltac let_step inj solve_eq :=
  lazymatch goal with
  | |- (let x := ?a in @?f x) = inj (let y := ?b in @?g y) =>
      let E := fresh "E" in
      let v := fresh "v" in
      first
        [ assert (E : a = Float.Fin b) by solve_eq
        | assert (E : a = (Float.Fin (fst b), Float.Fin (snd b)))
            by solve_eq
        | assert (E : a = fin_race b) by solve_eq
        | assert (E : a = fin_dict b) by solve_eq
        | assert (E : a = b) by solve_eq ];
      change (f a = inj (g b)); rewrite E; clear E;
      generalize b; intros v; cbv beta
  end.

(** On real-valued inputs the two embeddings of [score_v2] agree. *)
Lemma score_v2_on_reals :
  forall q pitch_hz stride_index wobble asym speed_proxy
         (roi_asym : option (gmap string R)) headbob_ratio ai_state
         ped_score ped_stamina ped_surfacefit race_match_override,
    Nan.score_v2 (Float.Fin q) (Float.Fin pitch_hz) (Float.Fin stride_index)
      (Float.Fin wobble) (Float.Fin asym) (Float.Fin <$> speed_proxy)
      (fin_dict <$> roi_asym) (Float.Fin <$> headbob_ratio)
      (fin_state ai_state) (Float.Fin ped_score) (Float.Fin ped_stamina)
      (Float.Fin ped_surfacefit) (Float.Fin <$> race_match_override)
    = fin_result
        (score_v2 q pitch_hz stride_index wobble asym speed_proxy roi_asym
           headbob_ratio ai_state ped_score ped_stamina ped_surfacefit
           race_match_override).
Proof.
  intros.
  assert (Edict : forall k th,
            Float.gtb (Nan.dict_get (default ∅ (fin_dict <$> roi_asym))
                         k (Float.Fin 0)) (Float.Fin th)
            = Rgtb (dict_get (default ∅ roi_asym) k 0) th).
  { intros k th. destruct roi_asym as [m|];
      cbn [fmap option_fmap option_map from_option Datatypes.id default].
    - now rewrite dict_get_Fin.
    - unfold Nan.dict_get, dict_get. now rewrite !lookup_empty. }
  cbv beta delta [Nan.score_v2 score_v2].
  repeat let_step fin_result
    ltac:(cbv zeta;
          cbn [fin_state Nan.PaddockAIState.T Nan.PaddockAIState.X
               Nan.PaddockAIState.SW Nan.PaddockAIState.BR
               Nan.PaddockAIState.CO Nan.PaddockAIState.F
               Nan.PaddockAIState.AiConf];
          rewrite ?dict_truthy_Fin, ?Edict;
          try destruct speed_proxy; try destruct headbob_ratio;
          try destruct race_match_override;
          cbn [fmap option_fmap option_map];
          fin_arith; reflexivity).
  reflexivity.
Qed.

(** With real-valued pedigree scores and distance the two embeddings of
    [compute_match_M] agree, the item scores that are NaN counting as
    absent. *)
Lemma compute_match_M_on_reals :
  forall g pedigree race track_profile,
    Nan.compute_match_M g (fin_pedigree <$> pedigree) (fin_race <$> race)
      track_profile
    = fin_match (compute_match_M (reals_of g) pedigree race track_profile).
Proof.
  intros.
  cbv beta delta [Nan.compute_match_M compute_match_M].
  repeat let_step fin_match
    ltac:(try destruct race; try destruct pedigree as [[[?|]]|];
          cbn [fmap option_fmap option_map from_option Datatypes.id default
               fin_race fin_pedigree Nan.Pedigree.scores Pedigree.scores
               Nan.Race.surface Nan.Race.distance_m Nan.Race.turn];
          unfold dist_pref_of, surf_pref_of, corner_adj_of, going_adj_of,
            turn_adj_of;
          rewrite ?_get_reals_of, ?lookup_fin_dict;
          repeat match goal with
                 | |- context [default (Float.Fin ?d) (Float.Fin <$> ?o)] =>
                     replace (default (Float.Fin d) (Float.Fin <$> o))
                       with (Float.Fin (default d o)) by now destruct o
                 end;
          cbn [Float.leb Float.ltb Float.cmp];
          fin_arith;
          first [ reflexivity | unfold fin_dict; now rewrite fmap_empty ]).
  rewrite !_clamp_Fin. reflexivity.
Qed.

(** Without NaN among the inputs every field of [score_v2] on the 0..100
    scale lies in [0,100], in the embedding with NaN as well. *)
Lemma score_v2_fields_in_range_on_reals :
  forall q pitch_hz stride_index wobble asym speed_proxy
         (roi_asym : option (gmap string R)) headbob_ratio ai_state
         ped_score ped_stamina ped_surfacefit race_match_override,
    let r :=
      Nan.score_v2 (Float.Fin q) (Float.Fin pitch_hz)
        (Float.Fin stride_index) (Float.Fin wobble) (Float.Fin asym)
        (Float.Fin <$> speed_proxy) (fin_dict <$> roi_asym)
        (Float.Fin <$> headbob_ratio) (fin_state ai_state)
        (Float.Fin ped_score) (Float.Fin ped_stamina)
        (Float.Fin ped_surfacefit) (Float.Fin <$> race_match_override) in
    (Nan.in_0_100 (Nan.item_P r) /\ Nan.in_0_100 (Nan.item_S r) /\
     Nan.in_0_100 (Nan.item_W r) /\ Nan.in_0_100 (Nan.item_A r) /\
     Nan.in_0_100 (Nan.item_V r)) /\
    (Nan.in_0_100 (Nan.gait_G r) /\ Nan.in_0_100 (Nan.gait_G_adj r) /\
     Nan.in_0_100 (Nan.gait_GaitTotal r)) /\
    (Nan.in_0_100 (Nan.risk_R_gait r) /\ Nan.in_0_100 (Nan.risk_R_adj r) /\
     Nan.in_0_100 (Nan.risk_stress_risk r) /\
     Nan.in_0_100 (Nan.risk_paddock_state r)) /\
    Nan.in_0_100 (Nan.match_M r) /\
    Nan.in_0_100 (Nan.total_Total r) /\
    (Nan.in_0_100 (fst (Nan.total_CI r)) /\
     Nan.in_0_100 (snd (Nan.total_CI r))) /\
    (Nan.in_0_100 (Nan.prob_PlacePct r) /\
     Nan.in_0_100 (Nan.prob_ContendPct r)).
Proof.
  intros. subst r. rewrite score_v2_on_reals.
  pose proof (score_v2_fields_in_range q pitch_hz stride_index wobble asym
                speed_proxy roi_asym headbob_ratio ai_state ped_score
                ped_stamina ped_surfacefit race_match_override) as H.
  cbv zeta in H. unfold in_0_100 in H.
  cbn [fin_result Nan.item_P Nan.item_S Nan.item_W Nan.item_A Nan.item_V
       Nan.gait_G Nan.gait_G_adj Nan.gait_GaitTotal Nan.risk_R_gait
       Nan.risk_R_adj Nan.risk_stress_risk Nan.risk_paddock_state
       Nan.match_M Nan.total_Total Nan.total_CI Nan.prob_PlacePct
       Nan.prob_ContendPct fst snd Nan.in_0_100].
  tauto.
Qed.

(** C4.  The pedigree scores are read without the NaN test that [_get]
    applies to the item scores: with a NaN speed and durability score the
    match is NaN, whatever the item scores, the race and the track, a
    tight corner included, so it does not lie in [0,100]. *)
Theorem compute_match_M_nan_pedigree :
  forall g (sc : gmap string Float.t) race track_profile,
    let ps := <["speed" := Float.NaN]> (<["durability" := Float.NaN]> sc) in
    let res := Nan.compute_match_M g (Some (Nan.Pedigree.mk (Some ps))) race
                 track_profile in
    Nan.MatchResult.match_0_100 res = Float.NaN /\
    ~ Nan.in_0_100 (Nan.MatchResult.match_0_100 res).
Proof.
  intros g sc race track_profile ps res.
  assert (E : Nan.MatchResult.match_0_100 res = Float.NaN).
  { subst res. unfold Nan.compute_match_M. cbv zeta.
    cbn [Nan.MatchResult.match_0_100 Nan.Pedigree.scores from_option
         Datatypes.id default].
    assert (E1 : ps !! "speed" = Some Float.NaN)
      by (subst ps; apply lookup_insert_eq).
    assert (E2 : ps !! "durability" = Some Float.NaN).
    { subst ps. rewrite lookup_insert_ne by discriminate.
      apply lookup_insert_eq. }
    rewrite E1, E2. cbn [from_option Datatypes.id].
    match goal with |- context [String.eqb ?s "turf"] =>
      destruct (String.eqb s "turf"); [| destruct (String.eqb s "dirt")]
    end; nan_arith; reflexivity. }
  split; [exact E |]. rewrite E. intros [].
Qed.

(** The call of the failing input of C4: 1600 m on turf with a tight
    corner, the item scores ["W"] and ["A"] at 60. *)
Example compute_match_M_nan_pedigree_example :
  let res :=
    Nan.compute_match_M
      {["W" := Float.Fin 60; "A" := Float.Fin 60]}
      (Some (Nan.Pedigree.mk
               (Some {["speed" := Float.NaN; "durability" := Float.NaN]})))
      (Some (Nan.Race.mk (Some "turf") (Some (Float.Fin 1600)) None))
      (Some (TrackProfile.mk None None (Some "tight") None)) in
  Nan.MatchResult.corner res = "tight" /\
  Nan.MatchResult.match_0_100 res = Float.NaN /\
  Nan.MatchResult.dist_pref res = Float.NaN /\
  Nan.MatchResult.surf_pref res = Float.NaN.
Proof.
  intros res. split; [reflexivity |].
  subst res. unfold Nan.compute_match_M. cbv zeta.
  cbn [Nan.MatchResult.match_0_100 Nan.MatchResult.dist_pref
       Nan.MatchResult.surf_pref Nan.Pedigree.scores Nan.Race.surface
       Nan.Race.distance_m Nan.Race.turn from_option Datatypes.id default
       str_or str_or_lit].
  assert (E1 : ({["speed" := Float.NaN; "durability" := Float.NaN]}
                  : gmap string Float.t) !! "speed" = Some Float.NaN)
    by reflexivity.
  assert (E2 : ({["speed" := Float.NaN; "durability" := Float.NaN]}
                  : gmap string Float.t) !! "durability" = Some Float.NaN)
    by reflexivity.
  rewrite E1, E2. cbn [from_option Datatypes.id].
  cbn [Float.leb Float.cmp].
  rewrite (Rleb_false 1600 0), (Rleb_false 1600 1400), (Rleb_true 1600 1800)
    by lra.
  cbn [lower lower_ascii String.eqb Ascii.eqb Bool.eqb].
  nan_arith. repeat split; reflexivity.
Qed.


(** On a tight corner, with pedigree scores and a distance that are not
    NaN, raising the stability or the symmetry score does not lower the
    match, in the embedding with NaN as well. *)
Lemma compute_match_M_tight_corner_monotone_on_reals :
  forall g pedigree race tp w1 w2 a1 a2,
    TrackProfile.corner tp = Some "tight" ->
    w1 <= w2 -> a1 <= a2 ->
    exists m1 m2,
      Nan.MatchResult.match_0_100
        (Nan.compute_match_M
           (<["W" := Float.Fin w1]> (<["A" := Float.Fin a1]> g))
           (fin_pedigree <$> pedigree) (fin_race <$> race) (Some tp))
      = Float.Fin m1 /\
      Nan.MatchResult.match_0_100
        (Nan.compute_match_M
           (<["W" := Float.Fin w2]> (<["A" := Float.Fin a2]> g))
           (fin_pedigree <$> pedigree) (fin_race <$> race) (Some tp))
      = Float.Fin m2 /\
      m1 <= m2 /\ 0 <= m1 <= 100 /\ 0 <= m2 <= 100.
Proof.
  intros g pedigree race tp w1 w2 a1 a2 Hc Hw Ha.
  rewrite !compute_match_M_on_reals, !reals_of_insert.
  pose proof (compute_match_M_tight_corner_monotone (reals_of g) pedigree
                race tp w1 w2 a1 a2 Hc Hw Ha) as H.
  cbv zeta in H. destruct H as (_ & _ & H1 & H2 & H3).
  eexists _, _. split; [reflexivity |]. split; [reflexivity |].
  split; [exact H1 |]. split; [exact H2 | exact H3].
Qed.


(** ** Worked examples *)

Example lower_example : lower "TiGhT" = "tight".
Proof. reflexivity. Qed.

Example lower_keeps_japanese : lower "小回り" = "小回り".
Proof. reflexivity. Qed.

Example strip_example : strip "  Turf " = "Turf".
Proof. reflexivity. Qed.

(** The ideographic space U+3000 is white space for [strip]. *)
Example strip_ideographic_space : strip "　小回り　 " = "小回り".
Proof. reflexivity. Qed.

Example infer_turn_ideographic_space :
  _infer_turn_from_track
    (Some (TrackProfile.mk None (Some "左　") None None)) = Some "left".
Proof. reflexivity. Qed.

Example _uniq_ideographic_space :
  RacecardFetcher._uniq ["ア　"; "ア"; "　"] = ["ア"].
Proof. vm_compute. reflexivity. Qed.

Example infer_surface_example :
  _infer_surface_from_track
    (Some (TrackProfile.mk (Some " Grass ") None None None)) = Some "turf".
Proof. reflexivity. Qed.

Example infer_turn_example :
  _infer_turn_from_track
    (Some (TrackProfile.mk None (Some "右") None None)) = Some "right".
Proof. reflexivity. Qed.

(** [round(0.125, 2)] on exact values goes to the even neighbour. *)
Example round2_tie_to_even : round2 0.125 = 0.12 /\ round2 0.135 = 0.14.
Proof.
  unfold round2, round_half_even. cbv zeta. split.
  - assert (E : Int_part (0.125 * 100) = 12%Z)
      by (symmetry; apply Int_part_spec; lra).
    rewrite E. rewrite Rltb_false, Rgtb_false by lra. cbn [Z.even]. lra.
  - assert (E : Int_part (0.135 * 100) = 13%Z)
      by (symmetry; apply Int_part_spec; lra).
    rewrite E. rewrite Rltb_false, Rgtb_false by lra. cbn [Z.even].
    rewrite plus_IZR. lra.
Qed.

(** A trial with performances 5, 7, 5: entry 1 is first, and entry 0
    precedes entry 2 of the same performance, so its rank is 2. *)
Example sorted_desc_example :
  let perf := [5; 7; 5] in
  sorted_desc (perf_at perf) (seq 0 3) = [1; 0; 2]%nat /\
  index 0 (sorted_desc (perf_at perf) (seq 0 3)) = Some 1%nat.
Proof.
  cbv zeta.
  assert (E : sorted_desc (perf_at [5; 7; 5]) (seq 0 3) = [1; 0; 2]%nat).
  { cbn [seq sorted_desc insert_desc]. unfold perf_at. cbn [nth].
    rewrite (Rltb_false 7 5) by lra. cbn [insert_desc].
    rewrite (Rltb_true 5 7) by lra. rewrite (Rltb_false 5 5) by lra.
    reflexivity. }
  rewrite E. split; reflexivity.
Qed.

(** The example of the specification: quality 80, default paddock state,
    match override 60. *)
Example score_v2_example :
  let r := score_v2 80 2.0 0.55 0.20 0.08 None None None
             PaddockAIState.default 55 50 50 (Some 60) in
  gait_G r = 52 /\ risk_R_adj r = 21.75 /\ total_C_vid r = 0.93 /\
  total_Total r = 44.65724375 /\
  total_CI r = (41.05724375, 48.25724375).
Proof.
  cbv zeta. repeat split.
  - eval_score. lra.
  - eval_score. lra.
  - eval_score. lra.
  - eval_score. lra.
  - eval_score. f_equal; lra.
Qed.
